(** * Obsidian AI tools: the incremental sync engine, the moderated search
      and the plugin around them

    A shallow embedding of [generateEmbeddings] / [isFileInDirectories]
    (generate-embeddings.ts) and of main.ts: [AISearchModal] with
    [getSuggestionsInternal], its key listeners and its chat, and
    [ObsidianAIPlugin] with its settings, clients, commands and settings
    tab.  The record store, the embedding provider and the vault are an
    explicit state, and the requests the code issues are a log. *)

From Stdlib Require Import String Ascii List Arith Bool Lia.
From Stdlib Require QArith_base.
From stdpp Require Import base list strings gmap pretty.
Import ListNotations.

Open Scope string_scope.
Open Scope list_scope.
Open Scope nat_scope.

(** ** config.ts *)

(** [AIConfig] has the five fields of the interface.  [generateEmbeddings]
    also reads [config.charsFromPreviousParagraph]; a property the object
    does not define reads as [undefined], which is [None] here, and every
    comparison [undefined > 0] or [n > undefined] is false. *)
Record AIConfig := {
  embeddingModel : string;
  chatModel : string;
  minParagraphSize : nat;
  maxParagraphSize : nat;
  minLengthBeforeAutoSearch : nat;
  charsFromPreviousParagraph : option nat
}.

Definition config : AIConfig := {|
  embeddingModel := "text-embedding-3-small";
  chatModel := "gpt-4o-mini";
  minParagraphSize := 200;
  maxParagraphSize := 600;
  minLengthBeforeAutoSearch := 10;
  charsFromPreviousParagraph := None
|}.

(** ** A state and exception monad

    [async] code that reads and writes a state and may throw. *)

Inductive Outcome (E A : Type) :=
| Ok (a : A)
| Throw (e : E).
Arguments Ok {E A} a.
Arguments Throw {E A} e.

Definition M (S E A : Type) : Type := S -> Outcome E A * S.

Definition ret {S E A} (a : A) : M S E A := fun w => (Ok a, w).

Definition bind {S E A B} (c : M S E A) (k : A -> M S E B) : M S E B :=
  fun w => match c w with
           | (Ok a, w') => k a w'
           | (Throw e, w') => (Throw e, w')
           end.

Definition throw {S E A} (e : E) : M S E A := fun w => (Throw e, w).

Definition try_catch {S E A} (c : M S E A) (h : E -> M S E A) : M S E A :=
  fun w => match c w with
           | (Ok a, w') => (Ok a, w')
           | (Throw e, w') => h e w'
           end.

Declare Scope sync_scope.
Delimit Scope sync_scope with sync.
Notation "x <- c ;; k" := (bind c (fun x => k))
  (at level 100, c at next level, right associativity) : sync_scope.
Notation "c ;; k" := (bind c (fun _ => k))
  (at level 100, right associativity) : sync_scope.
Open Scope sync_scope.

Fixpoint for_each {S E A} (l : list A) (body : A -> M S E unit) : M S E unit :=
  match l with
  | [] => ret tt
  | x :: rest => body x ;; for_each rest body
  end.

(** What a store call resolves to: supabase-js reports a failure in
    [error], it does not throw. *)
Record Response (E A : Type) := {
  error : option E;
  data : option A
}.
Arguments error {E A} r.
Arguments data {E A} r.

(** ** Collaborators of the sync engine

    The pure functions the engine calls and that are not among the
    sources: [path.normalize] of Node, [createHash("sha256")] with its
    base64 digest, [parseMarkdown] and [smartChunkParagraphs] of ./utils,
    the serializer of the header that [createChunkContext] writes, and
    the [usage.total_tokens] and [data[0].embedding] of the response to an
    embedding request.  The engine is verified for every choice of them. *)
Class Collaborators (Vector : Type) := {
  normalize : string -> string;
  sha256_base64 : string -> string;
  parseMarkdown : string -> string * gmap string string;
  smartChunkParagraphs : string -> nat -> nat -> list string;
  frontmatterHeader : gmap string string -> string -> string;
  total_tokens : string -> nat;
  embedding_data : string -> Vector
}.

Record TFile := { path : string }.

(** [this.app.vault]: the markdown files and their text. *)
Record Vault := {
  getMarkdownFiles : list TFile;
  fileText : TFile -> string
}.

Record EmbeddingResult := {
  successCount : nat;
  updatedCount : nat;
  errorCount : nat;
  deleteCount : nat
}.

Section Sync.

Context {Vector : Type} `{C : Collaborators Vector}.

(** ** The record store *)

Record Document := {
  doc_id : nat;
  doc_path : string;
  doc_checksum : option string;
  doc_meta : gmap string string;
  doc_public : bool
}.

Record DocumentSection := {
  document_id : nat;
  content : string;
  token_count : nat;
  embedding : Vector
}.

(** The two tables, and the identity the store gives to the next new row. *)
Record Store := {
  document : list Document;
  document_section : list DocumentSection;
  next_id : nat
}.

(** Every call that leaves the process. *)
Inductive Request :=
| SelectDocument (p : string)
| CachedRead (p : string)
| UpdatePublic (i : nat) (b : bool)
| DeleteSections (i : nat)
| UpsertDocument (sum : option string) (p : string) (m : gmap string string) (b : bool)
| CreateEmbedding (input : string)
| InsertSection (s : DocumentSection)
| UpdateChecksum (i : nat) (sum : string)
| SelectAllDocuments
| DeleteDocument (p : string).

Inductive Error :=
| RequestError (r : Request)
| EmbeddingFailed
| TypeError.

(** *** What the store does with a request

    [.filter("path", "eq", p).limit(1).maybeSingle()] *)
Definition select_by_path (p : string) (s : Store) : option Document :=
  List.find (fun d => String.eqb (doc_path d) p) (document s).

Definition set_public (b : bool) (d : Document) : Document :=
  {| doc_id := doc_id d; doc_path := doc_path d; doc_checksum := doc_checksum d;
     doc_meta := doc_meta d; doc_public := b |}.

Definition set_checksum (sum : option string) (d : Document) : Document :=
  {| doc_id := doc_id d; doc_path := doc_path d; doc_checksum := sum;
     doc_meta := doc_meta d; doc_public := doc_public d |}.

Definition set_upserted (sum : option string) (m : gmap string string) (b : bool)
    (d : Document) : Document :=
  {| doc_id := doc_id d; doc_path := doc_path d; doc_checksum := sum;
     doc_meta := m; doc_public := b |}.

Definition update_documents (sel : Document -> bool) (f : Document -> Document)
    (s : Store) : Store :=
  {| document := List.map (fun d => if sel d then f d else d) (document s);
     document_section := document_section s;
     next_id := next_id s |}.

(** [upsert(row, { onConflict: "path" })]: the row with that path is
    rewritten in place and keeps its id; without one a new row is added. *)
Definition upsert_document (sum : option string) (p : string) (m : gmap string string)
    (b : bool) (s : Store) : Store :=
  match select_by_path p s with
  | Some _ =>
      update_documents (fun d => String.eqb (doc_path d) p) (set_upserted sum m b) s
  | None =>
      {| document := document s ++
           [{| doc_id := next_id s; doc_path := p; doc_checksum := sum;
               doc_meta := m; doc_public := b |}];
         document_section := document_section s;
         next_id := S (next_id s) |}
  end.

Definition delete_sections (sel : nat -> bool) (s : Store) : Store :=
  {| document := document s;
     document_section :=
       List.filter (fun x => negb (sel (document_id x))) (document_section s);
     next_id := next_id s |}.

(** Deleting a document takes its sections with it. *)
Definition delete_document (p : string) (s : Store) : Store :=
  let gone := List.filter (fun d => String.eqb (doc_path d) p) (document s) in
  {| document := List.filter (fun d => negb (String.eqb (doc_path d) p)) (document s);
     document_section :=
       List.filter
         (fun x => negb (existsb (fun d => Nat.eqb (doc_id d) (document_id x)) gone))
         (document_section s);
     next_id := next_id s |}.

Definition apply_request (r : Request) (s : Store) : Store :=
  match r with
  | SelectDocument _ | CachedRead _ | CreateEmbedding _ | SelectAllDocuments => s
  | UpdatePublic i b =>
      update_documents (fun d => Nat.eqb (doc_id d) i) (set_public b) s
  | DeleteSections i => delete_sections (Nat.eqb i) s
  | UpsertDocument sum p m b => upsert_document sum p m b s
  | InsertSection x =>
      {| document := document s;
         document_section := document_section s ++ [x];
         next_id := next_id s |}
  | UpdateChecksum i sum =>
      update_documents (fun d => Nat.eqb (doc_id d) i) (set_checksum (Some sum)) s
  | DeleteDocument p => delete_document p s
  end.

(** The checksum stored for a path, if a row has one. *)
Definition stored_checksum (p : string) (s : Store) : option string :=
  match select_by_path p s with
  | Some d => doc_checksum d
  | None => None
  end.

Definition apply_requests (rs : list Request) (s : Store) : Store :=
  fold_left (fun s r => apply_request r s) rs s.

(** The state a sync runs in: the store, the requests issued so far with
    their success, the counters of the running [embeddingResult], and
    [faults], which says for the n-th request whether it fails. *)
Record State := {
  store : Store;
  log : list (Request * bool);
  embeddingResult : EmbeddingResult;
  faults : nat -> bool
}.

Definition set_result (r : EmbeddingResult) (w : State) : State :=
  {| store := store w; log := log w; embeddingResult := r; faults := faults w |}.

(** The computations of the sync engine. *)
Definition Sync (A : Type) : Type := M State Error A.

Definition modify_result (f : EmbeddingResult -> EmbeddingResult) : Sync unit :=
  fun w => (Ok tt, set_result (f (embeddingResult w)) w).

Definition get_store : Sync Store := fun w => (Ok (store w), w).

(** A request leaves the process: when [faults] fails it, it is logged
    as failed and the store stays as it was; else it is logged as served
    and the store applies it.  The result says whether it was served. *)
Definition failed (r : Request) (w : State) : State :=
  {| store := store w; log := log w ++ [(r, false)];
     embeddingResult := embeddingResult w; faults := faults w |}.

Definition served (r : Request) (w : State) : State :=
  {| store := apply_request r (store w); log := log w ++ [(r, true)];
     embeddingResult := embeddingResult w; faults := faults w |}.

Definition perform (r : Request) : Sync bool :=
  fun w =>
    if faults w (length (log w))
    then (Ok false, failed r w)
    else (Ok true, served r w).

Definition supabase {A} (r : Request) (answer : Store -> option A) : Sync (Response Error A) :=
  ok <- perform r ;;
  if ok : bool
  then s <- get_store ;; ret {| error := None; data := answer s |}
  else ret {| error := Some (RequestError r); data := None |}.

(** [vault.cachedRead(file)] rejects when the read fails. *)
Definition cachedRead (vault : Vault) (file : TFile) : Sync string :=
  ok <- perform (CachedRead (path file)) ;;
  if ok : bool then ret (fileText vault file)
  else throw (RequestError (CachedRead (path file))).

(** [openai.createEmbedding]: the status, and the body [json()] gives. *)
Record EmbeddingResponse := {
  status : nat;
  json : option (nat * Vector)
}.

Definition createEmbedding (input : string) : Sync EmbeddingResponse :=
  ok <- perform (CreateEmbedding input) ;;
  if ok : bool
  then ret {| status := 200; json := Some (total_tokens input, embedding_data input) |}
  else ret {| status := 500; json := None |}.

(** ** generate-embeddings.ts *)

Definition isFileInDirectories (filePath : string) (directories : list string) : bool :=
  let normalizedFilePath := normalize filePath in
  let normalizedDirectories := List.map normalize directories in
  existsb (fun directory => String.prefix directory normalizedFilePath)
          normalizedDirectories.

(** Modelled from the spec: [createChunkContext] of ./utils, which is not
    among the sources.  The text sent to the embedding call is a header
    serialized from the front matter and the path, then the preceding
    tail, then the chunk's own text. *)
Definition createChunkContext (chunk : string) (frontmatter : gmap string string)
    (p : string) (precedingTail : string) : string :=
  (frontmatterHeader frontmatter p ++ precedingTail ++ chunk)%string.


(** [s.slice(start)] for [0 <= start <= s.length]. *)
Definition slice (s : string) (start : nat) : string :=
  substring start (String.length s - start) s.

Section Engine.

Variable cfg : AIConfig.
Variable vault : Vault.
Variables excludeDirs publicDirs : list string.

(** Lines 150-162: the context taken from the previous section. *)
Definition previousSectionChopped (sections : list string) (i : nat) : string :=
  match charsFromPreviousParagraph cfg with
  | Some n =>
      if (0 <? i) && (0 <? n) then
        let previousSection := nth (i - 1) sections "" in
        if n <? String.length previousSection
        then slice previousSection (String.length previousSection - n)
        else ""
      else ""
  | None => ""
  end.

Definition embeddingInput (frontmatter : gmap string string) (file : TFile)
    (sections : list string) (i : nat) : string :=
  createChunkContext (nth i sections "") frontmatter (path file)
                     (previousSectionChopped sections i).

(** The body of [for (let i = 0; i < sections.length; i++)]. *)
Definition embedSection (doc : Document) (frontmatter : gmap string string)
    (file : TFile) (sections : list string) (i : nat) : Sync unit :=
  let section := nth i sections "" in
  let input := embeddingInput frontmatter file sections i in
  try_catch
    (embeddingResponse <- createEmbedding input ;;
     if negb (status embeddingResponse =? 200) then throw EmbeddingFailed
     else match json embeddingResponse with
          | None => throw TypeError
          | Some (tokens, vec) =>
              r <- supabase (A := DocumentSection)
                     (InsertSection {| document_id := doc_id doc; content := section;
                                       token_count := tokens; embedding := vec |})
                     (fun s => last (document_section s)) ;;
              match error r with
              | Some insertDocumentSectionError => throw insertDocumentSectionError
              | None => ret tt
              end
          end)
    (fun err => throw err).

Definition checksum_matches (existingDocument : option Document) (checksum : string) : bool :=
  match existingDocument with
  | Some d => match doc_checksum d with
              | Some c => String.eqb c checksum
              | None => false
              end
  | None => false
  end.

Definition count_success (r : EmbeddingResult) : EmbeddingResult :=
  {| successCount := successCount r + 1; updatedCount := updatedCount r;
     errorCount := errorCount r; deleteCount := deleteCount r |}.

Definition count_updated (r : EmbeddingResult) : EmbeddingResult :=
  {| successCount := successCount r; updatedCount := updatedCount r + 1;
     errorCount := errorCount r; deleteCount := deleteCount r |}.

Definition count_error (r : EmbeddingResult) : EmbeddingResult :=
  {| successCount := successCount r; updatedCount := updatedCount r;
     errorCount := errorCount r + 1; deleteCount := deleteCount r |}.

Definition count_delete (r : EmbeddingResult) : EmbeddingResult :=
  {| successCount := successCount r; updatedCount := updatedCount r;
     errorCount := errorCount r; deleteCount := deleteCount r + 1 |}.

(** Lines 94-108: an existing page that changed loses its sections. *)
Definition deleteExistingSections (existingDocument : option Document) : Sync unit :=
  match existingDocument with
  | Some d =>
      r <- supabase (A := unit) (DeleteSections (doc_id d)) (fun _ => None) ;;
      match error r with
      | Some deleteDocumentSectionError => throw deleteDocumentSectionError
      | None => ret tt
      end
  | None => ret tt
  end.

(** Lines 110-226: parse and chunk, upsert with a null checksum, embed and
    insert every section, then set the checksum. *)
Definition indexDocument (file : TFile) (markdown checksum : string) (isPublic : bool)
    : Sync unit :=
  let (content, frontmatter0) := parseMarkdown markdown in
  let sections :=
    smartChunkParagraphs content (minParagraphSize cfg) (maxParagraphSize cfg) in
  let frontmatter := <["path" := path file]> frontmatter0 in
  r <- supabase (UpsertDocument None (path file) frontmatter isPublic)
                (select_by_path (path file)) ;;
  match error r with
  | Some upsertPageError => throw upsertPageError
  | None =>
      match data r with
      | None => throw TypeError
      | Some doc =>
          for_each (seq 0 (length sections))
                   (embedSection doc frontmatter file sections) ;;
          r <- supabase (A := unit) (UpdateChecksum (doc_id doc) checksum)
                        (fun _ => None) ;;
          match error r with
          | Some updatePageError => throw updatePageError
          | None =>
              modify_result count_success ;;
              modify_result count_updated
          end
      end
  end.

(** Lines 44-226: what the [try] block does for one file. *)
Definition syncDocument (file : TFile) : Sync unit :=
  r <- supabase (SelectDocument (path file)) (select_by_path (path file)) ;;
  match error r with
  | Some fetchDocumentError => throw fetchDocumentError
  | None =>
      let existingDocument := data r in
      markdown <- cachedRead vault file ;;
      let checksum := sha256_base64 markdown in
      let isPublic := isFileInDirectories (path file) publicDirs in
      if checksum_matches existingDocument checksum then
        match existingDocument with
        | None => throw TypeError
        | Some d =>
            if Bool.eqb (doc_public d) isPublic then
              modify_result count_success
            else
              r <- supabase (A := unit) (UpdatePublic (doc_id d) isPublic)
                            (fun _ => None) ;;
              match error r with
              | Some updateDocumentError => throw updateDocumentError
              | None =>
                  modify_result count_success ;;
                  modify_result count_updated
              end
        end
      else
        deleteExistingSections existingDocument ;;
        indexDocument file markdown checksum isPublic
  end.

(** One turn of [for (const file of files)]: the [catch] counts an error. *)
Definition syncFile (file : TFile) : Sync unit :=
  try_catch (syncDocument file) (fun _ => modify_result count_error).

(** Lines 248-272: one turn of the loop over the stored documents. *)
Definition reconcileDocument (files : list TFile) (doc : Document) : Sync unit :=
  match List.find (fun file => String.eqb (path file) (doc_path doc)) files with
  | Some _ => ret tt
  | None =>
      r <- supabase (A := unit) (DeleteDocument (doc_path doc)) (fun _ => None) ;;
      (match error r with
       | Some deleteDocumentError => modify_result count_error
       | None => ret tt
       end) ;;
      modify_result count_delete
  end.

(** Lines 235-273. *)
Definition reconcile (files : list TFile) : Sync unit :=
  r <- supabase SelectAllDocuments (fun s => Some (document s)) ;;
  match error r with
  | Some fetchDocumentError => modify_result count_error
  | None =>
      match data r with
      | None => throw TypeError
      | Some existingDocuments =>
          for_each existingDocuments (reconcileDocument files)
      end
  end.

Definition liveFiles : list TFile :=
  List.filter (fun file => negb (isFileInDirectories (path file) excludeDirs))
              (getMarkdownFiles vault).

Definition zeroResult : EmbeddingResult :=
  {| successCount := 0; updatedCount := 0; errorCount := 0; deleteCount := 0 |}.

Definition generateEmbeddings : Sync EmbeddingResult :=
  let files := liveFiles in
  modify_result (fun _ => zeroResult) ;;
  for_each files syncFile ;;
  reconcile files ;;
  fun w => (Ok (embeddingResult w), w).

End Engine.

(** ** The requests a file asks for

    What [syncDocument] does, read off the store it starts from: the
    branch it takes and the requests it issues in order, up to the first
    one that fails. *)

Definition error_of (r : Request) : Error :=
  match r with
  | CreateEmbedding _ => EmbeddingFailed
  | _ => RequestError r
  end.

Fixpoint run_plan (rs : list Request) : Sync unit :=
  match rs with
  | [] => ret tt
  | r :: rest =>
      ok <- perform r ;;
      if ok : bool then run_plan rest else throw (error_of r)
  end.

(** How many of [n] requests in a row are served, from the one numbered
    [start] on, before one fails. *)
Fixpoint served_count (f : nat -> bool) (start n : nat) : nat :=
  match n with
  | 0 => 0
  | S n' => if f start then 0 else S (served_count f (S start) n')
  end.

(** The state once the first [k] requests of [rs] were served and the
    next one, when there is one, failed. *)
Definition ran (rs : list Request) (k : nat) (w : State) : State :=
  {| store := apply_requests (take k rs) (store w);
     log := log w ++ List.map (fun r => (r, true)) (take k rs) ++
            match rs !! k with
            | Some r => [(r, false)]
            | None => []
            end;
     embeddingResult := embeddingResult w;
     faults := faults w |}.

(** Row ids are a key of the document table, and [next_id] is above all
    of them. *)
Definition store_wf (s : Store) : Prop :=
  NoDup (List.map doc_id (document s)) /\
  Forall (fun d => doc_id d < next_id s) (document s).

(** *** The reconciliation pass, read off the stored documents *)

Definition isLive (files : list TFile) (d : Document) : bool :=
  match List.find (fun file => String.eqb (path file) (doc_path d)) files with
  | Some _ => true
  | None => false
  end.

(** The stored documents whose path no live file has, in table order. *)
Definition dangling (files : list TFile) (docs : list Document) : list Document :=
  List.filter (fun d => negb (isLive files d)) docs.

(** Whether each of [n] requests in a row is served, from the one
    numbered [start] on. *)
Definition outcomes (f : nat -> bool) (start n : nat) : list bool :=
  List.map (fun j => negb (f (start + j))) (seq 0 n).

Definition deletions (docs : list Document) (flags : list bool) : list (Request * bool) :=
  combine (List.map (fun d => DeleteDocument (doc_path d)) docs) flags.

Definition servedRequests (entries : list (Request * bool)) : list Request :=
  List.map fst (List.filter snd entries).

Definition failures (flags : list bool) : nat :=
  length (List.filter negb flags).

(** The state after the loop over [docs], started in [w]. *)
Definition reconciled (files : list TFile) (docs : list Document) (w : State) : State :=
  let gone := dangling files docs in
  let flags := outcomes (faults w) (length (log w)) (length gone) in
  let c := embeddingResult w in
  {| store := apply_requests (servedRequests (deletions gone flags)) (store w);
     log := log w ++ deletions gone flags;
     embeddingResult :=
       {| successCount := successCount c; updatedCount := updatedCount c;
          errorCount := errorCount c + failures flags;
          deleteCount := deleteCount c + length gone |};
     faults := faults w |}.

Section Plan.

Variable cfg : AIConfig.
Variable vault : Vault.
Variables excludeDirs publicDirs : list string.

Definition chunksOf (file : TFile) : list string :=
  smartChunkParagraphs (fst (parseMarkdown (fileText vault file)))
                       (minParagraphSize cfg) (maxParagraphSize cfg).

Definition metaOf (file : TFile) : gmap string string :=
  <["path" := path file]> (snd (parseMarkdown (fileText vault file))).

Definition checksumOf (file : TFile) : string :=
  sha256_base64 (fileText vault file).

Definition sectionRow (i : nat) (file : TFile) (k : nat) : DocumentSection :=
  let input := embeddingInput cfg (metaOf file) file (chunksOf file) k in
  {| document_id := i; content := nth k (chunksOf file) "";
     token_count := total_tokens input; embedding := embedding_data input |}.

Definition sectionRequests (i : nat) (file : TFile) (k : nat) : list Request :=
  [CreateEmbedding (embeddingInput cfg (metaOf file) file (chunksOf file) k);
   InsertSection (sectionRow i file k)].

Inductive Branch :=
| Skip
| Visibility (d : Document)
| Reindex (existing : option Document).

Definition branchOf (file : TFile) (s : Store) : Branch :=
  let existing := select_by_path (path file) s in
  if checksum_matches existing (checksumOf file) then
    match existing with
    | Some d =>
        if Bool.eqb (doc_public d) (isFileInDirectories (path file) publicDirs)
        then Skip else Visibility d
    | None => Skip
    end
  else Reindex existing.

(** The id of the row the upsert answers with. *)
Definition rowId (existing : option Document) (s : Store) : nat :=
  match existing with
  | Some d => doc_id d
  | None => next_id s
  end.

Definition deleteRequests (existing : option Document) : list Request :=
  match existing with
  | Some d => [DeleteSections (doc_id d)]
  | None => []
  end.

Definition indexRequests (file : TFile) (i : nat) : list Request :=
  [UpsertDocument None (path file) (metaOf file)
                  (isFileInDirectories (path file) publicDirs)] ++
  flat_map (sectionRequests i file) (seq 0 (length (chunksOf file))) ++
  [UpdateChecksum i (checksumOf file)].

Definition reindexRequests (file : TFile) (existing : option Document) (s : Store)
    : list Request :=
  deleteRequests existing ++ indexRequests file (rowId existing s).

Definition planOf (file : TFile) (s : Store) : list Request :=
  [SelectDocument (path file); CachedRead (path file)] ++
  match branchOf file s with
  | Skip => []
  | Visibility d =>
      [UpdatePublic (doc_id d) (isFileInDirectories (path file) publicDirs)]
  | Reindex existing => reindexRequests file existing s
  end.

Definition countOf (b : Branch) (r : EmbeddingResult) : EmbeddingResult :=
  match b with
  | Skip => count_success r
  | Visibility _ | Reindex _ => count_updated (count_success r)
  end.

Definition with_sections (rows : list DocumentSection) (s : Store) : Store :=
  {| document := document s;
     document_section := document_section s ++ rows;
     next_id := next_id s |}.

(** The section belongs to the document the lookup found. *)
Definition ownedBy (existing : option Document) (x : DocumentSection) : bool :=
  match existing with
  | Some d => Nat.eqb (doc_id d) (document_id x)
  | None => false
  end.

(** The store once the first [m] of [indexRequests file i] were served. *)
Definition indexed (file : TFile) (i m : nat) (s : Store) : Store :=
  if m =? 0 then s
  else
    let rows :=
      List.map (sectionRow i file) (seq 0 (min (length (chunksOf file)) ((m - 1) / 2))) in
    let s1 :=
      with_sections rows
        (upsert_document None (path file) (metaOf file)
                         (isFileInDirectories (path file) publicDirs) s) in
    if 2 * length (chunksOf file) + 2 <=? m
    then update_documents (fun d => Nat.eqb (doc_id d) i)
                          (set_checksum (Some (checksumOf file))) s1
    else s1.

(** The path a lookup, a read or an upsert is about. *)
Definition request_path (r : Request) : option string :=
  match r with
  | SelectDocument p | CachedRead p | UpsertDocument _ p _ _ => Some p
  | _ => None
  end.

(** The row of the file is current: it has the checksum of the text and
    the visibility of the path. *)
Definition upToDate (file : TFile) (s : Store) : Prop :=
  exists d,
    select_by_path (path file) s = Some d /\
    doc_checksum d = Some (checksumOf file) /\
    doc_public d = isFileInDirectories (path file) publicDirs.

(** The request rewrites or removes the row [d]. *)
Definition touches (r : Request) (d : Document) : Prop :=
  match r with
  | UpdatePublic i _ | UpdateChecksum i _ => doc_id d = i
  | UpsertDocument _ q _ _ | DeleteDocument q => doc_path d = q
  | _ => False
  end.

(** How many requests of the file's plan are served from [w], and the
    state one turn of the loop over the files ends in. *)
Definition servedOf (file : TFile) (w : State) : nat :=
  served_count (faults w) (length (log w)) (length (planOf file (store w))).

Definition afterFile (file : TFile) (w : State) : State :=
  let rs := planOf file (store w) in
  let k := servedOf file w in
  set_result
    (if k =? length rs
     then countOf (branchOf file (store w)) (embeddingResult w)
     else count_error (embeddingResult w))
    (ran rs k w).

(** The state after the loop over the files. *)
Definition afterFiles (files : list TFile) (w : State) : State :=
  fold_left (fun w file => afterFile file w) files w.

End Plan.

(** *** What a pass keeps

    Every section belongs to a stored document. *)
Definition sections_owned (s : Store) : Prop :=
  Forall (fun x => exists d, In d (document s) /\ doc_id d = document_id x)
         (document_section s).

(** Row ids and paths are keys of the document table, and no section is
    without its document. *)
Definition consistent (s : Store) : Prop :=
  store_wf s /\ NoDup (List.map doc_path (document s)) /\ sections_owned s.

Definition isEmbedding (r : Request) : bool :=
  match r with
  | CreateEmbedding _ => true
  | _ => false
  end.

(** The embedding calls among the entries of a log. *)
Definition embeddingCalls (entries : list (Request * bool)) : nat :=
  length (List.filter (fun e => isEmbedding (fst e)) entries).

(** The request reads, or sets the visibility of a row. *)
Definition isLookup (r : Request) : bool :=
  match r with
  | SelectDocument _ | CachedRead _ | UpdatePublic _ _ => true
  | _ => false
  end.

End Sync.

(** ** main.ts: the search modal *)

Module Search.

(** The providers a search can reach. *)
Inductive ProviderCall :=
| CreateModeration (input : string)
| QueryEmbedding (input : string)
| MatchDocumentSections (matchThreshold : QArith_base.Q) (matchCount minContentLength : nat)
| ChatCompletion (query : string).

Record SearchSettings := {
  matchThreshold : QArith_base.Q;
  matchCount : nat;
  minContentLength : nat
}.

Record SearchResult := {
  id : string;
  document_id : string;
  content : string;
  document_path : string;
  similarity : string
}.

(** The fields of [AISearchModal] that [getSuggestionsInternal] reads and
    writes, the provider calls made so far, the notices shown and the
    number of [updateSuggestions()] refreshes. *)
Record Modal := {
  results : list SearchResult;
  searchQuery : string;
  minLengthBeforeAutoSearch : nat;
  semanticSearchSettings : SearchSettings;
  calls : list ProviderCall;
  notices : list string;
  refreshes : nat
}.

Inductive SearchError :=
| JsError (message : string)
| ModerationUnavailable.

Definition set_results (l : list SearchResult) : M Modal SearchError unit :=
  fun m => (Ok tt,
            {| results := l; searchQuery := searchQuery m;
               minLengthBeforeAutoSearch := minLengthBeforeAutoSearch m;
               semanticSearchSettings := semanticSearchSettings m;
               calls := calls m; notices := notices m; refreshes := refreshes m |}).

Definition set_searchQuery (q : string) : M Modal SearchError unit :=
  fun m => (Ok tt,
            {| results := results m; searchQuery := q;
               minLengthBeforeAutoSearch := minLengthBeforeAutoSearch m;
               semanticSearchSettings := semanticSearchSettings m;
               calls := calls m; notices := notices m; refreshes := refreshes m |}).

Definition set_calls (l : list ProviderCall) (m : Modal) : Modal :=
  {| results := results m; searchQuery := searchQuery m;
     minLengthBeforeAutoSearch := minLengthBeforeAutoSearch m;
     semanticSearchSettings := semanticSearchSettings m;
     calls := l; notices := notices m; refreshes := refreshes m |}.

Definition newNotice (text : string) : M Modal SearchError unit :=
  fun m => (Ok tt,
            {| results := results m; searchQuery := searchQuery m;
               minLengthBeforeAutoSearch := minLengthBeforeAutoSearch m;
               semanticSearchSettings := semanticSearchSettings m;
               calls := calls m; notices := notices m ++ [text];
               refreshes := refreshes m |}).

Definition updateSuggestions : M Modal SearchError unit :=
  fun m => (Ok tt,
            {| results := results m; searchQuery := searchQuery m;
               minLengthBeforeAutoSearch := minLengthBeforeAutoSearch m;
               semanticSearchSettings := semanticSearchSettings m;
               calls := calls m; notices := notices m;
               refreshes := S (refreshes m) |}).

Section Suggestions.

(** [String.prototype.trim]. *)
Variable trim : string -> string.

(** What the moderation endpoint answers to an input: [Some flagged], or
    [None] when the request or its JSON fails. *)
Variable moderation : string -> option bool.

(** [semanticSearch] of ./search, which is not among the sources: any
    function from the query, the settings and the provider calls made so
    far to the results, or the message of the error it throws, and the
    provider calls made once it is over. *)
Variable semanticSearch :
  string -> SearchSettings -> list ProviderCall ->
  (string + list SearchResult) * list ProviderCall.

Definition createModeration (input : string) : M Modal SearchError bool :=
  fun m =>
    let m' := set_calls (calls m ++ [CreateModeration input]) m in
    match moderation input with
    | Some flagged => (Ok flagged, m')
    | None => (Throw ModerationUnavailable, m')
    end.

Definition callSemanticSearch (query : string) (settings : SearchSettings)
    : M Modal SearchError (list SearchResult) :=
  fun m =>
    let (answer, calls') := semanticSearch query settings (calls m) in
    match answer with
    | inr found => (Ok found, set_calls calls' m)
    | inl message => (Throw (JsError message), set_calls calls' m)
    end.

Definition message_of (e : SearchError) : string :=
  match e with
  | JsError message => message
  | ModerationUnavailable => "moderation unavailable"
  end.

(** Lines 522-566. *)
Definition getSuggestionsInternal (query : string) (forceDespiteLength : bool)
    : M Modal SearchError unit :=
  fun m =>
    (if negb (String.eqb (trim query) (trim (searchQuery m))) &&
        ((minLengthBeforeAutoSearch m <? String.length query) || forceDespiteLength)
     then
       set_searchQuery query ;;
       flagged <- createModeration (trim query) ;;
       if flagged : bool then
         set_results [] ;;
         updateSuggestions ;;
         throw (JsError "Flagged content")
       else
         try_catch
           (found <- callSemanticSearch query (semanticSearchSettings m) ;;
            set_results found)
           (fun err =>
              newNotice ("Error: " ++ message_of err)%string ;;
              set_results []) ;;
         updateSuggestions
     else ret tt) m.

End Suggestions.

End Search.

(** ** main.ts: the search modal, its keys and its chat *)

Module Chat.

(** The two listeners the modal puts on the [keydown] of the document. *)
Inductive Listener :=
| TriggerChatListener
| ChatSendListener.

Definition Listener_eqb (a b : Listener) : bool :=
  match a, b with
  | TriggerChatListener, TriggerChatListener => true
  | ChatSendListener, ChatSendListener => true
  | _, _ => false
  end.

Record ChatCompletionRequestMessage := {
  role : string;
  content : string
}.

Record KeyboardEvent := {
  altKey : bool;
  shiftKey : bool;
  key : string
}.

(** A message of the chat: the class of its element, and the text of
    its sender and text elements. *)
Record MessageElement := {
  className : string;
  messageSender : string;
  messageText : string
}.

(** What the modal reaches in the page: the [style.display] of the three
    elements of the prompt and of the chat container, and the [keydown]
    listeners of the document. *)
Record Dom := {
  promptInput : string;
  promptLeading : string;
  promptResults : string;
  chatContainer : string;
  keydown : list Listener
}.

(** [AISearchModal]: [suggest] holds the fields [getSuggestionsInternal]
    works on; [scheduled] the queries handed to the debounced search;
    [chatMessages] the message elements of the chat. *)
Record AISearchModal := {
  suggest : Search.Modal;
  prompt : string;
  generativeSearchSettings : Search.SearchSettings;
  searchAsYouType : bool;
  scheduled : list string;
  instructions : list (string * string);
  subheadings : list string;
  answer : string;
  backButton : string;
  placeholder : string;
  inputEl : string;
  chatInput : string;
  chatPlaceholder : string;
  chatMessages : list MessageElement;
  messageHistory : list ChatCompletionRequestMessage;
  dom : Dom
}.

Definition set_suggest (x : Search.Modal) (m : AISearchModal) : AISearchModal :=
  {| suggest := x; prompt := prompt m;
     generativeSearchSettings := generativeSearchSettings m;
     searchAsYouType := searchAsYouType m; scheduled := scheduled m;
     instructions := instructions m; subheadings := subheadings m; answer := answer m;
     backButton := backButton m; placeholder := placeholder m;
     inputEl := inputEl m; chatInput := chatInput m; chatPlaceholder := chatPlaceholder m;
     chatMessages := chatMessages m; messageHistory := messageHistory m; dom := dom m |}.

Definition set_scheduled (x : list string) (m : AISearchModal) : AISearchModal :=
  {| suggest := suggest m; prompt := prompt m;
     generativeSearchSettings := generativeSearchSettings m;
     searchAsYouType := searchAsYouType m; scheduled := x;
     instructions := instructions m; subheadings := subheadings m; answer := answer m;
     backButton := backButton m; placeholder := placeholder m;
     inputEl := inputEl m; chatInput := chatInput m; chatPlaceholder := chatPlaceholder m;
     chatMessages := chatMessages m; messageHistory := messageHistory m; dom := dom m |}.

Definition set_inputEl (x : string) (m : AISearchModal) : AISearchModal :=
  {| suggest := suggest m; prompt := prompt m;
     generativeSearchSettings := generativeSearchSettings m;
     searchAsYouType := searchAsYouType m; scheduled := scheduled m;
     instructions := instructions m; subheadings := subheadings m; answer := answer m;
     backButton := backButton m; placeholder := placeholder m;
     inputEl := x; chatInput := chatInput m; chatPlaceholder := chatPlaceholder m;
     chatMessages := chatMessages m; messageHistory := messageHistory m; dom := dom m |}.

Definition set_chatInput (x : string) (m : AISearchModal) : AISearchModal :=
  {| suggest := suggest m; prompt := prompt m;
     generativeSearchSettings := generativeSearchSettings m;
     searchAsYouType := searchAsYouType m; scheduled := scheduled m;
     instructions := instructions m; subheadings := subheadings m; answer := answer m;
     backButton := backButton m; placeholder := placeholder m;
     inputEl := inputEl m; chatInput := x; chatPlaceholder := chatPlaceholder m;
     chatMessages := chatMessages m; messageHistory := messageHistory m; dom := dom m |}.

Definition set_chatMessages (x : list MessageElement) (m : AISearchModal)
    : AISearchModal :=
  {| suggest := suggest m; prompt := prompt m;
     generativeSearchSettings := generativeSearchSettings m;
     searchAsYouType := searchAsYouType m; scheduled := scheduled m;
     instructions := instructions m; subheadings := subheadings m; answer := answer m;
     backButton := backButton m; placeholder := placeholder m;
     inputEl := inputEl m; chatInput := chatInput m; chatPlaceholder := chatPlaceholder m;
     chatMessages := x; messageHistory := messageHistory m; dom := dom m |}.

Definition set_messageHistory (x : list ChatCompletionRequestMessage) (m : AISearchModal)
    : AISearchModal :=
  {| suggest := suggest m; prompt := prompt m;
     generativeSearchSettings := generativeSearchSettings m;
     searchAsYouType := searchAsYouType m; scheduled := scheduled m;
     instructions := instructions m; subheadings := subheadings m; answer := answer m;
     backButton := backButton m; placeholder := placeholder m;
     inputEl := inputEl m; chatInput := chatInput m; chatPlaceholder := chatPlaceholder m;
     chatMessages := chatMessages m; messageHistory := x; dom := dom m |}.

Definition set_dom (x : Dom) (m : AISearchModal) : AISearchModal :=
  {| suggest := suggest m; prompt := prompt m;
     generativeSearchSettings := generativeSearchSettings m;
     searchAsYouType := searchAsYouType m; scheduled := scheduled m;
     instructions := instructions m; subheadings := subheadings m; answer := answer m;
     backButton := backButton m; placeholder := placeholder m;
     inputEl := inputEl m; chatInput := chatInput m; chatPlaceholder := chatPlaceholder m;
     chatMessages := chatMessages m; messageHistory := messageHistory m; dom := x |}.

(** [document.addEventListener("keydown", l)]: a listener that is
    already there is not added again. *)
Definition addEventListener (l : Listener) (d : Dom) : Dom :=
  {| promptInput := promptInput d; promptLeading := promptLeading d;
     promptResults := promptResults d; chatContainer := chatContainer d;
     keydown := if existsb (Listener_eqb l) (keydown d) then keydown d
                else keydown d ++ [l] |}.

Definition removeEventListener (l : Listener) (d : Dom) : Dom :=
  {| promptInput := promptInput d; promptLeading := promptLeading d;
     promptResults := promptResults d; chatContainer := chatContainer d;
     keydown := List.filter (fun l' => negb (Listener_eqb l l')) (keydown d) |}.

(** The [style.display] of the prompt's three elements and of the chat. *)
Definition set_display (prompts chat : string) (d : Dom) : Dom :=
  {| promptInput := prompts; promptLeading := prompts; promptResults := prompts;
     chatContainer := chat; keydown := keydown d |}.

(** Lines 308-467: the constructor.  The elements of the prompt have no
    [display] of their own yet, the chat container starts hidden, and the
    history starts with the system prompt. *)
Definition constructor (prompt : string)
    (semanticSearchSettings generativeSearchSettings : Search.SearchSettings)
    (searchAsYouType : bool) (minLengthBeforeAutoSearch : nat) : AISearchModal :=
  {| suggest :=
       {| Search.results := [];
          Search.searchQuery := "";
          Search.minLengthBeforeAutoSearch := minLengthBeforeAutoSearch;
          Search.semanticSearchSettings := semanticSearchSettings;
          Search.calls := [];
          Search.notices := [];
          Search.refreshes := 0 |};
     prompt := prompt;
     generativeSearchSettings := generativeSearchSettings;
     searchAsYouType := searchAsYouType;
     scheduled := [];
     instructions :=
       [("↑↓", "to navigate"); ("↵", "to open"); ("Alt ↵", "to search");
        ("shift ↵", "to ask LLM"); ("esc", "to dismiss")];
     subheadings := ["Answer box"; "Search Results"];
     answer := "press alt ↵ to search or shift ↵ to generate answer";
     backButton := "←";
     placeholder := "Enter query to ✨ AI ✨ search...";
     inputEl := "";
     chatInput := "";
     chatPlaceholder := "Type your message...";
     chatMessages := [];
     messageHistory := [{| role := "system"; content := prompt |}];
     dom :=
       {| promptInput := ""; promptLeading := ""; promptResults := "";
          chatContainer := "none"; keydown := [] |} |}.

(** Lines 396-416: the listener of the back button.  It also asks the
    document to drop it from its [click] listeners, where it never was. *)
Definition backButtonListener (m : AISearchModal) : AISearchModal :=
  set_dom
    (addEventListener TriggerChatListener
       (removeEventListener ChatSendListener (set_display "block" "none" (dom m))))
    m.

(** Lines 420-436. *)
Definition addMessage (sender text : string) (m : AISearchModal) : AISearchModal :=
  set_chatMessages
    (chatMessages m ++
     [{| className := ("message " ++ sender)%string;
         messageSender := (sender ++ ":")%string;
         messageText := text |}]) m.

(** Lines 475-503: what [shift + Enter] does in the search view. *)
Definition enterChat (m : AISearchModal) : AISearchModal :=
  set_dom
    (addEventListener ChatSendListener
       (removeEventListener TriggerChatListener (set_display "none" "block" (dom m))))
    (set_chatInput (inputEl m) m).

(** Lines 469-507 and 509-512. *)
Definition onOpen (m : AISearchModal) : AISearchModal :=
  set_dom (addEventListener TriggerChatListener (dom m)) m.

Definition onClose (m : AISearchModal) : AISearchModal :=
  set_dom (removeEventListener TriggerChatListener
             (removeEventListener ChatSendListener (dom m))) m.

(** Lines 514-519. *)
Definition getSuggestions (query : string) (m : AISearchModal)
    : list Search.SearchResult * AISearchModal :=
  (Search.results (suggest m),
   if searchAsYouType m then set_scheduled (scheduled m ++ [query]) m else m).

Section Keys.

Variable trim : string -> string.
Variable moderation : string -> option bool.
Variable semanticSearch :
  string -> Search.SearchSettings -> list Search.ProviderCall ->
  (string + list Search.SearchResult) * list Search.ProviderCall.

(** [generativeSearch] of ./search, which is not among the sources: any
    function from the message, the history, the settings and the
    provider calls made so far to the answer, or the message of the error
    it throws, the history as the call leaves it, and the provider calls
    made once it is over. *)
Variable generativeSearch :
  string -> list ChatCompletionRequestMessage -> Search.SearchSettings ->
  list Search.ProviderCall ->
  (string + string) * list ChatCompletionRequestMessage * list Search.ProviderCall.

(** [this.getSuggestionsInternal(query, forceDespiteLength)] *)
Definition getSuggestionsInternal (query : string) (forceDespiteLength : bool)
    : M AISearchModal Search.SearchError unit :=
  fun m =>
    let (outcome, s) :=
      Search.getSuggestionsInternal trim moderation semanticSearch query
                                    forceDespiteLength (suggest m) in
    (outcome, set_suggest s m).

Definition isEnter (event : KeyboardEvent) : bool := String.eqb (key event) "Enter".

(** Lines 470-504.  The search is started and not awaited: what it
    throws is not caught by the listener. *)
Definition triggerChatListener (event : KeyboardEvent)
    : M AISearchModal Search.SearchError unit :=
  fun m =>
    let m1 :=
      if altKey event && isEnter event
      then snd (getSuggestionsInternal (inputEl m) true m)
      else m in
    (Ok tt, if shiftKey event && isEnter event then enterChat m1 else m1).

(** Lines 442-463. *)
Definition chatSendListener (event : KeyboardEvent)
    : M AISearchModal Search.SearchError unit :=
  fun m =>
    if shiftKey event && isEnter event then
      let message := trim (chatInput m) in
      if negb (String.eqb message "") then
        let m1 := set_chatInput "" (addMessage "you" message m) in
        match generativeSearch message (messageHistory m1) (generativeSearchSettings m1)
                               (Search.calls (suggest m1)) with
        | (inr res, history, calls) =>
            let m2 :=
              set_messageHistory history
                (set_suggest (Search.set_calls calls (suggest m1)) m1) in
            (Ok tt,
             set_messageHistory
               (messageHistory m2 ++ [{| role := "assistant"; content := res |}])
               (addMessage "assistant" res m2))
        | (inl message', history, calls) =>
            (Throw (Search.JsError message'),
             set_messageHistory history
               (set_suggest (Search.set_calls calls (suggest m1)) m1))
        end
      else (Ok tt, m)
    else (Ok tt, m).

Definition listen (l : Listener) (event : KeyboardEvent)
    : M AISearchModal Search.SearchError unit :=
  match l with
  | TriggerChatListener => triggerChatListener event
  | ChatSendListener => chatSendListener event
  end.

(** A [keydown] reaches the listeners that were on the document when it
    was dispatched, in order, but those removed meanwhile; what an
    [async] listener throws is lost. *)
Fixpoint dispatch (ls : list Listener) (event : KeyboardEvent) (m : AISearchModal)
    : AISearchModal :=
  match ls with
  | [] => m
  | l :: rest =>
      dispatch rest event
        (if existsb (Listener_eqb l) (keydown (dom m))
         then snd (listen l event m) else m)
  end.

Definition onKeydown (event : KeyboardEvent) (m : AISearchModal) : AISearchModal :=
  dispatch (keydown (dom m)) event m.

(** What the user does with an open modal. *)
Inductive Action :=
| TypeQuery (text : string)
| TypeChat (text : string)
| Keydown (event : KeyboardEvent)
| Back.

Definition act (a : Action) (m : AISearchModal) : AISearchModal :=
  match a with
  | TypeQuery text => snd (getSuggestions text (set_inputEl text m))
  | TypeChat text => set_chatInput text m
  | Keydown event => onKeydown event m
  | Back => backButtonListener m
  end.

Definition acts (l : list Action) (m : AISearchModal) : AISearchModal :=
  fold_left (fun m a => act a m) l m.

End Keys.

(** The two views of the modal: the search, with its prompt shown and
    the listener of the search keys on the document, and the chat, with
    the prompt hidden and the listener that sends a message. *)
Definition searchView (d : Dom) : Prop :=
  keydown d = [TriggerChatListener] /\ chatContainer d = "none" /\
  promptInput d <> "none" /\ promptLeading d <> "none" /\ promptResults d <> "none".

Definition chatView (d : Dom) : Prop :=
  keydown d = [ChatSendListener] /\ chatContainer d = "block" /\
  promptInput d = "none" /\ promptLeading d = "none" /\ promptResults d = "none".

End Chat.

(** ** main.ts: the plugin, its settings and its commands *)

(** [s.split(sep)] for a separator of one character: the pieces between
    the separators, one more than there are separators. *)
Fixpoint split_string (sep : ascii) (s : string) : list string :=
  match s with
  | EmptyString => [EmptyString]
  | String c rest =>
      if Ascii.eqb c sep then EmptyString :: split_string sep rest
      else match split_string sep rest with
           | piece :: pieces => String c piece :: pieces
           | [] => [String c EmptyString]
           end
  end.

(** [pieces.join(sep)] *)
Fixpoint join_strings (sep : ascii) (pieces : list string) : string :=
  match pieces with
  | [] => EmptyString
  | [piece] => piece
  | piece :: rest => (piece ++ String sep (join_strings sep rest))%string
  end.

(** How often [sep] occurs in [s]. *)
Fixpoint occurrences (sep : ascii) (s : string) : nat :=
  match s with
  | EmptyString => 0
  | String c rest => (if Ascii.eqb c sep then 1 else 0) + occurrences sep rest
  end.

Module Plugin.

Record ObsidianAISettings := {
  supabaseUrl : string;
  supabaseKey : string;
  openaiKey : string;
  indexOnOpen : bool;
  embeddingModel : string;
  chatModel : string;
  charsFromPreviousParagraph : option nat;
  minParagraphSize : nat;
  maxParagraphSize : nat;
  searchAsYouType : bool;
  minLengthBeforeAutoSearch : nat;
  excludedDirs : string;
  excludedDirsList : list string;
  publicDirs : string;
  publicDirsList : list string;
  prompt : string;
  semanticSearch : Search.SearchSettings;
  generativeSearch : Search.SearchSettings
}.

Definition with_supabaseUrl (x : string) (s : ObsidianAISettings)
    : ObsidianAISettings :=
  {| supabaseUrl := x; supabaseKey := supabaseKey s; openaiKey := openaiKey s;
     indexOnOpen := indexOnOpen s; embeddingModel := embeddingModel s;
     chatModel := chatModel s;
     charsFromPreviousParagraph := charsFromPreviousParagraph s;
     minParagraphSize := minParagraphSize s; maxParagraphSize := maxParagraphSize s;
     searchAsYouType := searchAsYouType s;
     minLengthBeforeAutoSearch := minLengthBeforeAutoSearch s;
     excludedDirs := excludedDirs s; excludedDirsList := excludedDirsList s;
     publicDirs := publicDirs s; publicDirsList := publicDirsList s;
     prompt := prompt s; semanticSearch := semanticSearch s;
     generativeSearch := generativeSearch s |}.

Definition with_supabaseKey (x : string) (s : ObsidianAISettings)
    : ObsidianAISettings :=
  {| supabaseUrl := supabaseUrl s; supabaseKey := x; openaiKey := openaiKey s;
     indexOnOpen := indexOnOpen s; embeddingModel := embeddingModel s;
     chatModel := chatModel s;
     charsFromPreviousParagraph := charsFromPreviousParagraph s;
     minParagraphSize := minParagraphSize s; maxParagraphSize := maxParagraphSize s;
     searchAsYouType := searchAsYouType s;
     minLengthBeforeAutoSearch := minLengthBeforeAutoSearch s;
     excludedDirs := excludedDirs s; excludedDirsList := excludedDirsList s;
     publicDirs := publicDirs s; publicDirsList := publicDirsList s;
     prompt := prompt s; semanticSearch := semanticSearch s;
     generativeSearch := generativeSearch s |}.

Definition with_openaiKey (x : string) (s : ObsidianAISettings)
    : ObsidianAISettings :=
  {| supabaseUrl := supabaseUrl s; supabaseKey := supabaseKey s; openaiKey := x;
     indexOnOpen := indexOnOpen s; embeddingModel := embeddingModel s;
     chatModel := chatModel s;
     charsFromPreviousParagraph := charsFromPreviousParagraph s;
     minParagraphSize := minParagraphSize s; maxParagraphSize := maxParagraphSize s;
     searchAsYouType := searchAsYouType s;
     minLengthBeforeAutoSearch := minLengthBeforeAutoSearch s;
     excludedDirs := excludedDirs s; excludedDirsList := excludedDirsList s;
     publicDirs := publicDirs s; publicDirsList := publicDirsList s;
     prompt := prompt s; semanticSearch := semanticSearch s;
     generativeSearch := generativeSearch s |}.

Definition with_indexOnOpen (x : bool) (s : ObsidianAISettings)
    : ObsidianAISettings :=
  {| supabaseUrl := supabaseUrl s; supabaseKey := supabaseKey s;
     openaiKey := openaiKey s; indexOnOpen := x; embeddingModel := embeddingModel s;
     chatModel := chatModel s;
     charsFromPreviousParagraph := charsFromPreviousParagraph s;
     minParagraphSize := minParagraphSize s; maxParagraphSize := maxParagraphSize s;
     searchAsYouType := searchAsYouType s;
     minLengthBeforeAutoSearch := minLengthBeforeAutoSearch s;
     excludedDirs := excludedDirs s; excludedDirsList := excludedDirsList s;
     publicDirs := publicDirs s; publicDirsList := publicDirsList s;
     prompt := prompt s; semanticSearch := semanticSearch s;
     generativeSearch := generativeSearch s |}.

Definition with_searchAsYouType (x : bool) (s : ObsidianAISettings)
    : ObsidianAISettings :=
  {| supabaseUrl := supabaseUrl s; supabaseKey := supabaseKey s;
     openaiKey := openaiKey s; indexOnOpen := indexOnOpen s;
     embeddingModel := embeddingModel s; chatModel := chatModel s;
     charsFromPreviousParagraph := charsFromPreviousParagraph s;
     minParagraphSize := minParagraphSize s; maxParagraphSize := maxParagraphSize s;
     searchAsYouType := x; minLengthBeforeAutoSearch := minLengthBeforeAutoSearch s;
     excludedDirs := excludedDirs s; excludedDirsList := excludedDirsList s;
     publicDirs := publicDirs s; publicDirsList := publicDirsList s;
     prompt := prompt s; semanticSearch := semanticSearch s;
     generativeSearch := generativeSearch s |}.

Definition with_excludedDirs (x : string) (l : list string) (s : ObsidianAISettings)
    : ObsidianAISettings :=
  {| supabaseUrl := supabaseUrl s; supabaseKey := supabaseKey s;
     openaiKey := openaiKey s; indexOnOpen := indexOnOpen s;
     embeddingModel := embeddingModel s; chatModel := chatModel s;
     charsFromPreviousParagraph := charsFromPreviousParagraph s;
     minParagraphSize := minParagraphSize s; maxParagraphSize := maxParagraphSize s;
     searchAsYouType := searchAsYouType s;
     minLengthBeforeAutoSearch := minLengthBeforeAutoSearch s; excludedDirs := x;
     excludedDirsList := l; publicDirs := publicDirs s;
     publicDirsList := publicDirsList s; prompt := prompt s;
     semanticSearch := semanticSearch s; generativeSearch := generativeSearch s |}.

Definition with_publicDirs (x : string) (l : list string) (s : ObsidianAISettings)
    : ObsidianAISettings :=
  {| supabaseUrl := supabaseUrl s; supabaseKey := supabaseKey s;
     openaiKey := openaiKey s; indexOnOpen := indexOnOpen s;
     embeddingModel := embeddingModel s; chatModel := chatModel s;
     charsFromPreviousParagraph := charsFromPreviousParagraph s;
     minParagraphSize := minParagraphSize s; maxParagraphSize := maxParagraphSize s;
     searchAsYouType := searchAsYouType s;
     minLengthBeforeAutoSearch := minLengthBeforeAutoSearch s;
     excludedDirs := excludedDirs s; excludedDirsList := excludedDirsList s;
     publicDirs := x; publicDirsList := l; prompt := prompt s;
     semanticSearch := semanticSearch s; generativeSearch := generativeSearch s |}.

Definition with_prompt (x : string) (s : ObsidianAISettings)
    : ObsidianAISettings :=
  {| supabaseUrl := supabaseUrl s; supabaseKey := supabaseKey s;
     openaiKey := openaiKey s; indexOnOpen := indexOnOpen s;
     embeddingModel := embeddingModel s; chatModel := chatModel s;
     charsFromPreviousParagraph := charsFromPreviousParagraph s;
     minParagraphSize := minParagraphSize s; maxParagraphSize := maxParagraphSize s;
     searchAsYouType := searchAsYouType s;
     minLengthBeforeAutoSearch := minLengthBeforeAutoSearch s;
     excludedDirs := excludedDirs s; excludedDirsList := excludedDirsList s;
     publicDirs := publicDirs s; publicDirsList := publicDirsList s; prompt := x;
     semanticSearch := semanticSearch s; generativeSearch := generativeSearch s |}.

Definition with_semanticSearch (x : Search.SearchSettings) (s : ObsidianAISettings)
    : ObsidianAISettings :=
  {| supabaseUrl := supabaseUrl s; supabaseKey := supabaseKey s;
     openaiKey := openaiKey s; indexOnOpen := indexOnOpen s;
     embeddingModel := embeddingModel s; chatModel := chatModel s;
     charsFromPreviousParagraph := charsFromPreviousParagraph s;
     minParagraphSize := minParagraphSize s; maxParagraphSize := maxParagraphSize s;
     searchAsYouType := searchAsYouType s;
     minLengthBeforeAutoSearch := minLengthBeforeAutoSearch s;
     excludedDirs := excludedDirs s; excludedDirsList := excludedDirsList s;
     publicDirs := publicDirs s; publicDirsList := publicDirsList s;
     prompt := prompt s; semanticSearch := x;
     generativeSearch := generativeSearch s |}.

Definition with_generativeSearch (x : Search.SearchSettings) (s : ObsidianAISettings)
    : ObsidianAISettings :=
  {| supabaseUrl := supabaseUrl s; supabaseKey := supabaseKey s;
     openaiKey := openaiKey s; indexOnOpen := indexOnOpen s;
     embeddingModel := embeddingModel s; chatModel := chatModel s;
     charsFromPreviousParagraph := charsFromPreviousParagraph s;
     minParagraphSize := minParagraphSize s; maxParagraphSize := maxParagraphSize s;
     searchAsYouType := searchAsYouType s;
     minLengthBeforeAutoSearch := minLengthBeforeAutoSearch s;
     excludedDirs := excludedDirs s; excludedDirsList := excludedDirsList s;
     publicDirs := publicDirs s; publicDirsList := publicDirsList s;
     prompt := prompt s; semanticSearch := semanticSearch s; generativeSearch := x |}.

(** What [loadData()] gives: the object of data.json, which has a value
    for some of the keys; [saveData] writes no key for [undefined].  The
    numbers of the settings are finite here, the counts natural numbers:
    [JSON.stringify] writes such a number as it is. *)
Module Data.

Record t := {
  supabaseUrl : option string;
  supabaseKey : option string;
  openaiKey : option string;
  indexOnOpen : option bool;
  embeddingModel : option string;
  chatModel : option string;
  charsFromPreviousParagraph : option nat;
  minParagraphSize : option nat;
  maxParagraphSize : option nat;
  searchAsYouType : option bool;
  minLengthBeforeAutoSearch : option nat;
  excludedDirs : option string;
  excludedDirsList : option (list string);
  publicDirs : option string;
  publicDirsList : option (list string);
  prompt : option string;
  semanticSearch : option Search.SearchSettings;
  generativeSearch : option Search.SearchSettings
}.

End Data.

(** [JSON.stringify(settings)], as [saveData] writes it. *)
Definition toData (s : ObsidianAISettings) : Data.t :=
  {| Data.supabaseUrl := Some (supabaseUrl s);
     Data.supabaseKey := Some (supabaseKey s);
     Data.openaiKey := Some (openaiKey s);
     Data.indexOnOpen := Some (indexOnOpen s);
     Data.embeddingModel := Some (embeddingModel s);
     Data.chatModel := Some (chatModel s);
     Data.charsFromPreviousParagraph := charsFromPreviousParagraph s;
     Data.minParagraphSize := Some (minParagraphSize s);
     Data.maxParagraphSize := Some (maxParagraphSize s);
     Data.searchAsYouType := Some (searchAsYouType s);
     Data.minLengthBeforeAutoSearch := Some (minLengthBeforeAutoSearch s);
     Data.excludedDirs := Some (excludedDirs s);
     Data.excludedDirsList := Some (excludedDirsList s);
     Data.publicDirs := Some (publicDirs s);
     Data.publicDirsList := Some (publicDirsList s);
     Data.prompt := Some (prompt s);
     Data.semanticSearch := Some (semanticSearch s);
     Data.generativeSearch := Some (generativeSearch s) |}.

(** [Object.assign({}, s, d)]: a key of [d] wins, key by key; the
    values are not merged. *)
Definition assign (s : ObsidianAISettings) (d : Data.t) : ObsidianAISettings :=
  {| supabaseUrl := default (supabaseUrl s) (Data.supabaseUrl d);
     supabaseKey := default (supabaseKey s) (Data.supabaseKey d);
     openaiKey := default (openaiKey s) (Data.openaiKey d);
     indexOnOpen := default (indexOnOpen s) (Data.indexOnOpen d);
     embeddingModel := default (embeddingModel s) (Data.embeddingModel d);
     chatModel := default (chatModel s) (Data.chatModel d);
     charsFromPreviousParagraph :=
       match Data.charsFromPreviousParagraph d with
       | Some x => Some x
       | None => charsFromPreviousParagraph s
       end;
     minParagraphSize := default (minParagraphSize s) (Data.minParagraphSize d);
     maxParagraphSize := default (maxParagraphSize s) (Data.maxParagraphSize d);
     searchAsYouType := default (searchAsYouType s) (Data.searchAsYouType d);
     minLengthBeforeAutoSearch := default (minLengthBeforeAutoSearch s) (Data.minLengthBeforeAutoSearch d);
     excludedDirs := default (excludedDirs s) (Data.excludedDirs d);
     excludedDirsList := default (excludedDirsList s) (Data.excludedDirsList d);
     publicDirs := default (publicDirs s) (Data.publicDirs d);
     publicDirsList := default (publicDirsList s) (Data.publicDirsList d);
     prompt := default (prompt s) (Data.prompt d);
     semanticSearch := default (semanticSearch s) (Data.semanticSearch d);
     generativeSearch := default (generativeSearch s) (Data.generativeSearch d) |}.

(** A client of supabase-js, and [new OpenAIApi(new Configuration({
    apiKey }))] of openai-edge, whose constructors only store what they
    are given. *)
Record SupabaseClient := {
  clientUrl : string;
  clientKey : string
}.

Record OpenAIApi := {
  apiKey : string
}.

Record Command := {
  command_id : string;
  command_name : string
}.

Definition with_matchThreshold (x : QArith_base.Q) (s : Search.SearchSettings)
    : Search.SearchSettings :=
  {| Search.matchThreshold := x; Search.matchCount := Search.matchCount s;
     Search.minContentLength := Search.minContentLength s |}.

Definition with_matchCount (x : nat) (s : Search.SearchSettings) : Search.SearchSettings :=
  {| Search.matchThreshold := Search.matchThreshold s; Search.matchCount := x;
     Search.minContentLength := Search.minContentLength s |}.

Definition with_minContentLength (x : nat) (s : Search.SearchSettings)
    : Search.SearchSettings :=
  {| Search.matchThreshold := Search.matchThreshold s;
     Search.matchCount := Search.matchCount s; Search.minContentLength := x |}.

Definition newline : string := String (Ascii.ascii_of_nat 10) EmptyString.
Definition tab : string := String (Ascii.ascii_of_nat 9) EmptyString.
Definition quote : string := String (Ascii.ascii_of_nat 34) EmptyString.

(** The text between the backquotes of lines 84-89. *)
Definition promptTemplate : string :=
  ("You are an AI assistant that answers in two clear parts." ++ newline ++
   tab ++ newline ++
   tab ++ "First, provide a brief answer using ONLY information from the provided context. If you cannot find the answer, say "
       ++ quote ++ "I cannot find this in the available information." ++ quote ++ newline ++
   tab ++ "Then, if relevant, add a short " ++ quote ++ "Additional Context:" ++ quote
       ++ " section with helpful supplemental knowledge." ++ newline ++
   newline ++
   tab ++ "Keep all responses concise and to the point.")%string.

Section Main.

Context {Vector : Type} `{C : Collaborators Vector}.

(** [this.app.vault] *)
Variable vault : Vault.

(** [String.prototype.trim] and the [oneLine] tag of common-tags. *)
Variable trim : string -> string.
Variable oneLine : string -> string.

(** [parseInt(value)], where [None] is NaN; [parseFloat(value)], read
    only where [parseInt] is not NaN; [Number.prototype.toString] of a
    threshold.  The counts of [SearchSettings] are natural numbers. *)
Variable parseInt : string -> option nat.
Variable parseFloat : string -> QArith_base.Q.
Variable numberToString : QArith_base.Q -> string.

(** [createClient(url, key, { auth: { persistSession: false,
    autoRefreshToken: false } })] of supabase-js: the client, or the
    message of the error it throws, as it does for a url that is none. *)
Variable createClient : string -> string -> Outcome string SupabaseClient.

(** Lines 64-102.  [config] of config.ts gives the models and the sizes;
    it has no [charsFromPreviousParagraph]. *)
Definition DEFAULT_SETTINGS : ObsidianAISettings :=
  let '(Build_AIConfig configEmbeddingModel configChatModel configMinParagraphSize
          configMaxParagraphSize configMinLengthBeforeAutoSearch
          configCharsFromPreviousParagraph) := config in
  {| supabaseUrl := "";
     supabaseKey := "";
     openaiKey := "";
     indexOnOpen := false;
     embeddingModel := configEmbeddingModel;
     chatModel := configChatModel;
     charsFromPreviousParagraph := configCharsFromPreviousParagraph;
     minParagraphSize := configMinParagraphSize;
     maxParagraphSize := configMaxParagraphSize;
     searchAsYouType := false;
     minLengthBeforeAutoSearch := configMinLengthBeforeAutoSearch;
     excludedDirs := "";
     excludedDirsList := [];
     publicDirs := "";
     publicDirsList := [];
     prompt := oneLine promptTemplate;
     semanticSearch :=
       {| Search.matchThreshold := QArith_base.Qmake 3 10;
          Search.matchCount := 10;
          Search.minContentLength := 10 |};
     generativeSearch :=
       {| Search.matchThreshold := QArith_base.Qmake 3 10;
          Search.matchCount := 10;
          Search.minContentLength := 10 |} |}.

(** [ObsidianAIPlugin]: its fields, the text of the status bar item, the
    content of data.json, the notices shown, the commands added, whether
    the indexing waits for the layout, the modal a command opened, and
    [backend], the state the sync engine runs in.  A client that is
    [None] is [null], or the [undefined] of a field that no setup has
    written yet; the two differ for [!== null] only, which is asked by
    the callbacks that [onload] registers after both setups. *)
Record Plugin := {
  settings : ObsidianAISettings;
  supabaseClient : option SupabaseClient;
  openai : option OpenAIApi;
  statusBarItemEl : string;
  dataFile : option Data.t;
  notices : list string;
  commands : list Command;
  whenLayoutReady : bool;
  modal : option Chat.AISearchModal;
  backend : @State Vector
}.

Definition set_settings (x : ObsidianAISettings) (p : Plugin) : Plugin :=
  {| settings := x; supabaseClient := supabaseClient p; openai := openai p;
     statusBarItemEl := statusBarItemEl p; dataFile := dataFile p; notices := notices p;
     commands := commands p; whenLayoutReady := whenLayoutReady p; modal := modal p;
     backend := backend p |}.

Definition set_supabaseClient (x : option SupabaseClient) (p : Plugin) : Plugin :=
  {| settings := settings p; supabaseClient := x; openai := openai p;
     statusBarItemEl := statusBarItemEl p; dataFile := dataFile p; notices := notices p;
     commands := commands p; whenLayoutReady := whenLayoutReady p; modal := modal p;
     backend := backend p |}.

Definition set_openai (x : option OpenAIApi) (p : Plugin) : Plugin :=
  {| settings := settings p; supabaseClient := supabaseClient p; openai := x;
     statusBarItemEl := statusBarItemEl p; dataFile := dataFile p; notices := notices p;
     commands := commands p; whenLayoutReady := whenLayoutReady p; modal := modal p;
     backend := backend p |}.

(** [this.statusBarItemEl.setText(text)] *)
Definition setText (text : string) (p : Plugin) : Plugin :=
  {| settings := settings p; supabaseClient := supabaseClient p; openai := openai p;
     statusBarItemEl := text; dataFile := dataFile p; notices := notices p;
     commands := commands p; whenLayoutReady := whenLayoutReady p; modal := modal p;
     backend := backend p |}.

Definition set_dataFile (x : option Data.t) (p : Plugin) : Plugin :=
  {| settings := settings p; supabaseClient := supabaseClient p; openai := openai p;
     statusBarItemEl := statusBarItemEl p; dataFile := x; notices := notices p;
     commands := commands p; whenLayoutReady := whenLayoutReady p; modal := modal p;
     backend := backend p |}.

(** [new Notice(text)] *)
Definition newNotice (text : string) (p : Plugin) : Plugin :=
  {| settings := settings p; supabaseClient := supabaseClient p; openai := openai p;
     statusBarItemEl := statusBarItemEl p; dataFile := dataFile p;
     notices := notices p ++ [text];
     commands := commands p; whenLayoutReady := whenLayoutReady p; modal := modal p;
     backend := backend p |}.

Definition set_modal (x : option Chat.AISearchModal) (p : Plugin) : Plugin :=
  {| settings := settings p; supabaseClient := supabaseClient p; openai := openai p;
     statusBarItemEl := statusBarItemEl p; dataFile := dataFile p; notices := notices p;
     commands := commands p; whenLayoutReady := whenLayoutReady p; modal := x;
     backend := backend p |}.

Definition set_backend (x : @State Vector) (p : Plugin) : Plugin :=
  {| settings := settings p; supabaseClient := supabaseClient p; openai := openai p;
     statusBarItemEl := statusBarItemEl p; dataFile := dataFile p; notices := notices p;
     commands := commands p; whenLayoutReady := whenLayoutReady p; modal := modal p;
     backend := x |}.

(** [this.supabaseClient && this.openai] *)
Definition hasClients (p : Plugin) : bool :=
  match supabaseClient p, openai p with
  | Some _, Some _ => true
  | _, _ => false
  end.

(** Lines 130-134 and 146-150. *)
Definition reportClients (p : Plugin) : Plugin :=
  if negb (hasClients p) then setText "❓[AI] Missing API variables" p
  else setText "✨ [AI] Ready" p.

(** Lines 110-135.  When [createClient] throws, the client is [null]
    already and the status bar is not written. *)
Definition setupSupabase : M Plugin string unit :=
  fun p =>
    let p0 := set_supabaseClient None p in
    if negb (String.eqb (supabaseUrl (settings p0)) "" ||
             String.eqb (supabaseKey (settings p0)) "")
    then
      match createClient (supabaseUrl (settings p0)) (supabaseKey (settings p0)) with
      | Ok client => (Ok tt, reportClients (set_supabaseClient (Some client) p0))
      | Throw e => (Throw e, p0)
      end
    else (Ok tt, reportClients p0).

(** Lines 137-151. *)
Definition setupOpenai (p : Plugin) : Plugin :=
  let p0 := set_openai None p in
  let p1 :=
    if negb (String.eqb (openaiKey (settings p0)) "")
    then set_openai (Some {| apiKey := openaiKey (settings p0) |}) p0
    else p0 in
  reportClients p1.

(** Lines 259-269. *)
Definition loadSettings (p : Plugin) : Plugin :=
  set_settings
    (match dataFile p with
     | Some d => assign DEFAULT_SETTINGS d
     | None => DEFAULT_SETTINGS
     end) p.

Definition saveSettings (p : Plugin) : Plugin :=
  set_dataFile (Some (toData (settings p))) p.

(** Lines 179-191 and 234-246: what is done with the result of a pass. *)
Definition report (result : EmbeddingResult) (p : Plugin) : Plugin :=
  if errorCount result =? 0 then
    newNotice
      ("Successfully indexed " ++ pretty (successCount result) ++ " documents with "
       ++ pretty (updatedCount result) ++ " updates! Removed "
       ++ pretty (deleteCount result) ++ " deleted documents.")%string
      (setText "✨ [AI] Loaded" p)
  else
    newNotice
      ("There were " ++ pretty (errorCount result)
       ++ " errors! View developer console for more information.")%string
      (setText "😔 [AI] Error" p).

(** Lines 173-191 and 228-246: the status, a pass with the [config] of
    config.ts and the directory lists of the settings, and the report
    once its promise is fulfilled. *)
Definition index (p : Plugin) : Plugin :=
  let p1 := setText "🔮 [AI] Indexing..." p in
  match generateEmbeddings config vault (excludedDirsList (settings p1))
                           (publicDirsList (settings p1)) (backend p1) with
  | (Ok result, w) => report result (set_backend w p1)
  | (Throw _, w) => set_backend w p1
  end.

(** Lines 153-255: [onload], from the content of data.json and the state
    of the backend.  The settings are loaded and the status bar item and
    the settings tab are added before the clients are set up; what
    [setupSupabase] throws ends [onload] there. *)
Definition onload (saved : option Data.t) (w : @State Vector)
    : Outcome string unit * Plugin :=
  let p0 :=
    loadSettings
      {| settings := DEFAULT_SETTINGS; supabaseClient := None; openai := None;
         statusBarItemEl := ""; dataFile := saved; notices := []; commands := [];
         whenLayoutReady := false; modal := None; backend := w |} in
  match setupSupabase p0 with
  | (Throw e, p1) => (Throw e, p1)
  | (Ok _, p1) =>
      let p2 := setupOpenai p1 in
      (Ok tt,
       {| settings := settings p2; supabaseClient := supabaseClient p2;
          openai := openai p2; statusBarItemEl := statusBarItemEl p2;
          dataFile := dataFile p2; notices := notices p2;
          commands :=
            [{| command_id := "ali-ai-search"; command_name := "Ali AI Search" |};
             {| command_id := "refresh-embedding"; command_name := "Refresh Index" |}];
          whenLayoutReady := indexOnOpen (settings p2) && hasClients p2;
          modal := modal p2; backend := backend p2 |})
  end.

(** Lines 171-193: the callback given to [onLayoutReady]. *)
Definition onLayoutReady (p : Plugin) : Plugin :=
  if whenLayoutReady p then
    if hasClients p then index p else p
  else p.

(** Lines 200-219: the [checkCallback] of "Ali AI Search". *)
Definition searchCommand (checking : bool) (p : Plugin) : bool * Plugin :=
  if hasClients p then
    (true,
     if negb checking then
       set_modal
         (Some (Chat.onOpen
                  (Chat.constructor (prompt (settings p)) (semanticSearch (settings p))
                     (generativeSearch (settings p)) (searchAsYouType (settings p))
                     (minLengthBeforeAutoSearch (settings p))))) p
     else p)
  else (false, p).

(** Lines 225-253: the [checkCallback] of "Refresh Index". *)
Definition refreshCommand (checking : bool) (p : Plugin) : bool * Plugin :=
  if hasClients p then (true, if negb checking then index p else p)
  else (false, p).

(** *** The settings tab *)

(** Lines 628-634 and 646-652. *)
Definition onExcludedDirs (value : string) (p : Plugin) : Plugin :=
  saveSettings
    (set_settings
       (with_excludedDirs value (List.map trim (split_string "," value)) (settings p)) p).

Definition onPublicDirs (value : string) (p : Plugin) : Plugin :=
  saveSettings
    (set_settings
       (with_publicDirs value (List.map trim (split_string "," value)) (settings p)) p).

(** Lines 664-667. *)
Definition onPrompt (value : string) (p : Plugin) : Plugin :=
  saveSettings (set_settings (with_prompt (oneLine value) (settings p)) p).

(** Lines 676-679 and 775-778. *)
Definition onIndexOnOpen (value : bool) (p : Plugin) : Plugin :=
  saveSettings (set_settings (with_indexOnOpen value (settings p)) p).

Definition onSearchAsYouType (value : bool) (p : Plugin) : Plugin :=
  saveSettings (set_settings (with_searchAsYouType value (settings p)) p).

(** Lines 691-695, 704-708 and 715-719.  The handlers are [async]: what
    [setupSupabase] throws rejects a promise that nobody awaits. *)
Definition onSupabaseUrl (value : string) (p : Plugin) : Plugin :=
  snd (setupSupabase
         (saveSettings (set_settings (with_supabaseUrl value (settings p)) p))).

Definition onSupabaseKey (value : string) (p : Plugin) : Plugin :=
  snd (setupSupabase
         (saveSettings (set_settings (with_supabaseKey value (settings p)) p))).

Definition onOpenaiKey (value : string) (p : Plugin) : Plugin :=
  setupOpenai (saveSettings (set_settings (with_openaiKey value (settings p)) p)).

(** Lines 797-803, 815-821 and 833-839, and the same for the generative
    search: the text is taken when [parseInt] reads a number. *)
Definition onSemanticMatchThreshold (value : string) (p : Plugin) : Plugin :=
  match parseInt value with
  | Some _ =>
      saveSettings
        (set_settings
           (with_semanticSearch
              (with_matchThreshold (parseFloat value) (semanticSearch (settings p)))
              (settings p)) p)
  | None => p
  end.

Definition onSemanticMatchCount (value : string) (p : Plugin) : Plugin :=
  match parseInt value with
  | Some n =>
      saveSettings
        (set_settings
           (with_semanticSearch (with_matchCount n (semanticSearch (settings p)))
                                (settings p)) p)
  | None => p
  end.

Definition onSemanticMinContentLength (value : string) (p : Plugin) : Plugin :=
  match parseInt value with
  | Some n =>
      saveSettings
        (set_settings
           (with_semanticSearch (with_minContentLength n (semanticSearch (settings p)))
                                (settings p)) p)
  | None => p
  end.

Definition onGenerativeMatchThreshold (value : string) (p : Plugin) : Plugin :=
  match parseInt value with
  | Some _ =>
      saveSettings
        (set_settings
           (with_generativeSearch
              (with_matchThreshold (parseFloat value) (generativeSearch (settings p)))
              (settings p)) p)
  | None => p
  end.

Definition onGenerativeMatchCount (value : string) (p : Plugin) : Plugin :=
  match parseInt value with
  | Some n =>
      saveSettings
        (set_settings
           (with_generativeSearch (with_matchCount n (generativeSearch (settings p)))
                                  (settings p)) p)
  | None => p
  end.

Definition onGenerativeMinContentLength (value : string) (p : Plugin) : Plugin :=
  match parseInt value with
  | Some n =>
      saveSettings
        (set_settings
           (with_generativeSearch
              (with_minContentLength n (generativeSearch (settings p)))
              (settings p)) p)
  | None => p
  end.

(** What a setting shows: a text area, a text field or a toggle, with
    the handler of its changes. *)
Inductive Component :=
| TextArea (placeholder value : string) (onChange : string -> Plugin -> Plugin)
| Text (placeholder value : string) (disabled : bool)
       (onChange : option (string -> Plugin -> Plugin))
| Toggle (value : bool) (onChange : bool -> Plugin -> Plugin).

Record SettingItem := {
  name : string;
  desc : string;
  component : option Component
}.

Inductive Element :=
| Heading (text : string)
| Setting (item : SettingItem).

(** The code that fills [containerEl]. *)
Definition UI (A : Type) : Type := M (list Element) (@Error Vector) A.

(** [containerEl.empty()] and [containerEl.createEl("div", { cls:
    "setting-item setting-item-heading", text })]. *)
Definition empty : UI unit := fun _ => (Ok tt, []).

Definition createHeading (text : string) : UI unit :=
  fun containerEl => (Ok tt, containerEl ++ [Heading text]).

(** [new Setting(containerEl).setName(name).setDesc(desc)] followed by
    [addTextArea], [addText] or [addToggle]: the component is created as
    [blank] and then configured; when the configuration throws, the
    setting keeps the blank component. *)
Definition addSetting (name desc : string) (blank : Component)
    (configure : Outcome (@Error Vector) Component) : UI unit :=
  fun containerEl =>
    match configure with
    | Ok configured =>
        (Ok tt,
         containerEl ++
         [Setting {| name := name; desc := desc; component := Some configured |}])
    | Throw e =>
        (Throw e,
         containerEl ++
         [Setting {| name := name; desc := desc; component := Some blank |}])
    end.

Definition blankText : Component := Text "" "" false None.
Definition blankTextArea : Component := TextArea "" "" (fun _ p => p).
Definition blankToggle : Component := Toggle false (fun _ p => p).

(** [x.toString()] of a number that may be [undefined]. *)
Definition toString (x : option nat) : Outcome (@Error Vector) string :=
  match x with
  | Some n => Ok (pretty n)
  | None => Throw TypeError
  end.

(** Lines 786-840 and 847-901: the three settings of a search. *)
Definition searchSettings (s : Search.SearchSettings)
    (onThreshold onCount onLength : string -> Plugin -> Plugin) : UI unit :=
  addSetting "Match Threshold"
    "The minimum similarity score to return a match (between 0 and 1)" blankText
    (Ok (Text "Enter number" (numberToString (Search.matchThreshold s)) false
              (Some onThreshold))) ;;
  addSetting "Match Count" "The maximum number of results to return" blankText
    (Ok (Text "Enter integer" (pretty (Search.matchCount s)) false (Some onCount))) ;;
  addSetting "Min Content Length" "The minimum length for valid result string" blankText
    (Ok (Text "Enter integer" (pretty (Search.minContentLength s)) false
              (Some onLength))).

(** Lines 614-902: [SettingTab.display]. *)
Definition display (p : Plugin) : UI unit :=
  let s := settings p in
  empty ;;
  addSetting "Excluded Directories"
    "Enter a list of comma-seperated paths to exclude from indexing" blankTextArea
    (Ok (TextArea "Enter paths" (excludedDirs s) onExcludedDirs)) ;;
  addSetting "Public Directories"
    "Enter a list of comma-seperated paths to expose to the public" blankTextArea
    (Ok (TextArea "Enter paths" (publicDirs s) onPublicDirs)) ;;
  addSetting "Prompt" "Enter a prompt, you can customise the name and instructions"
    blankTextArea (Ok (TextArea "Enter prompt" (prompt s) onPrompt)) ;;
  addSetting "Index on start" "Index documents automatically on start" blankToggle
    (Ok (Toggle (indexOnOpen s) onIndexOnOpen)) ;;
  createHeading "Secrets" ;;
  addSetting "Supabase URL" "" blankText
    (Ok (Text "Enter URL" (supabaseUrl s) false (Some onSupabaseUrl))) ;;
  addSetting "Supabase Service Role Key" "" blankText
    (Ok (Text "Enter Key" (supabaseKey s) false (Some onSupabaseKey))) ;;
  addSetting "OpenAI API Key" "" blankText
    (Ok (Text "Enter Key" (openaiKey s) false (Some onOpenaiKey))) ;;
  addSetting "Embedding Model" "The OpenAI model used for embeddings (read-only)"
    blankText (Ok (Text "" (embeddingModel s) true None)) ;;
  addSetting "Chat Model" "The OpenAI model used for chat completions (read-only)"
    blankText (Ok (Text "" (chatModel s) true None)) ;;
  addSetting "Overlap from previous paragraph"
    "Number of characters to overlap from previous paragraph (read-only)" blankText
    (match toString (charsFromPreviousParagraph s) with
     | Ok text => Ok (Text "" text true None)
     | Throw e => Throw e
     end) ;;
  addSetting "Min Chunk Size" "Min chunk size for embeddings (read-only)" blankText
    (Ok (Text "" (pretty (minParagraphSize s)) true None)) ;;
  addSetting "Max Chunk Size" "Max chunk size for embeddings (read-only)" blankText
    (Ok (Text "" (pretty (maxParagraphSize s)) true None)) ;;
  addSetting "Search As You Type" "Search as you type (debounce 1s) OR on Alt + Enter"
    blankToggle (Ok (Toggle (searchAsYouType s) onSearchAsYouType)) ;;
  createHeading "Semantic Search Settings" ;;
  searchSettings (semanticSearch s) onSemanticMatchThreshold onSemanticMatchCount
                 onSemanticMinContentLength ;;
  createHeading "Generative Search Settings" ;;
  searchSettings (generativeSearch s) onGenerativeMatchThreshold onGenerativeMatchCount
                 onGenerativeMinContentLength.

(** What can be changed in the settings tab, and the handler it calls. *)
Inductive Edit :=
| EditExcludedDirs (value : string)
| EditPublicDirs (value : string)
| EditPrompt (value : string)
| EditIndexOnOpen (value : bool)
| EditSupabaseUrl (value : string)
| EditSupabaseKey (value : string)
| EditOpenaiKey (value : string)
| EditSearchAsYouType (value : bool)
| EditSemanticMatchThreshold (value : string)
| EditSemanticMatchCount (value : string)
| EditSemanticMinContentLength (value : string)
| EditGenerativeMatchThreshold (value : string)
| EditGenerativeMatchCount (value : string)
| EditGenerativeMinContentLength (value : string).

Definition edit (e : Edit) : Plugin -> Plugin :=
  match e with
  | EditExcludedDirs value => onExcludedDirs value
  | EditPublicDirs value => onPublicDirs value
  | EditPrompt value => onPrompt value
  | EditIndexOnOpen value => onIndexOnOpen value
  | EditSupabaseUrl value => onSupabaseUrl value
  | EditSupabaseKey value => onSupabaseKey value
  | EditOpenaiKey value => onOpenaiKey value
  | EditSearchAsYouType value => onSearchAsYouType value
  | EditSemanticMatchThreshold value => onSemanticMatchThreshold value
  | EditSemanticMatchCount value => onSemanticMatchCount value
  | EditSemanticMinContentLength value => onSemanticMinContentLength value
  | EditGenerativeMatchThreshold value => onGenerativeMatchThreshold value
  | EditGenerativeMatchCount value => onGenerativeMatchCount value
  | EditGenerativeMinContentLength value => onGenerativeMinContentLength value
  end.

Definition edits (l : list Edit) (p : Plugin) : Plugin :=
  fold_left (fun p e => edit e p) l p.

(** The client that [createClient] makes of the secrets of [s]: none
    when one of them is empty, or when it throws. *)
Definition clientOf (s : ObsidianAISettings) : option SupabaseClient :=
  if String.eqb (supabaseUrl s) "" || String.eqb (supabaseKey s) "" then None
  else match createClient (supabaseUrl s) (supabaseKey s) with
       | Ok client => Some client
       | Throw _ => None
       end.

(** [createClient] throws on the secrets of [s]. *)
Definition rejected (s : ObsidianAISettings) : bool :=
  negb (String.eqb (supabaseUrl s) "" || String.eqb (supabaseKey s) "") &&
  match createClient (supabaseUrl s) (supabaseKey s) with
  | Ok _ => false
  | Throw _ => true
  end.

(** What holds of a plugin once [onload] ran, whatever was changed in
    the settings tab since: the Supabase client is the one made of the
    secrets, the status bar says whether both clients exist unless the
    secrets are rejected, the commands and the wait for the layout are
    those of [onload], and the overlap is the one loaded. *)
Definition configured (overlap : option nat) (registered : list Command)
    (waiting : bool) (p : Plugin) : Prop :=
  supabaseClient p = clientOf (settings p) /\
  (rejected (settings p) = false ->
   statusBarItemEl p =
     (if hasClients p then "✨ [AI] Ready" else "❓[AI] Missing API variables")) /\
  commands p = registered /\
  whenLayoutReady p = waiting /\
  charsFromPreviousParagraph (settings p) = overlap.

(** The OpenAI client is the one made of the key. *)
Definition keyed (p : Plugin) : Prop :=
  openai p =
    (if String.eqb (openaiKey (settings p)) "" then None
     else Some {| apiKey := openaiKey (settings p) |}).

(** The name of a setting, or the text of a heading. *)
Definition label (e : Element) : string :=
  match e with
  | Heading text => text
  | Setting item => name item
  end.

End Main.

End Plugin.

(** ** A small vault and stand-in collaborators

    Concrete collaborators to run the engine on: paths are already
    normal, the digest is the text itself, the front matter is what
    comes before the first ["|"] and the chunks are separated by [";"]. *)

Module Demo.

Fixpoint split_on (sep : ascii) (s : string) : list string :=
  match s with
  | EmptyString => [EmptyString]
  | String c s' =>
      if Ascii.eqb c sep then EmptyString :: split_on sep s'
      else match split_on sep s' with
           | l :: ls => String c l :: ls
           | [] => [String c EmptyString]
           end
  end.

Definition parse (text : string) : string * gmap string string :=
  match split_on "|" text with
  | [body] => (body, ∅)
  | fm :: body :: _ => (body, {["tags" := fm]})
  | [] => (text, ∅)
  end.

#[export] Instance collaborators : Collaborators nat := {|
  normalize := fun p => p;
  sha256_base64 := fun text => text;
  parseMarkdown := parse;
  smartChunkParagraphs := fun content _ _ => split_on ";" content;
  frontmatterHeader := fun _ p => ("path: " ++ p ++ " ")%string;
  total_tokens := String.length;
  embedding_data := String.length
|}.

Definition note : TFile := {| path := "Public/note.md" |}.
Definition diary : TFile := {| path := "Private/diary.md" |}.
Definition draft : TFile := {| path := "Drafts/todo.md" |}.

Definition vault : Vault := {|
  getMarkdownFiles := [note; diary; draft];
  fileText := fun file =>
    if String.eqb (path file) "Public/note.md" then "a|abc;def"
    else if String.eqb (path file) "Private/diary.md" then "dear diary"
    else "todo"
|}.

Definition excludeDirs : list string := ["Drafts/"].
Definition publicDirs : list string := ["Public/"].

Definition emptyStore : @Store nat :=
  {| document := []; document_section := []; next_id := 1 |}.

Definition never : nat -> bool := fun _ => false.

Definition start (s : @Store nat) (f : nat -> bool) : @State nat :=
  {| store := s; log := [];
     embeddingResult := zeroResult; faults := f |}.

Definition row : Document :=
  {| doc_id := 1; doc_path := "Public/note.md"; doc_checksum := None;
     doc_meta := ∅; doc_public := true |}.

(** The note, indexed from its current text but not marked public. *)
Definition hiddenNote : Document :=
  {| doc_id := 1; doc_path := "Public/note.md"; doc_checksum := Some "a|abc;def";
     doc_meta := ∅; doc_public := false |}.

(** The note, indexed from an older text with another front matter. *)
Definition olderNote : Document :=
  {| doc_id := 1; doc_path := "Public/note.md"; doc_checksum := Some "b|abc;def";
     doc_meta := ∅; doc_public := true |}.

(** A document of a file that is no longer in the vault. *)
Definition goneNote : Document :=
  {| doc_id := 1; doc_path := "Old/gone.md"; doc_checksum := Some "gone";
     doc_meta := ∅; doc_public := false |}.

Definition oneRow (d : Document) : @Store nat :=
  {| document := [d]; document_section := []; next_id := 2 |}.

(** Nothing indexed yet, nothing that fails. *)
Definition fresh : @State nat := start emptyStore never.

(** Only the request numbered [k] fails. *)
Definition failAt (k : nat) : nat -> bool := fun n => Nat.eqb n k.

(** A search modal and providers that flag every query. *)
Definition modal : Search.Modal :=
  {| Search.results := [];
     Search.searchQuery := "";
     Search.minLengthBeforeAutoSearch := 10;
     Search.semanticSearchSettings :=
       {| Search.matchThreshold := QArith_base.Qmake 3 10;
          Search.matchCount := 10;
          Search.minContentLength := 10 |};
     Search.calls := [];
     Search.notices := [];
     Search.refreshes := 0 |}.

Definition flagging : string -> option bool := fun _ => Some true.

Definition searching (query : string) (settings : Search.SearchSettings)
    (calls : list Search.ProviderCall)
    : (string + list Search.SearchResult) * list Search.ProviderCall :=
  (inr [],
   calls ++ [Search.QueryEmbedding query;
             Search.MatchDocumentSections (Search.matchThreshold settings)
               (Search.matchCount settings) (Search.minContentLength settings)]).

End Demo.

(** ** Stand-ins for the chat and a store with a stale section *)

Module DemoChat.

(** Providers that flag nothing, and a moderation endpoint that is down. *)
Definition passing : string -> option bool := fun _ => Some false.
Definition outage : string -> option bool := fun _ => None.

(** A search that throws. *)
Definition failing (query : string) (settings : Search.SearchSettings)
    (calls : list Search.ProviderCall)
    : (string + list Search.SearchResult) * list Search.ProviderCall :=
  (inl "network down", calls ++ [Search.QueryEmbedding query]).

(** A chat that records the message in the history and answers it. *)
Definition answering (message : string)
    (history : list Chat.ChatCompletionRequestMessage)
    (settings : Search.SearchSettings) (calls : list Search.ProviderCall)
    : (string + string) * list Chat.ChatCompletionRequestMessage *
      list Search.ProviderCall :=
  (inr ("You said " ++ message)%string,
   history ++ [{| Chat.role := "user"; Chat.content := message |}],
   calls ++ [Search.ChatCompletion message]).

Definition shiftEnter : Chat.KeyboardEvent :=
  {| Chat.altKey := false; Chat.shiftKey := true; Chat.key := "Enter" |}.

(** A modal in its chat view, with a message typed. *)
Definition chatting : Chat.AISearchModal :=
  Chat.set_chatInput "hello"
    (Chat.enterChat
       (Chat.onOpen
          (Chat.constructor "Be brief." (Search.semanticSearchSettings Demo.modal)
             (Search.semanticSearchSettings Demo.modal) false 10))).

(** The note, indexed from an older text, with the section it had. *)
Definition staleStore : @Store nat :=
  {| document := [Demo.olderNote];
     document_section :=
       [{| document_id := 1; content := "old"; token_count := 3; embedding := 3 |}];
     next_id := 2 |}.

End DemoChat.

(** ** Stand-ins for the plugin *)

Module DemoPlugin.

(** A [createClient] that throws unless the url starts with "http". *)
Definition createClient (url key : string) : Outcome string Plugin.SupabaseClient :=
  if String.prefix "http" url
  then Ok {| Plugin.clientUrl := url; Plugin.clientKey := key |}
  else Throw "Invalid supabaseUrl".

(** No text is read as a number. *)
Definition parseInt : string -> option nat := fun _ => None.
Definition parseFloat : string -> QArith_base.Q := fun _ => QArith_base.Qmake 0 1.

(** A data.json with the three secrets, the url being none. *)
Definition malformed : Plugin.Data.t :=
  {| Plugin.Data.supabaseUrl := Some "u";
     Plugin.Data.supabaseKey := Some "k";
     Plugin.Data.openaiKey := Some "sk";
     Plugin.Data.indexOnOpen := None;
     Plugin.Data.embeddingModel := None;
     Plugin.Data.chatModel := None;
     Plugin.Data.charsFromPreviousParagraph := None;
     Plugin.Data.minParagraphSize := None;
     Plugin.Data.maxParagraphSize := None;
     Plugin.Data.searchAsYouType := None;
     Plugin.Data.minLengthBeforeAutoSearch := None;
     Plugin.Data.excludedDirs := None;
     Plugin.Data.excludedDirsList := None;
     Plugin.Data.publicDirs := None;
     Plugin.Data.publicDirsList := None;
     Plugin.Data.prompt := None;
     Plugin.Data.semanticSearch := None;
     Plugin.Data.generativeSearch := None |}.

End DemoPlugin.

(** * Proofs *)

Section SyncProofs.

Context {Vector : Type} `{C : Collaborators Vector}.

Variable cfg : AIConfig.
Variable vault : Vault.
Variables excludeDirs publicDirs : list string.

Implicit Types (w : @State Vector) (r : @Request Vector) (s : @Store Vector).
Implicit Types (rs : list (@Request Vector)).

(** ** The code issues the requests of the plan *)

Ltac mstep :=
  cbv beta iota zeta
      delta [ret bind throw try_catch status json error data negb Nat.eqb].

Ltac fault_cases :=
  match goal with
  | |- context [if faults ?a ?n then _ else _] =>
      let E := fresh "E" in destruct (faults a n) eqn:E
  end.

Lemma run_plan_cons r rs w :
 
  run_plan (r :: rs) w =
  if faults w (length (log w))
  then (Throw (error_of r), failed r w)
  else run_plan rs (served r w).
Proof.
  simpl. unfold bind, perform. destruct (faults w (length (log w))); reflexivity.
Qed.

Lemma supabase_run {A} r (answer : Store -> option A) w :
  supabase r answer w =
  if faults w (length (log w))
  then (Ok {| error := Some (RequestError r); data := None |}, failed r w)
  else (Ok {| error := None; data := answer (apply_request r (store w)) |},
        served r w).
Proof.
  unfold supabase, bind, perform.
  destruct (faults w (length (log w))); reflexivity.
Qed.

Lemma run_plan_app (a b : list (@Request Vector)) w :
  run_plan (a ++ b) w = (run_plan a ;; run_plan b) w.
Proof.
  revert w. induction a as [|r a IH]; intros w.
  - reflexivity.
  - rewrite <- app_comm_cons. unfold bind.
    rewrite (run_plan_cons r (a ++ b) w), (run_plan_cons r a w).
    destruct (faults w (length (log w))); [reflexivity|].
    rewrite IH. reflexivity.
Qed.

Lemma embedSection_plan (doc : Document) fm file sections i w :
  embedSection cfg doc fm file sections i w =
  run_plan
    [CreateEmbedding (embeddingInput cfg fm file sections i);
     InsertSection
       {| document_id := doc_id doc; content := nth i sections "";
          token_count := total_tokens (embeddingInput cfg fm file sections i);
          embedding := embedding_data (embeddingInput cfg fm file sections i) |}]
    w.
Proof.
  unfold embedSection, createEmbedding. mstep.
  rewrite run_plan_cons. unfold perform.
  destruct (faults w (length (log w))) eqn:E1; [reflexivity|].
  mstep. rewrite supabase_run, run_plan_cons.
  fault_cases; reflexivity.
Qed.

Lemma embed_loop_plan (doc : Document) fm file sections (l : list nat) w :
  for_each l (embedSection cfg doc fm file sections) w =
  run_plan
    (flat_map
       (fun i =>
          [CreateEmbedding (embeddingInput cfg fm file sections i);
           InsertSection
             {| document_id := doc_id doc; content := nth i sections "";
                token_count := total_tokens (embeddingInput cfg fm file sections i);
                embedding := embedding_data (embeddingInput cfg fm file sections i) |}])
       l) w.
Proof.
  revert w. induction l as [|i l IH]; intros w; [reflexivity|].
  cbn [for_each flat_map]. rewrite run_plan_app.
  unfold bind. rewrite embedSection_plan.
  destruct (run_plan _ w) as [[[]|e] w']; [apply IH | reflexivity].
Qed.

(** *** The store's answers *)

Lemma find_map_same_path (p : string) (f : Document -> Document) l :
  (forall d, doc_path (f d) = doc_path d) ->
  List.find (fun d => String.eqb (doc_path d) p)
            (List.map (fun d => if String.eqb (doc_path d) p then f d else d) l) =
  option_map f (List.find (fun d => String.eqb (doc_path d) p) l).
Proof.
  intros Hf. induction l as [|d l IH]; [reflexivity|].
  cbn [List.map List.find].
  destruct (String.eqb (doc_path d) p) eqn:E.
  - rewrite Hf, E. reflexivity.
  - rewrite E. exact IH.
Qed.

Lemma find_app_none {A} (f : A -> bool) (l : list A) (x : A) :
  List.find f l = None -> List.find f (l ++ [x]) = List.find f [x].
Proof.
  induction l as [|a l IH]; [reflexivity|].
  cbn [List.find app]. destruct (f a); [discriminate | exact IH].
Qed.

Lemma upsert_answer sum p m b s :
  exists d, select_by_path p (upsert_document sum p m b s) = Some d /\
            doc_id d = rowId (select_by_path p s) s /\
            doc_path d = p /\ doc_checksum d = sum /\
            doc_meta d = m /\ doc_public d = b.
Proof.
  unfold upsert_document. destruct (select_by_path p s) as [d|] eqn:E.
  - unfold select_by_path, update_documents in *. cbn [document].
    rewrite find_map_same_path by reflexivity. rewrite E. cbn [option_map].
    eexists. split; [reflexivity|]. cbn.
    apply find_some in E as [_ E]. apply String.eqb_eq in E. auto.
  - unfold select_by_path in *. cbn [document].
    rewrite find_app_none by assumption. cbn [List.find doc_path].
    rewrite String.eqb_refl. eexists. split; [reflexivity|]. cbn. auto.
Qed.

Lemma run_plan_app_k (a b : list (@Request Vector)) w :
  run_plan (a ++ b) w =
  match run_plan a w with
  | (Ok _, w') => run_plan b w'
  | (Throw e, w') => (Throw e, w')
  end.
Proof. rewrite run_plan_app. reflexivity. Qed.

Lemma indexDocument_plan file w :
  indexDocument cfg file (fileText vault file) (checksumOf vault file)
                (isFileInDirectories (path file) publicDirs) w =
  (run_plan (indexRequests cfg vault publicDirs file
               (rowId (select_by_path (path file) (store w)) (store w))) ;;
   modify_result (fun c => count_updated (count_success c))) w.
Proof.
  unfold indexDocument, indexRequests, sectionRequests, sectionRow, chunksOf, metaOf.
  destruct (parseMarkdown (fileText vault file)) as [content fm0] eqn:Epm.
  mstep. cbn [fst snd app]. rewrite supabase_run, run_plan_cons.
  fault_cases; [reflexivity|].
  cbn [apply_request].
  destruct (upsert_answer None (path file) (<["path":=path file]> fm0)
              (isFileInDirectories (path file) publicDirs) (store w))
    as (d & Hsel & Hid & _).
  rewrite Hsel, <- Hid, embed_loop_plan, run_plan_app_k.
  match goal with
  | |- context [run_plan (flat_map ?f ?l) ?w1] =>
      destruct (run_plan (flat_map f l) w1) as [[[]|e] w2]; [|reflexivity]
  end.
  rewrite supabase_run, run_plan_cons. fault_cases; reflexivity.
Qed.

Lemma deleteExistingSections_plan existing w :
  deleteExistingSections existing w = run_plan (deleteRequests existing) w.
Proof.
  destruct existing as [d|]; [|reflexivity].
  unfold deleteExistingSections, deleteRequests. mstep.
  rewrite supabase_run, run_plan_cons. fault_cases; reflexivity.
Qed.

Lemma syncDocument_plan file w :
  syncDocument cfg vault publicDirs file w =
  (run_plan (planOf cfg vault publicDirs file (store w)) ;;
   modify_result (countOf (branchOf vault publicDirs file (store w)))) w.
Proof.
  unfold syncDocument, planOf, cachedRead. mstep. cbn [app].
  rewrite supabase_run, run_plan_cons.
  fault_cases; [reflexivity|].
  unfold perform. rewrite run_plan_cons.
  fault_cases; [reflexivity|].
  cbn [store served apply_request log faults].
  unfold branchOf. fold (checksumOf vault file).
  destruct (checksum_matches _ _) eqn:Em.
  - destruct (select_by_path (path file) (store w)) as [d|] eqn:Es;
      [|discriminate].
    destruct (Bool.eqb _ _); [reflexivity|].
    rewrite supabase_run, run_plan_cons. fault_cases; reflexivity.
  - unfold reindexRequests. rewrite deleteExistingSections_plan, run_plan_app_k.
    destruct (select_by_path (path file) (store w)) as [d|] eqn:Es.
    + cbn [deleteRequests]. rewrite run_plan_cons. fault_cases; [reflexivity|].
      cbn [run_plan ret]. rewrite indexDocument_plan.
      cbn [store served apply_request].
      replace (select_by_path (path file) (delete_sections (Nat.eqb (doc_id d)) (store w)))
        with (Some d) by (rewrite <- Es; reflexivity).
      reflexivity.
    + cbn [deleteRequests run_plan ret]. rewrite indexDocument_plan.
      cbn [store served apply_request]. rewrite Es. reflexivity.
Qed.


(** ** What running a plan leaves behind *)

Lemma run_plan_spec rs w :
  let k := served_count (faults w) (length (log w)) (length rs) in
  run_plan rs w =
  (match rs !! k with
   | Some r => Throw (error_of r)
   | None => Ok tt
   end, ran rs k w).
Proof.
  revert w. induction rs as [|r rs IH]; intros w; cbn zeta.
  - cbn. unfold ret, ran. cbn. rewrite app_nil_r. destruct w; reflexivity.
  - rewrite run_plan_cons. cbn [length served_count].
    destruct (faults w (length (log w))) eqn:E; [reflexivity|].
    rewrite IH. cbn [served faults log store].
    rewrite length_app. cbn [length]. rewrite Nat.add_1_r.
    cbn [lookup list_lookup]. f_equal.
    unfold ran, served, apply_requests.
    cbn [store log faults embeddingResult take fold_left List.map lookup list_lookup].
    rewrite <- app_assoc. reflexivity.
Qed.

Lemma served_count_le f start n : served_count f start n <= n.
Proof.
  revert start. induction n as [|n IH]; intros start; cbn; [lia|].
  destruct (f start); [lia|]. specialize (IH (S start)). lia.
Qed.

Lemma served_count_all f start n :
  served_count f start n = n <-> (forall j, j < n -> f (start + j) = false).
Proof.
  revert start. induction n as [|n IH]; intros start; cbn.
  - split; [intros _ j Hj; lia | reflexivity].
  - destruct (f start) eqn:E.
    + split; [discriminate|]. intros H. specialize (H 0 ltac:(lia)).
      rewrite Nat.add_0_r in H. congruence.
    + split.
      * intros H j Hj. injection H as H. destruct j as [|j].
        -- rewrite Nat.add_0_r. exact E.
        -- rewrite Nat.add_succ_r. apply (proj1 (IH (S start)) H). lia.
      * intros H. f_equal. apply IH. intros j Hj.
        specialize (H (S j) ltac:(lia)). rewrite Nat.add_succ_r in H. exact H.
Qed.

Lemma lookup_served rs (k : nat) :
  k <= length rs ->
  (rs !! k = None <-> k = length rs).
Proof.
  intros Hk. rewrite lookup_ge_None. lia.
Qed.

Lemma syncFile_spec file w :
  syncFile cfg vault publicDirs file w =
  (Ok tt, afterFile cfg vault publicDirs file w).
Proof.
  unfold syncFile, try_catch. rewrite syncDocument_plan. unfold bind.
  rewrite run_plan_spec. cbn zeta. unfold afterFile. fold (servedOf cfg vault publicDirs file w).
  pose proof (served_count_le (faults w) (length (log w))
                (length (planOf cfg vault publicDirs file (store w)))) as Hle.
  fold (servedOf cfg vault publicDirs file w) in Hle.
  destruct (planOf cfg vault publicDirs file (store w) !! servedOf cfg vault publicDirs file w)
    as [r|] eqn:El.
  - assert (servedOf cfg vault publicDirs file w <>
            length (planOf cfg vault publicDirs file (store w))) as Hne.
    { intros Heq. apply lookup_served in Heq; [congruence | exact Hle]. }
    apply Nat.eqb_neq in Hne. rewrite Hne. reflexivity.
  - apply lookup_served in El; [|exact Hle].
    apply Nat.eqb_eq in El. rewrite El. reflexivity.
Qed.

(** ** The store after a part of a plan *)

Lemma apply_requests_app (a b : list (@Request Vector)) s :
  apply_requests (a ++ b) s = apply_requests b (apply_requests a s).
Proof. apply fold_left_app. Qed.

Lemma take_app_cases {A} (a b : list A) k :
  (k <= length a /\ take k (a ++ b) = take k a) \/
  (length a < k /\ take k (a ++ b) = a ++ take (k - length a) b).
Proof.
  destruct (le_lt_dec k (length a)) as [H|H].
  - left. split; [exact H|]. apply take_app_le. exact H.
  - right. split; [exact H|]. rewrite take_app. f_equal.
    apply take_ge. lia.
Qed.

Lemma with_sections_nil s : with_sections [] s = s.
Proof. destruct s. unfold with_sections. cbn. rewrite app_nil_r. reflexivity. Qed.

Lemma with_sections_app rows rows' s :
  with_sections rows' (with_sections rows s) = with_sections (rows ++ rows') s.
Proof. unfold with_sections. cbn. rewrite app_assoc. reflexivity. Qed.

Lemma section_requests_store file i (l : list nat) m s :
  apply_requests (take m (flat_map (sectionRequests cfg vault i file) l)) s =
  with_sections (List.map (sectionRow cfg vault i file) (take (m / 2) l)) s.
Proof.
  revert m s. induction l as [|k l IH]; intros m s.
  - cbn [flat_map]. rewrite !take_nil. cbn. rewrite with_sections_nil. reflexivity.
  - destruct m as [|[|m]].
    + cbn. rewrite with_sections_nil. reflexivity.
    + cbn. rewrite with_sections_nil. reflexivity.
    + replace (S (S m) / 2) with (S (m / 2))
        by (change (S (S m)) with (1 * 2 + m); rewrite Nat.div_add_l; lia).
      cbn [flat_map sectionRequests app take].
      change (apply_requests (?a :: ?b :: ?rest) s)
        with (apply_requests rest (apply_request b (apply_request a s))).
      rewrite IH. cbn [apply_request List.map].
      change (with_sections ?rows {| document := document s;
                                     document_section := document_section s ++ [?x];
                                     next_id := next_id s |})
        with (with_sections rows (with_sections [x] s)).
      rewrite with_sections_app. reflexivity.
Qed.

Lemma length_section_requests file i (l : list nat) :
  length (flat_map (sectionRequests cfg vault i file) l) = 2 * length l.
Proof. induction l as [|k l IH]; cbn [flat_map length app sectionRequests]; lia. Qed.

Lemma index_store file i m s :
  apply_requests (take m (indexRequests cfg vault publicDirs file i)) s =
  indexed cfg vault publicDirs file i m s.
Proof.
  unfold indexRequests, indexed. destruct m as [|m]; [reflexivity|].
  cbn [app take Nat.eqb].
  change (apply_requests (?a :: ?rest) s) with (apply_requests rest (apply_request a s)).
  cbn [apply_request]. rewrite Nat.sub_succ, Nat.sub_0_r.
  set (n := length (chunksOf cfg vault file)).
  set (su := upsert_document _ _ _ _ s).
  pose proof (length_section_requests file i (seq 0 n)) as Hlen.
  rewrite length_seq in Hlen.
  destruct (take_app_cases
              (flat_map (sectionRequests cfg vault i file) (seq 0 n))
              [UpdateChecksum i (checksumOf vault file)] m) as [[Hm E]|[Hm E]];
    rewrite E, Hlen in *.
  - rewrite section_requests_store, take_seq.
    replace (2 * n + 2 <=? S m) with false by (symmetry; apply Nat.leb_gt; lia).
    rewrite Nat.min_comm. reflexivity.
  - rewrite apply_requests_app.
    rewrite <- (take_ge (flat_map (sectionRequests cfg vault i file) (seq 0 n)) (2 * n))
      by lia.
    rewrite section_requests_store, take_seq.
    replace (2 * n + 2 <=? S m) with true by (symmetry; apply Nat.leb_le; lia).
    replace (2 * n / 2) with n by (rewrite Nat.mul_comm, Nat.div_mul; lia).
    assert (n <= m / 2) as Hdiv.
    { apply Nat.div_le_lower_bound; lia. }
    rewrite Nat.min_id, (Nat.min_l n (m / 2)) by exact Hdiv.
    destruct (m - 2 * n) as [|j] eqn:Ej; [lia|].
    cbn [take]. rewrite take_nil. reflexivity.
Qed.

Lemma select_update p (sel : Document -> bool) (f : Document -> Document) s :
  (forall d, doc_path (f d) = doc_path d) ->
  select_by_path p (update_documents sel f s) =
  option_map (fun d => if sel d then f d else d) (select_by_path p s).
Proof.
  intros Hf. unfold select_by_path, update_documents. cbn [document].
  induction (document s) as [|d l IH]; [reflexivity|].
  cbn [List.map List.find].
  replace (doc_path (if sel d then f d else d)) with (doc_path d)
    by (destruct (sel d); [rewrite Hf|]; reflexivity).
  destruct (String.eqb (doc_path d) p); [reflexivity | exact IH].
Qed.

Lemma indexed_sections file i m s :
  document_section (indexed cfg vault publicDirs file i m s) =
  document_section s ++
  List.map (sectionRow cfg vault i file)
           (seq 0 (if m =? 0 then 0
                   else min (length (chunksOf cfg vault file)) ((m - 1) / 2))).
Proof.
  unfold indexed. destruct (m =? 0); [cbn; rewrite app_nil_r; reflexivity|].
  assert (forall sum p mt b, document_section (upsert_document sum p mt b s) =
                             document_section s) as Hup.
  { intros. unfold upsert_document. destruct (select_by_path _ s); reflexivity. }
  destruct (_ <=? m); cbn [document_section update_documents with_sections];
    rewrite Hup; reflexivity.
Qed.

Lemma indexed_checksum file m s :
  stored_checksum (path file)
    (indexed cfg vault publicDirs file (rowId (select_by_path (path file) s) s) m s) =
  if m =? 0 then stored_checksum (path file) s
  else if 2 * length (chunksOf cfg vault file) + 2 <=? m
       then Some (checksumOf vault file) else None.
Proof.
  unfold indexed. destruct (m =? 0); [reflexivity|].
  destruct (upsert_answer None (path file) (metaOf vault file)
              (isFileInDirectories (path file) publicDirs) s)
    as (d & Hsel & Hid & _ & Hsum & _).
  destruct (_ <=? m); unfold stored_checksum.
  - rewrite select_update by reflexivity.
    change (select_by_path (path file) (with_sections ?rows ?s0))
      with (select_by_path (path file) s0).
    rewrite Hsel. cbn [option_map]. rewrite Hid, Nat.eqb_refl. reflexivity.
  - change (select_by_path (path file) (with_sections ?rows ?s0))
      with (select_by_path (path file) s0).
    rewrite Hsel. exact Hsum.
Qed.

Lemma reindex_store file existing i k s :
  apply_requests
    (take k ([SelectDocument (path file); CachedRead (path file)] ++
             deleteRequests existing ++
             indexRequests cfg vault publicDirs file i)) s =
  if k <=? 2 then s
  else match existing with
       | Some d =>
           indexed cfg vault publicDirs file i (k - 3)
                   (delete_sections (Nat.eqb (doc_id d)) s)
       | None => indexed cfg vault publicDirs file i (k - 2) s
       end.
Proof.
  destruct k as [|[|[|k]]]; [reflexivity..|].
  cbn [app take Nat.leb].
  change (apply_requests (?a :: ?b :: ?rest) s) with (apply_requests rest s).
  destruct existing as [d|]; cbn [deleteRequests app].
  - cbn [take].
    change (apply_requests (?a :: ?rest) s) with (apply_requests rest (apply_request a s)).
    rewrite index_store. cbn [apply_request]. rewrite !Nat.sub_succ, Nat.sub_0_r.
    reflexivity.
  - rewrite index_store. reflexivity.
Qed.

Lemma checksum_matches_stored p s sum :
  checksum_matches (select_by_path p s) sum = false <->
  stored_checksum p s <> Some sum.
Proof.
  unfold checksum_matches, stored_checksum.
  destruct (select_by_path p s) as [d|]; [|split; [discriminate | reflexivity]].
  destruct (doc_checksum d) as [c|]; [|split; [discriminate | reflexivity]].
  rewrite String.eqb_neq. split; congruence.
Qed.

Lemma filter_none {A} (l : list A) : List.filter (fun _ => negb false) l = l.
Proof. induction l as [|a l IH]; [reflexivity|]. cbn. f_equal. exact IH. Qed.

Lemma planOf_reindex file s :
  checksum_matches (select_by_path (path file) s) (checksumOf vault file) = false ->
  planOf cfg vault publicDirs file s =
  [SelectDocument (path file); CachedRead (path file)] ++
  deleteRequests (select_by_path (path file) s) ++
  indexRequests cfg vault publicDirs file (rowId (select_by_path (path file) s) s).
Proof. intros H. unfold planOf, branchOf. rewrite H. reflexivity. Qed.

Lemma length_reindex file existing i :
  length ([SelectDocument (path file); CachedRead (path file)] ++
          deleteRequests existing ++ indexRequests cfg vault publicDirs file i) =
  2 * length (chunksOf cfg vault file) + 4 + length (deleteRequests (Vector := Vector) existing).
Proof.
  unfold indexRequests. rewrite !length_app, length_section_requests, length_seq.
  cbn [length]. lia.
Qed.

(** ** C1 *)

(** C1. A document whose stored checksum differs from the checksum of its
    text, or that has no row, is re-indexed by these requests in this
    order, up to the first one that fails: the lookup and the read, the
    deletion of the sections of the existing row, the upsert with a null
    checksum, an embedding and an insertion for every chunk, and last the
    update of the checksum.  So the section table is either untouched or
    holds, for this document, only new sections and no old one, and the
    checksum of the text is stored exactly when every request was served,
    with every new section in place. *)
Theorem reindex_order file w :
  let p := path file in
  let existing := select_by_path p (store w) in
  let i := rowId existing (store w) in
  let chunks := chunksOf cfg vault file in
  let sum := checksumOf vault file in
  let rs :=
    [SelectDocument p; CachedRead p] ++
    deleteRequests existing ++
    [UpsertDocument None p (metaOf vault file) (isFileInDirectories p publicDirs)] ++
    flat_map (sectionRequests cfg vault i file) (seq 0 (length chunks)) ++
    [UpdateChecksum i sum] in
  let w' := snd (syncFile cfg vault publicDirs file w) in
  checksum_matches existing sum = false ->
  exists k j,
    k <= length rs /\ j <= length chunks /\
    log w' = log w ++ List.map (fun r => (r, true)) (take k rs) ++
             match rs !! k with
             | Some r => [(r, false)]
             | None => []
             end /\
    (k = length rs <->
     forall n, n < length rs -> faults w (length (log w) + n) = false) /\
    (document_section (store w') = document_section (store w) \/
     document_section (store w') =
       List.filter (fun x => negb (ownedBy existing x)) (document_section (store w)) ++
       List.map (sectionRow cfg vault i file) (seq 0 j)) /\
    (k = length rs ->
     document_section (store w') =
       List.filter (fun x => negb (ownedBy existing x)) (document_section (store w)) ++
       List.map (sectionRow cfg vault i file) (seq 0 (length chunks))) /\
    (stored_checksum p (store w') = Some sum <-> k = length rs).
Proof.
  intros p existing i chunks sum rs w' Hm.
  assert (planOf cfg vault publicDirs file (store w) = rs) as Hplan.
  { apply planOf_reindex. exact Hm. }
  assert (existing = select_by_path p (store w)) as Hex by reflexivity.
  assert (i = rowId existing (store w)) as Hi by reflexivity.
  clearbody i existing.
  assert (length rs = 2 * length chunks + 4 + length (deleteRequests (Vector := Vector) existing))
    as Hlen by apply length_reindex.
  remember (servedOf cfg vault publicDirs file w) as k eqn:Ekk.
  assert (k <= length rs) as Hk.
  { subst k. unfold servedOf. rewrite Hplan. apply served_count_le. }
  assert (store w' =
          if k <=? 2 then store w
          else match existing with
               | Some d =>
                   indexed cfg vault publicDirs file i (k - 3)
                           (delete_sections (Nat.eqb (doc_id d)) (store w))
               | None => indexed cfg vault publicDirs file i (k - 2) (store w)
               end) as Hstore.
  { subst w'. rewrite syncFile_spec. cbn [snd]. unfold afterFile. cbn [store set_result ran].
    rewrite Hplan, <- Ekk. apply reindex_store. }
  remember (k - 2 - length (deleteRequests (Vector := Vector) existing)) as m eqn:Em.
  remember (length chunks) as n eqn:En.
  exists k, (if m =? 0 then 0 else min n ((m - 1) / 2)).
  split; [exact Hk|]. split; [destruct (m =? 0); lia|].
  split.
  { subst w'. rewrite syncFile_spec. cbn [snd]. unfold afterFile. cbn [log set_result ran].
    rewrite Hplan, <- Ekk. reflexivity. }
  split.
  { subst k. unfold servedOf. rewrite Hplan. apply served_count_all. }
  rewrite Hex in Hm. apply (proj1 (checksum_matches_stored _ _ _)) in Hm.
  rewrite Hstore. clear Hstore.
  destruct (k <=? 2) eqn:Ek.
  - apply Nat.leb_le in Ek.
    split; [left; reflexivity|]. split; [lia|].
    split; [intros H; contradiction | intros; exfalso; lia].
  - apply Nat.leb_gt in Ek. destruct existing as [d|].
    + cbn [deleteRequests length] in *. rewrite !indexed_sections.
      replace (k - 3) with m by lia. fold chunks. rewrite <- En.
      split; [right; reflexivity|].
      split.
      { intros Hall. replace (m =? 0) with false by (symmetry; apply Nat.eqb_neq; lia).
        rewrite Nat.min_l; [reflexivity|].
        apply Nat.div_le_lower_bound; lia. }
      replace i
        with (rowId (select_by_path p (delete_sections (Nat.eqb (doc_id d)) (store w)))
                    (delete_sections (Nat.eqb (doc_id d)) (store w)))
        by (rewrite Hi, Hex; reflexivity).
      subst p. rewrite indexed_checksum. fold chunks. rewrite <- En.
      destruct (m =? 0) eqn:E0.
      * apply Nat.eqb_eq in E0.
        split; [intros H; contradiction | intros; exfalso; lia].
      * apply Nat.eqb_neq in E0.
        destruct (2 * n + 2 <=? m) eqn:E1.
        -- apply Nat.leb_le in E1. split; [intros _; lia | reflexivity].
        -- apply Nat.leb_gt in E1. split; [discriminate | intros; exfalso; lia].
    + cbn [deleteRequests length] in *. rewrite !indexed_sections.
      replace (k - 2) with m by lia. fold chunks. rewrite <- En.
      cbn [ownedBy]. rewrite filter_none.
      split; [right; reflexivity|].
      split.
      { intros Hall. replace (m =? 0) with false by (symmetry; apply Nat.eqb_neq; lia).
        rewrite Nat.min_l; [reflexivity|].
        apply Nat.div_le_lower_bound; lia. }
      replace i with (rowId (select_by_path p (store w)) (store w))
        by (rewrite Hi, Hex; reflexivity).
      subst p. rewrite indexed_checksum. fold chunks. rewrite <- En.
      destruct (m =? 0) eqn:E0.
      * apply Nat.eqb_eq in E0.
        split; [intros H; contradiction | intros; exfalso; lia].
      * apply Nat.eqb_neq in E0.
        destruct (2 * n + 2 <=? m) eqn:E1.
        -- apply Nat.leb_le in E1. split; [intros _; lia | reflexivity].
        -- apply Nat.leb_gt in E1. split; [discriminate | intros; exfalso; lia].
Qed.

(** ** C2 *)

Lemma documents_set_public (i : nat) (b : bool) (l : list Document) :
  Forall2
    (fun a a' =>
       doc_id a' = doc_id a /\ doc_path a' = doc_path a /\
       doc_checksum a' = doc_checksum a /\ doc_meta a' = doc_meta a /\
       (doc_id a <> i -> a' = a))
    l (List.map (fun a => if Nat.eqb (doc_id a) i then set_public b a else a) l).
Proof.
  induction l as [|a l IH]; cbn [List.map]; constructor; [|exact IH].
  destruct (Nat.eqb (doc_id a) i) eqn:E; cbn.
  - apply Nat.eqb_eq in E. repeat split. intros H. contradiction.
  - repeat split.
Qed.

(** C2. When the lookup of a document and the read of its text are served
    and the stored checksum is the checksum of the text: with the stored
    public flag equal to the computed visibility no write is requested,
    the store is unchanged and only successCount grows, by one; with a
    different flag the one write requested is the update of the public
    flag of that row, and once it is served no section and no other field
    of any row has changed and successCount and updatedCount have both
    grown by one. *)
Theorem unchanged_document file w d :
  let p := path file in
  let isPublic := isFileInDirectories p publicDirs in
  let n := length (log w) in
  let w' := snd (syncFile cfg vault publicDirs file w) in
  let c := embeddingResult w in
  select_by_path p (store w) = Some d ->
  doc_checksum d = Some (checksumOf vault file) ->
  faults w n = false ->
  faults w (S n) = false ->
  (doc_public d = isPublic ->
   log w' = log w ++ [(SelectDocument p, true); (CachedRead p, true)] /\
   store w' = store w /\
   embeddingResult w' =
     {| successCount := successCount c + 1; updatedCount := updatedCount c;
        errorCount := errorCount c; deleteCount := deleteCount c |}) /\
  (doc_public d <> isPublic ->
   faults w (S (S n)) = false ->
   log w' = log w ++ [(SelectDocument p, true); (CachedRead p, true);
                      (UpdatePublic (doc_id d) isPublic, true)] /\
   document_section (store w') = document_section (store w) /\
   next_id (store w') = next_id (store w) /\
   Forall2
     (fun a a' =>
        doc_id a' = doc_id a /\ doc_path a' = doc_path a /\
        doc_checksum a' = doc_checksum a /\ doc_meta a' = doc_meta a /\
        (doc_id a <> doc_id d -> a' = a))
     (document (store w)) (document (store w')) /\
   select_by_path p (store w') = Some (set_public isPublic d) /\
   embeddingResult w' =
     {| successCount := successCount c + 1; updatedCount := updatedCount c + 1;
        errorCount := errorCount c; deleteCount := deleteCount c |}).
Proof.
  intros p isPublic n w' c Hsel Hsum H0 H1.
  assert (checksum_matches (Some d) (checksumOf vault file) = true) as Hm.
  { cbn. rewrite Hsum. apply String.eqb_refl. }
  subst w'. rewrite syncFile_spec. cbn [snd].
  unfold afterFile, servedOf, planOf, branchOf.
  fold p. rewrite Hsel, Hm. fold isPublic. split.
  - intros Hpub. rewrite Hpub, Bool.eqb_reflx.
    cbn [app length served_count]. fold n. rewrite H0, H1.
    cbn. auto.
  - intros Hpub H2. apply Bool.eqb_false_iff in Hpub. rewrite Hpub.
    cbn [app length served_count]. fold n. rewrite H0, H1, H2.
    cbn -[select_by_path].
    split; [reflexivity|]. split; [reflexivity|]. split; [reflexivity|].
    split; [apply documents_set_public|].
    split; [|reflexivity].
    change (select_by_path p (update_documents (fun a => Nat.eqb (doc_id a) (doc_id d))
                                               (set_public isPublic) (store w)) =
            Some (set_public isPublic d)).
    rewrite select_update by reflexivity. rewrite Hsel. cbn [option_map].
    rewrite Nat.eqb_refl. reflexivity.
Qed.

(** ** C3 *)

Lemma served_count_lt f start n j :
  j < n -> f (start + j) = true -> served_count f start n < n.
Proof.
  intros Hj Hf. pose proof (served_count_le f start n) as Hle.
  destruct (Nat.eq_dec (served_count f start n) n) as [E|E]; [|lia].
  apply served_count_all with (j := j) in E; [congruence | exact Hj].
Qed.

Lemma branchOf_cases file s :
  let p := path file in
  let sum := checksumOf vault file in
  (branchOf vault publicDirs file s = Skip \/
   exists d, branchOf vault publicDirs file s = Visibility d) /\
  stored_checksum p s = Some sum \/
  branchOf vault publicDirs file s = Reindex (select_by_path p s) /\
  stored_checksum p s <> Some sum.
Proof.
  intros p sum. unfold branchOf. fold p sum.
  destruct (checksum_matches (select_by_path p s) sum) eqn:E.
  - left. split.
    + destruct (select_by_path p s) as [d|]; [|left; reflexivity].
      destruct (Bool.eqb _ _); [left; reflexivity | right; eauto].
    + unfold checksum_matches, stored_checksum in *.
      destruct (select_by_path p s) as [d|]; [|discriminate].
      destruct (doc_checksum d) as [c|]; [|discriminate].
      apply String.eqb_eq in E. congruence.
  - right. split; [reflexivity|]. apply checksum_matches_stored. exact E.
Qed.

Lemma failed_store file s k :
  let p := path file in
  let rs := planOf cfg vault publicDirs file s in
  let s' := apply_requests (take k rs) s in
  k < length rs ->
  (stored_checksum p s' = stored_checksum p s \/ stored_checksum p s' = None) /\
  (branchOf vault publicDirs file s' = Skip -> branchOf vault publicDirs file s = Skip).
Proof.
  intros p rs s' Hk.
  destruct (branchOf_cases file s) as [[Hb Hsum]|[Hb Hsum]]; fold p in Hsum.
  - assert (s' = s) as ->.
    { subst s' rs. unfold planOf in *.
      destruct Hb as [Hb|[d Hb]]; rewrite Hb in *; cbn [app length] in Hk;
        destruct k as [|[|[|k]]]; try reflexivity; lia. }
    split; [left; reflexivity | auto].
  - assert (stored_checksum p s' = stored_checksum p s \/ stored_checksum p s' = None)
      as Hst.
    { subst s' rs. assert (checksum_matches (select_by_path p s) (checksumOf vault file) = false)
        as Hm by (apply checksum_matches_stored; exact Hsum).
      rewrite planOf_reindex in * by exact Hm.
      rewrite length_reindex in Hk. rewrite reindex_store.
      destruct (k <=? 2) eqn:Ek; [left; reflexivity|]. apply Nat.leb_gt in Ek.
      fold p in Hk |- *.
      destruct (select_by_path p s) as [d|] eqn:Es; cbn [deleteRequests length] in Hk.
      + replace (rowId (Some d) s)
          with (rowId (select_by_path p (delete_sections (Nat.eqb (doc_id d)) s))
                      (delete_sections (Nat.eqb (doc_id d)) s))
          by (rewrite <- Es; reflexivity).
        subst p. rewrite indexed_checksum.
        destruct (k - 3 =? 0); [left; reflexivity|].
        replace (_ <=? k - 3) with false by (symmetry; apply Nat.leb_gt; lia).
        right; reflexivity.
      + rewrite <- Es. subst p. rewrite indexed_checksum.
        destruct (k - 2 =? 0); [left; reflexivity|].
        replace (_ <=? k - 2) with false by (symmetry; apply Nat.leb_gt; lia).
        right; reflexivity. }
    split; [exact Hst|]. intros Hskip. exfalso.
    destruct (branchOf_cases file s') as [[_ Hsum']|[Hb' _]].
    + fold p in Hsum'. destruct Hst as [Hst|Hst]; congruence.
    + congruence.
Qed.

Lemma in_take {A} (x : A) k (l : list A) : In x (take k l) -> In x l.
Proof.
  revert k. induction l as [|a l IH]; intros [|k]; cbn; try tauto.
  intros [H|H]; [left; exact H | right; exact (IH k H)].
Qed.

Lemma checksum_update_last file s k i sum :
  k < length (planOf cfg vault publicDirs file s) ->
  ~ In (UpdateChecksum i sum) (take k (planOf cfg vault publicDirs file s)).
Proof.
  intros Hk Hin.
  destruct (branchOf_cases file s) as [[Hb _]|[_ Hsum]].
  - apply in_take in Hin. unfold planOf in Hin.
    destruct Hb as [Hb|[d Hb]]; rewrite Hb in Hin; cbn in Hin;
      intuition discriminate.
  - apply checksum_matches_stored in Hsum.
    rewrite planOf_reindex in * by exact Hsum.
    rewrite length_reindex in Hk.
    set (del := deleteRequests (select_by_path (path file) s)) in *.
    unfold indexRequests in Hin.
    set (secs := flat_map _ _) in *.
    assert (length secs = 2 * length (chunksOf cfg vault file)) as Hlen.
    { subst secs. rewrite length_section_requests, length_seq. reflexivity. }
    rewrite !app_assoc in Hin. rewrite take_app_le in Hin
      by (rewrite !length_app, Hlen; cbn [length]; lia).
    apply in_take in Hin. rewrite !in_app_iff in Hin.
    destruct Hin as [[[Hin|Hin]|Hin]|Hin].
    + cbn in Hin. intuition discriminate.
    + subst del. destruct (select_by_path _ s); cbn in Hin; intuition discriminate.
    + cbn in Hin. intuition discriminate.
    + subst secs. apply in_flat_map in Hin as (j & _ & Hin).
      cbn in Hin. intuition discriminate.
Qed.

(** C3. When a request of a document's sequence fails (the lookup, the
    read, the deletion of the sections, the upsert, an embedding, an
    insertion or an update), the turn of the loop still completes and
    counts one error and nothing else; no update of the checksum is served
    for it, the checksum stored for the path is what it was or null, the
    document does not come to look up to date, and the loop goes on with
    the remaining files from the state the failure left. *)
Theorem failure_counts_once file w j :
  let p := path file in
  let rs := planOf cfg vault publicDirs file (store w) in
  let run := syncFile cfg vault publicDirs file w in
  let c := embeddingResult w in
  j < length rs ->
  faults w (length (log w) + j) = true ->
  fst run = Ok tt /\
  embeddingResult (snd run) =
    {| successCount := successCount c; updatedCount := updatedCount c;
       errorCount := errorCount c + 1; deleteCount := deleteCount c |} /\
  (forall i sum, In (UpdateChecksum i sum, true) (log (snd run)) ->
                 In (UpdateChecksum i sum, true) (log w)) /\
  (stored_checksum p (store (snd run)) = stored_checksum p (store w) \/
   stored_checksum p (store (snd run)) = None) /\
  (branchOf vault publicDirs file (store (snd run)) = Skip ->
   branchOf vault publicDirs file (store w) = Skip) /\
  (forall rest,
     for_each (file :: rest) (syncFile cfg vault publicDirs) w =
     for_each rest (syncFile cfg vault publicDirs) (snd run)).
Proof.
  intros p rs run c Hj Hf.
  assert (servedOf cfg vault publicDirs file w < length rs) as Hk.
  { unfold servedOf. fold rs. eapply served_count_lt; eassumption. }
  subst run. rewrite syncFile_spec. cbn [fst snd].
  split; [reflexivity|].
  unfold afterFile. fold rs. cbn [store log embeddingResult set_result ran].
  replace (_ =? length rs) with false by (symmetry; apply Nat.eqb_neq; lia).
  split; [reflexivity|]. split.
  { intros i sum Hin. rewrite !in_app_iff in Hin.
    destruct Hin as [Hin|[Hin|Hin]]; [exact Hin | exfalso | exfalso].
    - apply in_map_iff in Hin as (r & Hr & Hin). injection Hr as ->.
      eapply checksum_update_last; [|exact Hin]. exact Hk.
    - destruct (rs !! _); cbn in Hin; [|contradiction].
      destruct Hin as [Hin|[]]. discriminate. }
  pose proof (failed_store file (store w) _ Hk) as [Hst Hbr].
  split; [exact Hst|]. split; [exact Hbr|].
  intros rest. cbn [for_each]. unfold bind. rewrite syncFile_spec.
  unfold afterFile. fold rs.
  replace (_ =? length rs) with false by (symmetry; apply Nat.eqb_neq; lia).
  reflexivity.
Qed.

(** ** The reconciliation pass *)

Lemma outcomes_S f start n :
  outcomes f start (S n) = negb (f start) :: outcomes f (S start) n.
Proof.
  unfold outcomes. cbn [seq List.map]. rewrite Nat.add_0_r. f_equal.
  rewrite <- seq_shift, List.map_map. apply List.map_ext.
  intros j. rewrite Nat.add_succ_r. reflexivity.
Qed.

Lemma reconciled_nil files w : reconciled files [] w = w.
Proof.
  unfold reconciled. cbn. rewrite app_nil_r, !Nat.add_0_r.
  destruct w as [? ? [] ?]. reflexivity.
Qed.

Lemma dangling_cons files d docs :
  dangling files (d :: docs) =
  if isLive files d then dangling files docs else d :: dangling files docs.
Proof. unfold dangling. cbn [List.filter]. destruct (isLive files d); reflexivity. Qed.

Lemma reconcile_loop files docs w :
  for_each docs (reconcileDocument files) w = (Ok tt, reconciled files docs w).
Proof.
  revert w. induction docs as [|d docs IH]; intros w.
  - rewrite reconciled_nil. reflexivity.
  - cbn [for_each]. unfold bind at 1. unfold reconcileDocument at 1.
    unfold reconciled. rewrite dangling_cons. unfold isLive.
    destruct (List.find _ files) as [file|] eqn:Ef.
    + cbn [ret]. rewrite IH. reflexivity.
    + mstep. rewrite supabase_run. cbn [length].
      rewrite outcomes_S.
      destruct (faults w (length (log w))) eqn:E; mstep; unfold modify_result;
        rewrite IH; unfold reconciled, failed, served, set_result,
          count_error, count_delete, deletions, servedRequests, failures;
        cbn [store log embeddingResult faults successCount updatedCount errorCount
             deleteCount List.map combine List.filter negb snd fst];
        rewrite length_app; cbn [length]; rewrite Nat.add_1_r, <- app_assoc;
        cbn [app]; f_equal; f_equal; f_equal; lia.
Qed.

Lemma reconcile_spec files w :
  reconcile files w =
  if faults w (length (log w))
  then (Ok tt, set_result (count_error (embeddingResult w)) (failed SelectAllDocuments w))
  else (Ok tt, reconciled files (document (store w)) (served SelectAllDocuments w)).
Proof.
  unfold reconcile. mstep. rewrite supabase_run.
  destruct (faults w (length (log w))); [reflexivity|].
  cbn [apply_request]. apply reconcile_loop.
Qed.

Lemma outcomes_lookup f start n j :
  j < n -> outcomes f start n !! j = Some (negb (f (start + j))).
Proof.
  revert start j. induction n as [|n IH]; intros start j Hj; [lia|].
  rewrite outcomes_S. destruct j as [|j].
  - rewrite Nat.add_0_r. reflexivity.
  - cbn [lookup list_lookup]. rewrite Nat.add_succ_r. apply (IH (S start)). lia.
Qed.

Lemma in_combine_lookup {A B} (l1 : list A) (l2 : list B) j a b :
  l1 !! j = Some a -> l2 !! j = Some b -> In (a, b) (combine l1 l2).
Proof.
  revert l2 j. induction l1 as [|x l1 IH]; intros [|y l2] [|j]; cbn; try discriminate.
  - intros [= ->] [= ->]. left. reflexivity.
  - intros H1 H2. right. exact (IH l2 j H1 H2).
Qed.

Lemma isLive_path files (a b : Document) :
  doc_path a = doc_path b -> isLive files a = isLive files b.
Proof. intros H. unfold isLive. rewrite H. reflexivity. Qed.

(** The rows left by the served deletions are the rows whose path none
    of them names. *)
Lemma documents_after_deletions (gone : list Document) flags s d :
  In d (document (apply_requests (servedRequests (deletions gone flags)) s)) <->
  In d (document s) /\
  forall g, In (g, true) (combine gone flags) -> doc_path d <> doc_path g.
Proof.
  revert flags s. induction gone as [|g0 gone IH]; intros flags s.
  - cbn. split; [intros H; split; [exact H | intros g []] | intros [H _]; exact H].
  - destruct flags as [|b flags].
    + cbn. split; [intros H; split; [exact H | intros g []] | intros [H _]; exact H].
    + unfold deletions, servedRequests in *. cbn [List.map combine List.filter snd].
      destruct b; cbn [List.map fst].
      * change (apply_requests (?r :: ?l) s) with (apply_requests l (apply_request r s)).
        rewrite IH. cbn [apply_request delete_document document].
        rewrite filter_In, negb_true_iff, String.eqb_neq. split.
        -- intros [[Hin Hne] Hall]. split; [exact Hin|].
           intros g [Hg|Hg]; [injection Hg as <-; exact Hne | exact (Hall g Hg)].
        -- intros [Hin Hall]. split; [split; [exact Hin|] |].
           ++ apply Hall. left. reflexivity.
           ++ intros g Hg. apply Hall. right. exact Hg.
      * rewrite IH. split.
        -- intros [Hin Hall]. split; [exact Hin|].
           intros g [Hg|Hg]; [discriminate | exact (Hall g Hg)].
        -- intros [Hin Hall]. split; [exact Hin|].
           intros g Hg. apply Hall. right. exact Hg.
Qed.

(** ** C4 *)

(** ** C10 *)

(** C10. For a stored document that no live file has, the turn of the
    reconciliation loop requests its deletion and adds one to deleteCount
    whether the request is served or fails; when it fails, errorCount
    grows by one as well and the store keeps the document.  Over the whole
    loop deleteCount grows by the number of deletions requested and
    errorCount by the number of those that failed. *)
Theorem failed_deletion_is_counted files doc w :
  let n := length (log w) in
  let c := embeddingResult w in
  let run := reconcileDocument files doc w in
  isLive files doc = false ->
  fst run = Ok tt /\
  log (snd run) = log w ++ [(DeleteDocument (doc_path doc), negb (faults w n))] /\
  deleteCount (embeddingResult (snd run)) = deleteCount c + 1 /\
  errorCount (embeddingResult (snd run)) =
    errorCount c + (if faults w n then 1 else 0) /\
  successCount (embeddingResult (snd run)) = successCount c /\
  updatedCount (embeddingResult (snd run)) = updatedCount c /\
  (faults w n = true -> store (snd run) = store w) /\
  (forall docs,
     let loop := for_each docs (reconcileDocument files) w in
     let gone := dangling files docs in
     let flags := outcomes (faults w) n (length gone) in
     log (snd loop) = log w ++ deletions gone flags /\
     deleteCount (embeddingResult (snd loop)) = deleteCount c + length gone /\
     errorCount (embeddingResult (snd loop)) = errorCount c + failures flags).
Proof.
  intros n c run Hdead. split; [|split; [|split; [|split; [|split; [|split; [|split]]]]]].
  8: { intros docs loop gone flags. subst loop. rewrite reconcile_loop.
       cbn [snd]. unfold reconciled. cbn [log embeddingResult deleteCount errorCount].
       auto. }
  all: subst run; unfold reconcileDocument; unfold isLive in Hdead;
    destruct (List.find _ files); [discriminate|];
    mstep; rewrite supabase_run; fold n;
    destruct (faults w n) eqn:E; mstep; cbn; subst c;
    try reflexivity; try lia; try discriminate.
Qed.

(** ** C8 *)

Lemma syncFile_all_served file w :
  let rs := planOf cfg vault publicDirs file (store w) in
  (forall n, n < length rs -> faults w (length (log w) + n) = false) ->
  snd (syncFile cfg vault publicDirs file w) =
  {| store := apply_requests rs (store w);
     log := log w ++ List.map (fun r => (r, true)) rs;
     embeddingResult :=
       countOf (branchOf vault publicDirs file (store w)) (embeddingResult w);
     faults := faults w |}.
Proof.
  intros rs Hall. rewrite syncFile_spec. cbn [snd]. unfold afterFile, servedOf.
  fold rs. apply served_count_all in Hall. rewrite Hall, Nat.eqb_refl.
  unfold ran, set_result. cbn [store log faults].
  rewrite take_ge by lia. rewrite (proj2 (lookup_ge_None rs (length rs))) by lia.
  rewrite app_nil_r. reflexivity.
Qed.

(** C8. The checksum of a file is the digest of its raw text, front
    matter included.  So when the stored checksum is the digest of an
    older text with the same body and another front matter, and the
    digest tells the two texts apart, the document is re-indexed: its
    sections are deleted, the row is upserted with a null checksum, every
    chunk of the unchanged body is embedded and inserted again, and the
    new digest is stored. *)
Theorem front_matter_change_reindexes file w d old :
  let p := path file in
  let text := fileText vault file in
  let chunks :=
    smartChunkParagraphs (fst (parseMarkdown old))
                         (minParagraphSize cfg) (maxParagraphSize cfg) in
  let rs :=
    [SelectDocument p; CachedRead p; DeleteSections (doc_id d);
     UpsertDocument None p (metaOf vault file) (isFileInDirectories p publicDirs)] ++
    flat_map (sectionRequests cfg vault (doc_id d) file) (seq 0 (length chunks)) ++
    [UpdateChecksum (doc_id d) (sha256_base64 text)] in
  let w' := snd (syncFile cfg vault publicDirs file w) in
  select_by_path p (store w) = Some d ->
  doc_checksum d = Some (sha256_base64 old) ->
  fst (parseMarkdown old) = fst (parseMarkdown text) ->
  snd (parseMarkdown old) <> snd (parseMarkdown text) ->
  sha256_base64 old <> sha256_base64 text ->
  checksumOf vault file = sha256_base64 text /\
  chunksOf cfg vault file = chunks /\
  checksum_matches (Some d) (checksumOf vault file) = false /\
  ((forall n, n < length rs -> faults w (length (log w) + n) = false) ->
   log w' = log w ++ List.map (fun r => (r, true)) rs /\
   document_section (store w') =
     List.filter (fun x => negb (Nat.eqb (doc_id d) (document_id x)))
                 (document_section (store w)) ++
     List.map (sectionRow cfg vault (doc_id d) file) (seq 0 (length chunks)) /\
   stored_checksum p (store w') = Some (sha256_base64 text) /\
   successCount (embeddingResult w') = successCount (embeddingResult w) + 1 /\
   updatedCount (embeddingResult w') = updatedCount (embeddingResult w) + 1).
Proof.
  intros p text chunks rs w' Hsel Hsum Hbody Hfm Hsha.
  assert (chunksOf cfg vault file = chunks) as Hchunks.
  { unfold chunksOf. subst chunks. fold text. rewrite Hbody. reflexivity. }
  assert (checksum_matches (select_by_path p (store w)) (checksumOf vault file) = false)
    as Hm.
  { rewrite Hsel. cbn. rewrite Hsum. apply String.eqb_neq. exact Hsha. }
  split; [reflexivity|]. split; [exact Hchunks|].
  split; [rewrite <- Hsel; exact Hm|].
  assert (planOf cfg vault publicDirs file (store w) = rs) as Hplan.
  { rewrite planOf_reindex by exact Hm. fold p. rewrite Hsel.
    unfold indexRequests. rewrite Hchunks. reflexivity. }
  intros Hall. subst w'. rewrite syncFile_all_served by (rewrite Hplan; exact Hall).
  cbn [store log embeddingResult]. rewrite Hplan.
  split; [reflexivity|].
  assert (apply_requests rs (store w) =
          indexed cfg vault publicDirs file (doc_id d) (2 * length chunks + 2)
                  (delete_sections (Nat.eqb (doc_id d)) (store w))) as ->.
  { assert (rs = [SelectDocument (path file); CachedRead (path file)] ++
                 deleteRequests (Some d) ++
                 indexRequests cfg vault publicDirs file (doc_id d)) as Hrs.
    { unfold indexRequests. rewrite Hchunks. reflexivity. }
    assert (length rs = 2 * length chunks + 5) as Hlen.
    { rewrite Hrs, length_reindex, Hchunks. cbn [deleteRequests length]. lia. }
    pose proof (reindex_store file (Some d) (doc_id d) (length rs) (store w)) as H.
    rewrite <- Hrs, take_ge in H by lia. rewrite H, Hlen.
    replace (2 * length chunks + 5 <=? 2) with false by (symmetry; apply Nat.leb_gt; lia).
    f_equal. lia. }
  rewrite indexed_sections, Hchunks.
  replace (2 * length chunks + 2 =? 0) with false by (symmetry; apply Nat.eqb_neq; lia).
  rewrite Nat.min_l by (apply Nat.div_le_lower_bound; lia).
  split; [reflexivity|].
  split.
  - replace (doc_id d)
      with (rowId (select_by_path p (delete_sections (Nat.eqb (doc_id d)) (store w)))
                  (delete_sections (Nat.eqb (doc_id d)) (store w))) at 1
      by (change (select_by_path p (delete_sections ?f (store w)))
            with (select_by_path p (store w)); rewrite Hsel; reflexivity).
    subst p. rewrite indexed_checksum, Hchunks.
    replace (2 * length chunks + 2 =? 0) with false by (symmetry; apply Nat.eqb_neq; lia).
    rewrite Nat.leb_refl. reflexivity.
  - unfold branchOf. fold p. rewrite Hm. cbn. lia.
Qed.

(** ** The store stays well formed *)

Lemma map_id_update (sel : Document -> bool) (f : Document -> Document) l :
  (forall d, doc_id (f d) = doc_id d) ->
  List.map doc_id (List.map (fun d => if sel d then f d else d) l) = List.map doc_id l.
Proof.
  intros Hf. rewrite List.map_map. apply List.map_ext.
  intros d. destruct (sel d); [apply Hf | reflexivity].
Qed.

Lemma wf_update sel f s :
  (forall d, doc_id (f d) = doc_id d) ->
  store_wf s -> store_wf (update_documents sel f s).
Proof.
  intros Hf [Hnd Hlt]. unfold store_wf, update_documents. cbn [document next_id]. split.
  - rewrite map_id_update by exact Hf. exact Hnd.
  - apply List.Forall_forall. intros d Hd. apply in_map_iff in Hd as (a & <- & Ha).
    rewrite List.Forall_forall in Hlt. specialize (Hlt a Ha).
    destruct (sel a); [rewrite Hf|]; exact Hlt.
Qed.

Lemma wf_apply_request r s : store_wf s -> store_wf (apply_request r s).
Proof.
  intros Hwf. destruct r; cbn [apply_request]; try exact Hwf;
    try (apply wf_update; [reflexivity | exact Hwf]).
  - unfold upsert_document. destruct (select_by_path p s).
    + apply wf_update; [reflexivity | exact Hwf].
    + destruct Hwf as [Hnd Hlt]. unfold store_wf. cbn [document next_id]. split.
      * rewrite List.map_app. cbn [List.map doc_id].
        apply NoDup_app. split; [exact Hnd|]. split; [|apply NoDup_singleton].
        intros i Hi Hin. apply list_elem_of_In in Hi, Hin.
        destruct Hin as [<-|[]]. apply in_map_iff in Hi as (a & Ha & Hi).
        rewrite List.Forall_forall in Hlt. specialize (Hlt a Hi). lia.
      * apply Forall_app. split.
        -- eapply Forall_impl; [exact Hlt|]. cbn. intros a Ha. lia.
        -- constructor; [cbn; lia | constructor].
  - destruct Hwf as [Hnd Hlt]. unfold store_wf, delete_document. cbn [document next_id].
    split.
    + induction (document s) as [|a l IH]; [constructor|].
      cbn [List.filter]. apply NoDup_cons in Hnd as [Ha Hnd].
      apply Forall_cons in Hlt as [_ Hlt]. specialize (IH Hnd Hlt).
      destruct (negb _); [|exact IH]. cbn [List.map]. apply NoDup_cons. split; [|exact IH].
      intros Hin. apply Ha. apply list_elem_of_In in Hin. apply list_elem_of_In.
      apply in_map_iff in Hin as (b & Hb & Hin). apply filter_In in Hin as [Hin _].
      apply in_map_iff. eauto.
    + apply List.Forall_forall. intros d Hd. apply filter_In in Hd as [Hd _].
      rewrite List.Forall_forall in Hlt. exact (Hlt d Hd).
Qed.

Lemma wf_apply_requests rs s : store_wf s -> store_wf (apply_requests rs s).
Proof.
  revert s. induction rs as [|r rs IH]; intros s Hwf; [exact Hwf|].
  apply (IH (apply_request r s)). apply wf_apply_request. exact Hwf.
Qed.

(** ** Requests that leave a row alone *)

Lemma select_some p s d :
  select_by_path p s = Some d -> doc_path d = p /\ In d (document s).
Proof.
  intros H. apply find_some in H as [Hin Hp]. apply String.eqb_eq in Hp. auto.
Qed.

Lemma find_app_some {A} (f : A -> bool) (l l' : list A) a :
  List.find f l = Some a -> List.find f (l ++ l') = Some a.
Proof.
  induction l as [|x l IH]; [discriminate|]. cbn [List.find app].
  destruct (f x); [auto | exact IH].
Qed.

Lemma find_filter_path p q (l : list Document) :
  p <> q ->
  List.find (fun d => String.eqb (doc_path d) p)
            (List.filter (fun d => negb (String.eqb (doc_path d) q)) l) =
  List.find (fun d => String.eqb (doc_path d) p) l.
Proof.
  intros Hne. induction l as [|d l IH]; [reflexivity|]. cbn [List.filter List.find].
  destruct (String.eqb (doc_path d) q) eqn:Eq; cbn [negb].
  - apply String.eqb_eq in Eq.
    replace (String.eqb (doc_path d) p) with false; [exact IH|].
    symmetry. apply String.eqb_neq. congruence.
  - cbn [List.find]. destruct (String.eqb (doc_path d) p); [reflexivity | exact IH].
Qed.

Lemma untouched_apply p d r s :
  select_by_path p s = Some d -> ~ touches r d ->
  select_by_path p (apply_request r s) = Some d.
Proof.
  intros Hsel Hno. pose proof (select_some _ _ _ Hsel) as [Hp _].
  destruct r; cbn [apply_request touches] in *; try exact Hsel.
  - rewrite select_update by reflexivity. rewrite Hsel. cbn [option_map].
    replace (Nat.eqb (doc_id d) i) with false; [reflexivity|].
    symmetry. apply Nat.eqb_neq. exact Hno.
  - unfold upsert_document. destruct (select_by_path p0 s).
    + rewrite select_update by reflexivity. rewrite Hsel. cbn [option_map].
      replace (String.eqb (doc_path d) p0) with false; [reflexivity|].
      symmetry. apply String.eqb_neq. exact Hno.
    + unfold select_by_path in *. cbn [document]. apply find_app_some. exact Hsel.
  - rewrite select_update by reflexivity. rewrite Hsel. cbn [option_map].
    replace (Nat.eqb (doc_id d) i) with false; [reflexivity|].
    symmetry. apply Nat.eqb_neq. exact Hno.
  - unfold select_by_path, delete_document in *. cbn [document].
    rewrite find_filter_path; [exact Hsel | congruence].
Qed.

Lemma untouched_requests p d rs s :
  select_by_path p s = Some d ->
  (forall r, In r rs -> ~ touches r d) ->
  select_by_path p (apply_requests rs s) = Some d.
Proof.
  revert s. induction rs as [|r rs IH]; intros s Hsel Hno; [exact Hsel|].
  apply (IH (apply_request r s)).
  - apply untouched_apply; [exact Hsel|]. apply Hno. left. reflexivity.
  - intros r' Hr'. apply Hno. right. exact Hr'.
Qed.

Lemma id_key (l : list Document) a b :
  NoDup (List.map doc_id l) -> In a l -> In b l -> doc_id a = doc_id b -> a = b.
Proof.
  induction l as [|x l IH]; intros Hnd Ha Hb Hid; [destruct Ha|].
  cbn [List.map] in Hnd. apply NoDup_cons in Hnd as [Hx Hnd].
  assert (forall y, In y l -> doc_id y <> doc_id x) as Hfresh.
  { intros y Hy Heq. apply Hx. apply list_elem_of_In. apply in_map_iff. eauto. }
  destruct Ha as [<-|Ha], Hb as [<-|Hb]; try reflexivity.
  - exfalso. apply (Hfresh b Hb). congruence.
  - exfalso. apply (Hfresh a Ha). congruence.
  - exact (IH Hnd Ha Hb Hid).
Qed.

(** ** A current row stays current *)

Lemma branchOf_skip file s :
  branchOf vault publicDirs file s = Skip <-> upToDate vault publicDirs file s.
Proof.
  unfold branchOf, upToDate, checksum_matches.
  destruct (select_by_path (path file) s) as [d|].
  - destruct (doc_checksum d) as [c|] eqn:Ec.
    + destruct (String.eqb c (checksumOf vault file)) eqn:E.
      * apply String.eqb_eq in E. subst c.
        destruct (Bool.eqb (doc_public d) _) eqn:Eb.
        -- apply Bool.eqb_prop in Eb. split; [intros _; eauto | reflexivity].
        -- apply (proj1 (Bool.eqb_false_iff _ _)) in Eb. split; [discriminate|].
           intros (d' & [= <-] & _ & Hpub). contradiction.
      * apply String.eqb_neq in E. split; [discriminate|].
        intros (d' & [= <-] & Hsum & _). congruence.
    + split; [discriminate|]. intros (d' & [= <-] & Hsum & _). congruence.
  - split; [discriminate|]. intros (d' & Hd & _). discriminate.
Qed.

Lemma branchOf_visibility file s d :
  branchOf vault publicDirs file s = Visibility d ->
  select_by_path (path file) s = Some d /\
  doc_checksum d = Some (checksumOf vault file).
Proof.
  unfold branchOf, checksum_matches.
  destruct (select_by_path (path file) s) as [d'|]; [|discriminate].
  destruct (doc_checksum d') as [c|] eqn:Ec; [|discriminate].
  destruct (String.eqb c (checksumOf vault file)) eqn:E; [|discriminate].
  apply String.eqb_eq in E. subst c.
  destruct (Bool.eqb (doc_public d') _); [discriminate|]. intros [= <-]. auto.
Qed.

Lemma plan_untouched f g s df :
  store_wf s -> path g <> path f ->
  select_by_path (path f) s = Some df ->
  forall r, In r (planOf cfg vault publicDirs g s) -> ~ touches r df.
Proof.
  intros [Hnd Hlt] Hne Hsel r Hr.
  pose proof (select_some _ _ _ Hsel) as [Hp Hin].
  assert (forall dg, select_by_path (path g) s = Some dg -> doc_id df <> doc_id dg)
    as Hother.
  { intros dg Hg Hid. pose proof (select_some _ _ _ Hg) as [Hpg Hing].
    apply (id_key _ _ _ Hnd Hin Hing) in Hid. congruence. }
  assert (doc_id df <> next_id s) as Hfresh.
  { rewrite List.Forall_forall in Hlt. specialize (Hlt df Hin). lia. }
  unfold planOf in Hr. apply in_app_iff in Hr as [Hr|Hr].
  - cbn in Hr. destruct Hr as [<-|[<-|[]]]; cbn; tauto.
  - destruct (branchOf vault publicDirs g s) as [|dg|existing] eqn:Eb.
    + destruct Hr.
    + apply branchOf_visibility in Eb as [Hg _].
      destruct Hr as [<-|[]]. cbn. exact (Hother dg Hg).
    + assert (existing = select_by_path (path g) s) as ->.
      { unfold branchOf in Eb. destruct (checksum_matches _ _).
        - destruct (select_by_path (path g) s) as [dg|];
            [destruct (Bool.eqb (doc_public dg) _)|]; discriminate.
        - congruence. }
      assert (doc_id df <> rowId (select_by_path (path g) s) s) as Hrow.
      { unfold rowId. destruct (select_by_path (path g) s) as [dg|] eqn:Eg;
          [exact (Hother dg eq_refl) | exact Hfresh]. }
      unfold reindexRequests, indexRequests in Hr. rewrite !in_app_iff in Hr.
      destruct Hr as [Hr|[Hr|[Hr|Hr]]].
      * destruct (select_by_path (path g) s); cbn in Hr; [|destruct Hr].
        destruct Hr as [<-|[]]. cbn. tauto.
      * destruct Hr as [<-|[]]. cbn. congruence.
      * apply in_flat_map in Hr as (k & _ & Hr). cbn in Hr.
        destruct Hr as [<-|[<-|[]]]; cbn; tauto.
      * destruct Hr as [<-|[]]. cbn. exact Hrow.
Qed.

Lemma upToDate_frame f g s k :
  store_wf s -> upToDate vault publicDirs f s ->
  upToDate vault publicDirs f
           (apply_requests (take k (planOf cfg vault publicDirs g s)) s).
Proof.
  intros Hwf Hup. destruct (String.eqb (path g) (path f)) eqn:E.
  - apply String.eqb_eq in E. destruct f as [pf], g as [pg]. cbn in E. subst pg.
    unfold planOf. rewrite (proj2 (branchOf_skip _ s) Hup).
    destruct k as [|[|[|k]]]; exact Hup.
  - apply String.eqb_neq in E. destruct Hup as (d & Hsel & Hsum & Hpub).
    exists d. split; [|auto].
    apply untouched_requests; [exact Hsel|].
    intros r Hr. apply in_take in Hr. eapply plan_untouched; eassumption.
Qed.

Lemma synced_up_to_date file s :
  upToDate vault publicDirs file
           (apply_requests (planOf cfg vault publicDirs file s) s).
Proof.
  destruct (branchOf vault publicDirs file s) as [|d|existing] eqn:Eb.
  - unfold planOf. rewrite Eb. apply branchOf_skip. exact Eb.
  - unfold planOf. rewrite Eb. apply branchOf_visibility in Eb as [Hsel Hsum].
    exists (set_public (isFileInDirectories (path file) publicDirs) d).
    split; [|auto].
    cbn [app]. change (apply_requests (?a :: ?b :: ?c :: nil) s) with (apply_request c s).
    cbn [apply_request]. rewrite select_update by reflexivity.
    rewrite Hsel. cbn [option_map]. rewrite Nat.eqb_refl. reflexivity.
  - destruct (branchOf_cases file s) as [[[Hb|[d Hb]] _]|[Hb Hsum]]; try congruence.
    apply checksum_matches_stored in Hsum.
    rewrite planOf_reindex by exact Hsum.
    pose proof (reindex_store file (select_by_path (path file) s)
                  (rowId (select_by_path (path file) s) s)
                  (length ([SelectDocument (path file); CachedRead (path file)] ++
                           deleteRequests (select_by_path (path file) s) ++
                           indexRequests cfg vault publicDirs file
                             (rowId (select_by_path (path file) s) s))) s) as H.
    rewrite take_ge in H by lia. rewrite H. clear H. rewrite length_reindex.
    replace (_ <=? 2) with false by (symmetry; apply Nat.leb_gt; lia).
    assert (forall s1 m,
              select_by_path (path file) s1 = select_by_path (path file) s ->
              next_id s1 = next_id s ->
              2 * length (chunksOf cfg vault file) + 2 <= m ->
              upToDate vault publicDirs file
                (indexed cfg vault publicDirs file
                         (rowId (select_by_path (path file) s) s) m s1))
      as Hidx.
    { intros s1 m Hs1 Hn1 Hm. unfold indexed.
      replace (m =? 0) with false by (symmetry; apply Nat.eqb_neq; lia).
      replace (_ <=? m) with true by (symmetry; apply Nat.leb_le; lia).
      destruct (upsert_answer None (path file) (metaOf vault file)
                  (isFileInDirectories (path file) publicDirs) s1)
        as (d & Hsel & Hid & _ & _ & _ & Hpub).
      exists (set_checksum (Some (checksumOf vault file)) d). split; [|auto].
      rewrite select_update by reflexivity.
      change (select_by_path (path file) (with_sections ?rows ?s0))
        with (select_by_path (path file) s0).
      rewrite Hsel. cbn [option_map].
      replace (Nat.eqb (doc_id d) (rowId (select_by_path (path file) s) s)) with true;
        [reflexivity|].
      symmetry. apply Nat.eqb_eq. rewrite Hid, Hs1. unfold rowId. rewrite Hn1.
      reflexivity. }
    destruct (select_by_path (path file) s) as [d|] eqn:Es; cbn [deleteRequests length].
    + apply Hidx; [exact Es | reflexivity | lia].
    + apply Hidx; [exact Es | reflexivity | lia].
Qed.

(** ** The whole pass *)

Lemma for_each_syncFile files w :
  for_each files (syncFile cfg vault publicDirs) w =
  (Ok tt, afterFiles cfg vault publicDirs files w).
Proof.
  revert w. induction files as [|f files IH]; intros w; [reflexivity|].
  cbn [for_each]. unfold bind. rewrite syncFile_spec. apply IH.
Qed.

Lemma generateEmbeddings_spec w :
  let files := liveFiles vault excludeDirs in
  let w1 := afterFiles cfg vault publicDirs files (set_result zeroResult w) in
  let w2 := snd (reconcile files w1) in
  generateEmbeddings cfg vault excludeDirs publicDirs w = (Ok (embeddingResult w2), w2).
Proof.
  cbn zeta. unfold generateEmbeddings. mstep. unfold modify_result.
  rewrite for_each_syncFile. rewrite reconcile_spec.
  destruct (faults _ _); reflexivity.
Qed.

(** C4. A pass ends with the reconciliation over the live files, run
    from the state the loop over them left, and the reconciliation never
    throws.  When the listing of the stored documents fails, one error is
    counted and nothing else changes.  When it is served, a deletion is
    requested for every stored document whose path no live file has, in
    table order, whether or not an earlier deletion failed; each is
    counted in deleteCount and each failed one in errorCount; nothing is
    added to the store, the rows of live files stay, a row whose deletion
    was served is gone, and when all were served every row left belongs
    to a live file. *)
Theorem reconciliation files w :
  let n := length (log w) in
  let c := embeddingResult w in
  let run := reconcile files w in
  let gone := dangling files (document (store w)) in
  let flags := outcomes (faults w) (S n) (length gone) in
  fst run = Ok tt /\
  (faults w n = true ->
   snd run =
     {| store := store w;
        log := log w ++ [(SelectAllDocuments, false)];
        embeddingResult :=
          {| successCount := successCount c; updatedCount := updatedCount c;
             errorCount := errorCount c + 1; deleteCount := deleteCount c |};
        faults := faults w |}) /\
  (faults w n = false ->
   log (snd run) = log w ++ (SelectAllDocuments, true) :: deletions gone flags /\
   embeddingResult (snd run) =
     {| successCount := successCount c; updatedCount := updatedCount c;
        errorCount := errorCount c + failures flags;
        deleteCount := deleteCount c + length gone |} /\
   (forall d, In d (document (store (snd run))) -> In d (document (store w))) /\
   (forall d, In d (document (store w)) -> isLive files d = true ->
              In d (document (store (snd run)))) /\
   (forall j g, gone !! j = Some g -> faults w (S n + j) = false ->
                forall d, In d (document (store (snd run))) ->
                          doc_path d <> doc_path g) /\
   ((forall j, j < length gone -> faults w (S n + j) = false) ->
    forall d, In d (document (store (snd run))) -> isLive files d = true)) /\
  (forall w0,
     let live := liveFiles vault excludeDirs in
     let w1 := snd (for_each live (syncFile cfg vault publicDirs)
                             (set_result zeroResult w0)) in
     generateEmbeddings cfg vault excludeDirs publicDirs w0 =
     (Ok (embeddingResult (snd (reconcile live w1))), snd (reconcile live w1))).
Proof.
  intros n c run gone flags.
  assert (forall w0,
            let live := liveFiles vault excludeDirs in
            let w1 := snd (for_each live (syncFile cfg vault publicDirs)
                                    (set_result zeroResult w0)) in
            generateEmbeddings cfg vault excludeDirs publicDirs w0 =
            (Ok (embeddingResult (snd (reconcile live w1))), snd (reconcile live w1)))
    as Hpass.
  { intros w0 live w1. subst w1. rewrite for_each_syncFile.
    apply generateEmbeddings_spec. }
  subst run. rewrite reconcile_spec. fold n.
  destruct (faults w n) eqn:E; cbn [fst snd].
  - split; [reflexivity|]. split; [reflexivity|]. split; [discriminate | exact Hpass].
  - split; [reflexivity|]. split; [discriminate|]. split; [|exact Hpass]. intros _.
    unfold reconciled. cbn [store log embeddingResult faults served apply_request].
    rewrite length_app. cbn [length]. rewrite Nat.add_1_r. fold n gone flags.
    rewrite <- app_assoc. cbn [app].
    split; [reflexivity|]. split; [reflexivity|].
    assert (forall j g, gone !! j = Some g -> faults w (S n + j) = false ->
                        In (g, true) (combine gone flags)) as Hserved.
    { intros j g Hg Hf. eapply in_combine_lookup; [exact Hg|].
      subst flags. rewrite outcomes_lookup by (eapply lookup_lt_Some; exact Hg).
      rewrite Hf. reflexivity. }
    assert (forall j g, gone !! j = Some g -> faults w (S n + j) = false ->
                        forall d, In d (document
                                          (apply_requests
                                             (servedRequests (deletions gone flags))
                                             (store w))) ->
                                  doc_path d <> doc_path g) as Hgone.
    { intros j g Hg Hf d Hd. apply documents_after_deletions in Hd as [_ Hd].
      apply Hd. eapply Hserved; eassumption. }
    split; [intros d Hd; apply documents_after_deletions in Hd; tauto|].
    split.
    { intros d Hd Hlive. apply documents_after_deletions. split; [exact Hd|].
      intros g Hg Hp. apply in_combine_l in Hg. subst gone. unfold dangling in Hg.
      apply filter_In in Hg as [_ Hg]. apply negb_true_iff in Hg.
      rewrite (isLive_path files d g Hp) in Hlive. congruence. }
    split; [exact Hgone|].
    intros Hall d Hd. destruct (isLive files d) eqn:El; [reflexivity|]. exfalso.
    assert (In d gone) as Hg.
    { subst gone. unfold dangling. apply filter_In. split.
      - apply documents_after_deletions in Hd. tauto.
      - rewrite El. reflexivity. }
    apply list_elem_of_In, list_elem_of_lookup in Hg as [j Hj].
    apply (Hgone j d Hj (Hall j (lookup_lt_Some _ _ _ Hj)) d Hd). reflexivity.
Qed.

Lemma afterFile_store file w :
  store (afterFile cfg vault publicDirs file w) =
  apply_requests (take (servedOf cfg vault publicDirs file w)
                       (planOf cfg vault publicDirs file (store w))) (store w).
Proof. reflexivity. Qed.

Lemma afterFile_errors file w :
  errorCount (embeddingResult (afterFile cfg vault publicDirs file w)) =
  errorCount (embeddingResult w) +
  (if servedOf cfg vault publicDirs file w =?
      length (planOf cfg vault publicDirs file (store w))
   then 0 else 1).
Proof.
  unfold afterFile. cbn [embeddingResult set_result].
  destruct (_ =? _); [|cbn; reflexivity].
  destruct (branchOf vault publicDirs file (store w)); cbn; lia.
Qed.

Lemma afterFiles_cons f files w :
  afterFiles cfg vault publicDirs (f :: files) w =
  afterFiles cfg vault publicDirs files (afterFile cfg vault publicDirs f w).
Proof. reflexivity. Qed.

Lemma afterFiles_errors_le files w :
  errorCount (embeddingResult w) <=
  errorCount (embeddingResult (afterFiles cfg vault publicDirs files w)).
Proof.
  revert w. induction files as [|f files IH]; intros w; [cbn; lia|].
  rewrite afterFiles_cons.
  specialize (IH (afterFile cfg vault publicDirs f w)).
  rewrite afterFile_errors in IH. destruct (_ =? _) in IH; lia.
Qed.

Lemma afterFile_wf file w :
  store_wf (store w) -> store_wf (store (afterFile cfg vault publicDirs file w)).
Proof. intros H. rewrite afterFile_store. apply wf_apply_requests. exact H. Qed.

Lemma afterFiles_frame f files w :
  store_wf (store w) -> upToDate vault publicDirs f (store w) ->
  upToDate vault publicDirs f (store (afterFiles cfg vault publicDirs files w)) /\
  store_wf (store (afterFiles cfg vault publicDirs files w)).
Proof.
  revert w. induction files as [|g files IH]; intros w Hwf Hup; [auto|].
  rewrite afterFiles_cons.
  apply IH; [apply afterFile_wf; exact Hwf|].
  rewrite afterFile_store. apply upToDate_frame; assumption.
Qed.

Lemma afterFiles_up_to_date files w :
  store_wf (store w) ->
  errorCount (embeddingResult (afterFiles cfg vault publicDirs files w)) =
    errorCount (embeddingResult w) ->
  (forall f, In f files ->
             upToDate vault publicDirs f
                      (store (afterFiles cfg vault publicDirs files w))) /\
  store_wf (store (afterFiles cfg vault publicDirs files w)).
Proof.
  revert w. induction files as [|g files IH]; intros w Hwf Herr.
  - split; [intros f [] | exact Hwf].
  - rewrite afterFiles_cons in *.
    pose proof (afterFiles_errors_le files (afterFile cfg vault publicDirs g w)) as Hle.
    pose proof (afterFile_errors g w) as Hg.
    destruct (servedOf cfg vault publicDirs g w =?
              length (planOf cfg vault publicDirs g (store w))) eqn:Ek; [|lia].
    apply Nat.eqb_eq in Ek.
    destruct (IH (afterFile cfg vault publicDirs g w)) as [Hall Hwf'].
    { apply afterFile_wf. exact Hwf. }
    { lia. }
    split; [|exact Hwf']. intros f [<-|Hf]; [|exact (Hall f Hf)].
    apply afterFiles_frame; [apply afterFile_wf; exact Hwf|].
    rewrite afterFile_store, Ek, take_ge by lia. apply synced_up_to_date.
Qed.

Lemma served_count_none f start n :
  (forall j, start <= j -> f j = false) -> served_count f start n = n.
Proof.
  intros H. apply served_count_all. intros j _. apply H. lia.
Qed.

Lemma idle_files files w :
  (forall f, In f files -> upToDate vault publicDirs f (store w)) ->
  let w' := afterFiles cfg vault publicDirs files w in
  store w' = store w /\ faults w' = faults w /\
  length (log w) <= length (log w') /\
  updatedCount (embeddingResult w') = updatedCount (embeddingResult w) /\
  deleteCount (embeddingResult w') = deleteCount (embeddingResult w) /\
  ((forall n, length (log w) <= n -> faults w n = false) ->
   errorCount (embeddingResult w') = errorCount (embeddingResult w) /\
   successCount (embeddingResult w') = successCount (embeddingResult w) + length files).
Proof.
  revert w. induction files as [|f files IH]; intros w Hup; cbn zeta.
  - cbn. repeat split; lia.
  - rewrite afterFiles_cons.
    assert (upToDate vault publicDirs f (store w)) as Hf by (apply Hup; left; reflexivity).
    apply branchOf_skip in Hf.
    assert (planOf cfg vault publicDirs f (store w) =
            [SelectDocument (path f); CachedRead (path f)]) as Hplan.
    { unfold planOf. rewrite Hf. reflexivity. }
    set (w1 := afterFile cfg vault publicDirs f w).
    assert (store w1 = store w) as Hs1.
    { subst w1. rewrite afterFile_store, Hplan.
      destruct (servedOf cfg vault publicDirs f w) as [|[|[|k]]]; reflexivity. }
    assert (faults w1 = faults w) as Hf1 by reflexivity.
    assert (length (log w) <= length (log w1)) as Hl1.
    { subst w1. unfold afterFile. cbn [log set_result ran]. rewrite length_app. lia. }
    assert (updatedCount (embeddingResult w1) = updatedCount (embeddingResult w) /\
            deleteCount (embeddingResult w1) = deleteCount (embeddingResult w)) as [Hu1 Hd1].
    { subst w1. unfold afterFile. cbn [embeddingResult set_result]. rewrite Hf.
      destruct (_ =? _); cbn; auto. }
    specialize (IH w1). cbn zeta in IH.
    destruct IH as (Hs & Hfa & Hl & Hu & Hd & Hok).
    { intros g Hg. rewrite Hs1. apply Hup. right. exact Hg. }
    split; [congruence|]. split; [congruence|]. split; [lia|].
    split; [congruence|]. split; [congruence|].
    intros Hnone.
    assert (servedOf cfg vault publicDirs f w = 2) as Hk.
    { unfold servedOf. rewrite Hplan. apply served_count_none. exact Hnone. }
    assert (errorCount (embeddingResult w1) = errorCount (embeddingResult w) /\
            successCount (embeddingResult w1) = successCount (embeddingResult w) + 1)
      as [He1 Hc1].
    { subst w1. unfold afterFile. cbn [embeddingResult set_result].
      rewrite Hk, Hplan, Hf. cbn. auto. }
    destruct Hok as [He Hc].
    { intros n Hn. rewrite Hf1. apply Hnone. lia. }
    cbn [length]. split; lia.
Qed.

Lemma live_of_file files f (g : Document) :
  In f files -> doc_path g = path f -> isLive files g = true.
Proof.
  intros Hin Hp. unfold isLive.
  destruct (List.find _ files) eqn:E; [reflexivity|].
  eapply find_none in E; [|exact Hin]. cbn in E.
  rewrite Hp, String.eqb_refl in E. discriminate.
Qed.

Lemma in_served_deletions (gone : list Document) flags r :
  In r (servedRequests (deletions gone flags)) ->
  exists g, In g gone /\ r = DeleteDocument (doc_path g).
Proof.
  unfold servedRequests, deletions. intros H.
  apply in_map_iff in H as ([r' b] & <- & H). apply filter_In in H as [H _].
  apply in_combine_l in H. apply in_map_iff in H as (g & <- & Hg). eauto.
Qed.

Lemma reconcile_frame files f w :
  In f files -> upToDate vault publicDirs f (store w) ->
  upToDate vault publicDirs f (store (snd (reconcile files w))).
Proof.
  intros Hin Hup. rewrite reconcile_spec.
  destruct (faults w (length (log w))); [exact Hup|].
  cbn [snd]. unfold reconciled. cbn [store served apply_request].
  destruct Hup as (d & Hsel & Hrest). exists d. split; [|exact Hrest].
  apply untouched_requests; [exact Hsel|].
  intros r Hr Ht. apply in_served_deletions in Hr as (g & Hg & ->).
  cbn in Ht. apply select_some in Hsel as [Hp _].
  unfold dangling in Hg. apply filter_In in Hg as [_ Hg].
  rewrite (live_of_file files f g Hin) in Hg by congruence. discriminate.
Qed.

Lemma failures_none f start n :
  (forall j, start <= j -> f j = false) -> failures (outcomes f start n) = 0.
Proof.
  intros H. unfold failures, outcomes.
  induction (seq 0 n) as [|j l IH]; [reflexivity|].
  cbn [List.map List.filter]. rewrite H by lia. exact IH.
Qed.

Lemma reconcile_counts files w :
  let w' := snd (reconcile files w) in
  fst (reconcile files w) = Ok tt /\
  updatedCount (embeddingResult w') = updatedCount (embeddingResult w) /\
  successCount (embeddingResult w') = successCount (embeddingResult w) /\
  errorCount (embeddingResult w) <= errorCount (embeddingResult w') /\
  ((forall n, length (log w) <= n -> faults w n = false) ->
   errorCount (embeddingResult w') = errorCount (embeddingResult w)).
Proof.
  cbn zeta. rewrite reconcile_spec.
  destruct (faults w (length (log w))) eqn:E; cbn [fst snd].
  - cbn. repeat split; try lia. intros H. rewrite H in E by lia. discriminate.
  - unfold reconciled. cbn. repeat split; try lia.
    intros H. rewrite failures_none; [lia|].
    intros j Hj. apply H. rewrite length_app in Hj. lia.
Qed.

(** ** C7 *)

(** C7. From a store whose row ids are a key: when a pass returns with
    errorCount 0, every live file takes the skip branch in a second pass
    over the same vault, excluded and public directories, and that pass
    returns updatedCount 0; it returns errorCount 0, with every live file
    counted in successCount, when none of its requests fails. *)
Theorem second_pass_is_idle w c1 w1 c2 w2 :
  store_wf (store w) ->
  generateEmbeddings cfg vault excludeDirs publicDirs w = (Ok c1, w1) ->
  errorCount c1 = 0 ->
  generateEmbeddings cfg vault excludeDirs publicDirs w1 = (Ok c2, w2) ->
  (forall f, In f (liveFiles vault excludeDirs) ->
             branchOf vault publicDirs f (store w1) = Skip) /\
  updatedCount c2 = 0 /\
  ((forall n, length (log w1) <= n -> faults w1 n = false) ->
   errorCount c2 = 0 /\
   successCount c2 = length (liveFiles vault excludeDirs)).
Proof.
  intros Hwf H1 Herr H2.
  rewrite generateEmbeddings_spec in H1, H2. cbn zeta in H1, H2.
  set (files := liveFiles vault excludeDirs) in *.
  injection H1 as Hr1 Hw1. injection H2 as Hr2 Hw2.
  set (wa := afterFiles cfg vault publicDirs files (set_result zeroResult w)) in *.
  pose proof (reconcile_counts files wa) as (_ & _ & _ & Hle & _). cbn zeta in Hle.
  rewrite Hw1 in Hle. rewrite <- Hr1, Hw1 in Herr.
  pose proof (afterFiles_errors_le files (set_result zeroResult w)) as Hle0.
  fold wa in Hle0. cbn [embeddingResult set_result zeroResult errorCount] in Hle0.
  destruct (afterFiles_up_to_date files (set_result zeroResult w)) as [Hall _].
  { exact Hwf. }
  { fold wa. cbn [embeddingResult set_result zeroResult errorCount]. lia. }
  fold wa in Hall.
  assert (forall f, In f files -> upToDate vault publicDirs f (store w1)) as Hup.
  { intros f Hf. rewrite <- Hw1. apply reconcile_frame; [exact Hf | exact (Hall f Hf)]. }
  split; [intros f Hf; apply branchOf_skip; exact (Hup f Hf)|].
  pose proof (idle_files files (set_result zeroResult w1) Hup) as Hidle.
  cbn zeta in Hidle.
  set (wb := afterFiles cfg vault publicDirs files (set_result zeroResult w1)) in *.
  destruct Hidle as (_ & Hfa & Hlen & Hu & _ & Hok).
  pose proof (reconcile_counts files wb) as (_ & Hu' & Hs' & _ & He'). cbn zeta in *.
  rewrite Hw2 in *. rewrite <- Hr2.
  cbn [embeddingResult set_result zeroResult updatedCount errorCount successCount
       log faults] in *.
  split; [lia|]. intros Hnone. destruct (Hok Hnone) as [He Hc].
  rewrite He'; [lia|]. intros n Hn. rewrite Hfa. apply Hnone. lia.
Qed.

(** ** C6 *)

Lemma plan_paths f s r p :
  In r (planOf cfg vault publicDirs f s) -> request_path r = Some p -> p = path f.
Proof.
  unfold planOf, reindexRequests, indexRequests, deleteRequests.
  intros Hin Hp. rewrite in_app_iff in Hin. destruct Hin as [Hin|Hin].
  - cbn in Hin. destruct Hin as [<-|[<-|[]]]; cbn in Hp; congruence.
  - destruct (branchOf vault publicDirs f s) as [|d|existing].
    + destruct Hin.
    + destruct Hin as [<-|[]]. discriminate.
    + rewrite !in_app_iff in Hin. destruct Hin as [Hin|[Hin|[Hin|Hin]]].
      * destruct existing; cbn in Hin; [|destruct Hin].
        destruct Hin as [<-|[]]. discriminate.
      * destruct Hin as [<-|[]]. cbn in Hp. congruence.
      * apply in_flat_map in Hin as (k & _ & Hin). cbn in Hin.
        destruct Hin as [<-|[<-|[]]]; discriminate.
      * destruct Hin as [<-|[]]. discriminate.
Qed.

Lemma afterFile_log f w r ok :
  In (r, ok) (log (afterFile cfg vault publicDirs f w)) ->
  In (r, ok) (log w) \/ In r (planOf cfg vault publicDirs f (store w)).
Proof.
  unfold afterFile. cbn [log set_result ran]. rewrite !in_app_iff.
  intros [H|[H|H]]; [left; exact H | right | right].
  - apply in_map_iff in H as (r' & [= -> _] & H). apply in_take in H. exact H.
  - destruct (_ !! _) as [r'|] eqn:E; [|destruct H].
    destruct H as [[= -> _]|[]]. apply list_elem_of_In.
    apply list_elem_of_lookup. eauto.
Qed.

Lemma afterFiles_log files w r ok :
  In (r, ok) (log (afterFiles cfg vault publicDirs files w)) ->
  In (r, ok) (log w) \/
  exists f, In f files /\ forall p, request_path r = Some p -> p = path f.
Proof.
  revert w. induction files as [|f files IH]; intros w H; [left; exact H|].
  rewrite afterFiles_cons in H. apply IH in H as [H|(g & Hg & H)].
  - apply afterFile_log in H as [H|H]; [left; exact H|].
    right. exists f. split; [left; reflexivity|].
    intros p Hp. eapply plan_paths; eassumption.
  - right. exists g. split; [right; exact Hg | exact H].
Qed.

Lemma reconcile_log files w r ok :
  In (r, ok) (log (snd (reconcile files w))) ->
  In (r, ok) (log w) \/ request_path r = None.
Proof.
  rewrite reconcile_spec. destruct (faults w (length (log w))); cbn [snd].
  - cbn. rewrite in_app_iff. intros [H|[[= <- _]|[]]]; auto.
  - unfold reconciled, deletions. cbn [log served]. rewrite !in_app_iff.
    intros [[H|[[= <- _]|[]]]|H]; auto.
    apply in_combine_l in H. apply in_map_iff in H as (g & <- & _). auto.
Qed.

(** C6. A markdown file whose normalized path starts with a normalized
    excluded directory is not among the files the pass goes over, and no
    lookup, read or upsert of the pass names a path of such a file: each
    names the path of a vault file that no excluded directory is a prefix
    of.  In a store whose row ids are a key, the turn of a live file
    leaves the row of an excluded file as it is.  A file whose requests
    were all served has a row whose public flag is the computed
    visibility, which is true exactly when some normalized public
    directory is a prefix of the normalized path. *)
Theorem exclusion_and_visibility w :
  let run := generateEmbeddings cfg vault excludeDirs publicDirs w in
  (forall file,
     In file (liveFiles vault excludeDirs) <->
     In file (getMarkdownFiles vault) /\
     isFileInDirectories (path file) excludeDirs = false) /\
  (forall r ok p,
     In (r, ok) (log (snd run)) -> request_path r = Some p ->
     In (r, ok) (log w) \/
     isFileInDirectories p excludeDirs = false /\
     exists file, In file (getMarkdownFiles vault) /\ path file = p) /\
  (forall excluded live w0 d,
     isFileInDirectories (path excluded) excludeDirs = true ->
     In live (liveFiles vault excludeDirs) ->
     store_wf (store w0) ->
     select_by_path (path excluded) (store w0) = Some d ->
     select_by_path (path excluded)
                    (store (snd (syncFile cfg vault publicDirs live w0))) = Some d) /\
  (forall file w0,
     (forall n, n < length (planOf cfg vault publicDirs file (store w0)) ->
                faults w0 (length (log w0) + n) = false) ->
     exists d,
       select_by_path (path file) (store (snd (syncFile cfg vault publicDirs file w0)))
         = Some d /\
       doc_public d = isFileInDirectories (path file) publicDirs) /\
  (forall p dirs,
     isFileInDirectories p dirs = true <->
     exists dir, In dir dirs /\ String.prefix (normalize dir) (normalize p) = true).
Proof.
  intros run.
  assert (forall file,
            In file (liveFiles vault excludeDirs) <->
            In file (getMarkdownFiles vault) /\
            isFileInDirectories (path file) excludeDirs = false) as Hlive.
  { intros file. unfold liveFiles. rewrite filter_In, negb_true_iff. reflexivity. }
  split; [exact Hlive|]. split; [|split; [|split]].
  - intros r ok p Hin Hp. subst run. rewrite generateEmbeddings_spec in Hin.
    cbn [snd] in Hin. apply reconcile_log in Hin as [Hin|Hin]; [|congruence].
    apply afterFiles_log in Hin as [Hin|(f & Hf & Hpath)]; [left; exact Hin|].
    right. apply Hlive in Hf as [Hf Hex]. rewrite (Hpath p Hp). eauto.
  - intros excluded live w0 d Hex Hin Hwf Hsel. apply Hlive in Hin as [_ Hin].
    rewrite syncFile_spec. cbn [snd]. rewrite afterFile_store.
    apply untouched_requests; [exact Hsel|].
    intros r Hr. apply in_take in Hr.
    eapply plan_untouched; [exact Hwf | | exact Hsel | exact Hr].
    intros Hp. rewrite Hp in Hin. congruence.
  - intros file w0 Hall. rewrite syncFile_all_served by exact Hall. cbn [store].
    destruct (synced_up_to_date file (store w0)) as (d & Hsel & _ & Hpub). eauto.
  - intros p dirs. unfold isFileInDirectories. rewrite existsb_exists. split.
    + intros (x & Hx & Hpre). apply in_map_iff in Hx as (dir & <- & Hdir). eauto.
    + intros (dir & Hdir & Hpre). exists (normalize dir). split; [|exact Hpre].
      apply in_map. exact Hdir.
Qed.

(** ** The counters of a pass *)

Lemma afterFile_counts file w :
  let c := embeddingResult w in
  let c' := embeddingResult (afterFile cfg vault publicDirs file w) in
  (successCount c' = successCount c + 1 /\ errorCount c' = errorCount c /\
   updatedCount c <= updatedCount c' <= updatedCount c + 1 \/
   successCount c' = successCount c /\ errorCount c' = errorCount c + 1 /\
   updatedCount c' = updatedCount c) /\
  deleteCount c' = deleteCount c.
Proof.
  unfold afterFile. cbn [embeddingResult set_result].
  destruct (_ =? _).
  - destruct (branchOf vault publicDirs file (store w)); cbn; split; try lia; left; lia.
  - cbn. split; [right|]; lia.
Qed.

Lemma afterFiles_counts files w :
  let c := embeddingResult w in
  let c' := embeddingResult (afterFiles cfg vault publicDirs files w) in
  exists e,
    successCount c' + e = successCount c + length files /\
    errorCount c' = errorCount c + e /\
    updatedCount c <= updatedCount c' /\
    updatedCount c' + successCount c <= updatedCount c + successCount c' /\
    deleteCount c' = deleteCount c.
Proof.
  revert w. induction files as [|f files IH]; intros w; cbn zeta.
  - exists 0. cbn. lia.
  - rewrite afterFiles_cons.
    specialize (IH (afterFile cfg vault publicDirs f w)). cbn zeta in IH.
    destruct IH as (e & H1 & H2 & H3 & H4 & H5).
    pose proof (afterFile_counts f w) as H. cbn zeta in H.
    destruct H as [[(A1 & A2 & A3)|(A1 & A2 & A3)] A4].
    + exists e. cbn [length]. lia.
    + exists (S e). cbn [length]. lia.
Qed.

Lemma plan_requests f s r :
  In r (planOf cfg vault publicDirs f s) ->
  match r with
  | DeleteDocument _ | SelectAllDocuments => False
  | UpsertDocument _ p _ _ => p = path f
  | _ => True
  end.
Proof.
  unfold planOf, reindexRequests, indexRequests, deleteRequests.
  intros Hin. rewrite in_app_iff in Hin. destruct Hin as [Hin|Hin].
  - cbn in Hin. destruct Hin as [<-|[<-|[]]]; exact I.
  - destruct (branchOf vault publicDirs f s) as [|d|existing].
    + destruct Hin.
    + destruct Hin as [<-|[]]. exact I.
    + rewrite !in_app_iff in Hin. destruct Hin as [Hin|[Hin|[Hin|Hin]]].
      * destruct existing; cbn in Hin; [|destruct Hin].
        destruct Hin as [<-|[]]. exact I.
      * destruct Hin as [<-|[]]. reflexivity.
      * apply in_flat_map in Hin as (k & _ & Hin). cbn in Hin.
        destruct Hin as [<-|[<-|[]]]; exact I.
      * destruct Hin as [<-|[]]. exact I.
Qed.

Lemma dangling_update files (sel : Document -> bool) (f : Document -> Document) l :
  (forall d, doc_path (f d) = doc_path d) ->
  List.map doc_path (dangling files (List.map (fun d => if sel d then f d else d) l)) =
  List.map doc_path (dangling files l).
Proof.
  intros Hf. induction l as [|d l IH]; [reflexivity|].
  cbn [List.map]. rewrite !dangling_cons.
  assert (doc_path (if sel d then f d else d) = doc_path d) as Hp
    by (destruct (sel d); [apply Hf | reflexivity]).
  rewrite (isLive_path files _ d Hp).
  destruct (isLive files d); [exact IH|]. cbn [List.map]. rewrite Hp, IH. reflexivity.
Qed.

Lemma dangling_apply files f r s0 s :
  In f files -> In r (planOf cfg vault publicDirs f s0) ->
  List.map doc_path (dangling files (document (apply_request r s))) =
  List.map doc_path (dangling files (document s)).
Proof.
  intros Hf Hr. apply plan_requests in Hr.
  destruct r; cbn [apply_request]; try reflexivity; try contradiction.
  - apply dangling_update. reflexivity.
  - subst p. unfold upsert_document. destruct (select_by_path (path f) s).
    + apply dangling_update. reflexivity.
    + cbn [document]. unfold dangling. rewrite List.filter_app. cbn [List.filter].
      unfold dangling. rewrite (live_of_file files f) by (assumption || reflexivity).
      cbn [negb]. rewrite app_nil_r. reflexivity.
  - apply dangling_update. reflexivity.
Qed.

Lemma dangling_requests files f s0 rs s :
  In f files -> (forall r, In r rs -> In r (planOf cfg vault publicDirs f s0)) ->
  List.map doc_path (dangling files (document (apply_requests rs s))) =
  List.map doc_path (dangling files (document s)).
Proof.
  intros Hf. revert s. induction rs as [|r rs IH]; intros s Hrs; [reflexivity|].
  change (apply_requests (r :: rs) s) with (apply_requests rs (apply_request r s)).
  rewrite IH by (intros r' Hr'; apply Hrs; right; exact Hr').
  eapply dangling_apply; [exact Hf|]. apply Hrs. left. reflexivity.
Qed.

Lemma afterFiles_dangling live files w :
  (forall f, In f files -> In f live) ->
  List.map doc_path
    (dangling live (document (store (afterFiles cfg vault publicDirs files w)))) =
  List.map doc_path (dangling live (document (store w))).
Proof.
  revert w. induction files as [|f files IH]; intros w Hin; [reflexivity|].
  rewrite afterFiles_cons.
  rewrite IH by (intros g Hg; apply Hin; right; exact Hg).
  rewrite afterFile_store.
  eapply dangling_requests; [apply Hin; left; reflexivity|].
  intros r Hr. apply in_take in Hr. exact Hr.
Qed.

Lemma failures_le flags : failures flags <= length flags.
Proof. unfold failures. apply List.filter_length_le. Qed.

Lemma length_outcomes f start n : length (outcomes f start n) = n.
Proof. unfold outcomes. rewrite length_map, length_seq. reflexivity. Qed.

(** One pass, read off the state [w] it starts in: the state the loop
    over the live files ends in, and what the reconciliation adds. *)
Lemma pass_summary w :
  let live := liveFiles vault excludeDirs in
  let wa := afterFiles cfg vault publicDirs live (set_result zeroResult w) in
  let gone := dangling live (document (store w)) in
  let run := generateEmbeddings cfg vault excludeDirs publicDirs w in
  let c := embeddingResult (snd run) in
  let e := errorCount (embeddingResult wa) in
  run = (Ok c, snd (reconcile live wa)) /\
  successCount c + e = length live /\
  updatedCount c <= successCount c /\
  length (dangling live (document (store wa))) = length gone /\
  (faults wa (length (log wa)) = true /\ errorCount c = e + 1 /\ deleteCount c = 0 \/
   faults wa (length (log wa)) = false /\
   errorCount c =
     e + failures (outcomes (faults wa) (S (length (log wa))) (length gone)) /\
   deleteCount c = length gone).
Proof.
  intros live wa gone run c e. subst c run.
  rewrite generateEmbeddings_spec. cbn zeta. fold live. fold wa. cbn [snd].
  split; [reflexivity|].
  pose proof (afterFiles_counts live (set_result zeroResult w)) as H. cbn zeta in H.
  fold wa in H. destruct H as (e' & H1 & H2 & H3 & H4 & H5).
  cbn [embeddingResult set_result zeroResult successCount errorCount updatedCount
       deleteCount] in H1, H2, H3, H4, H5.
  assert (length (dangling live (document (store wa))) = length gone) as Hgone.
  { subst wa gone. rewrite <- (length_map doc_path).
    rewrite afterFiles_dangling by auto. rewrite length_map. reflexivity. }
  rewrite reconcile_spec.
  destruct (faults wa (length (log wa))) eqn:E; cbn [snd].
  - cbn [embeddingResult set_result count_error successCount errorCount updatedCount
         deleteCount].
    fold e. repeat split; try lia; left; repeat split; lia.
  - unfold reconciled.
    cbn [embeddingResult set_result successCount errorCount updatedCount deleteCount
         served store log faults apply_request].
    rewrite length_app. cbn [length]. rewrite Nat.add_1_r. rewrite Hgone.
    fold e. repeat split; try lia; right; repeat split; lia.
Qed.

(** X1. Whatever fails, a pass returns its counters.  Every live file is
    counted once, as a success or as an error of the loop over the files,
    and an update is a success.  The reconciliation then asks for the
    stored documents.  When that request fails, it is the last of the
    pass, one more error is counted and deleteCount is zero.  When it is
    served, one deletion is requested for each document whose path no
    live file had when the pass began, in table order and nothing else;
    deleteCount is the number of those documents and errorCount grows by
    the number of deletions that fail. *)
Theorem pass_counts w :
  let live := liveFiles vault excludeDirs in
  let loop :=
    snd (for_each live (syncFile cfg vault publicDirs) (set_result zeroResult w)) in
  let listing := length (log loop) in
  let run := generateEmbeddings cfg vault excludeDirs publicDirs w in
  let c := embeddingResult (snd run) in
  let e := errorCount (embeddingResult loop) in
  let gone := dangling live (document (store w)) in
  let flags := outcomes (faults loop) (S listing) (length gone) in
  fst run = Ok c /\
  successCount c + e = length live /\
  updatedCount c <= successCount c /\
  (faults loop listing = true ->
   log (snd run) = log loop ++ [(SelectAllDocuments, false)] /\
   errorCount c = e + 1 /\ deleteCount c = 0) /\
  (faults loop listing = false ->
   log (snd run) =
     log loop ++
     (SelectAllDocuments, true) ::
     combine (List.map (fun d => DeleteDocument (doc_path d)) gone) flags /\
   errorCount c = e + failures flags /\ failures flags <= length gone /\
   deleteCount c = length gone).
Proof.
  intros live loop listing run c e gone flags.
  assert (loop = afterFiles cfg vault publicDirs live (set_result zeroResult w)) as Hloop
    by (subst loop; rewrite for_each_syncFile; reflexivity).
  assert (run = (Ok c, snd (reconcile live loop))) as Hrun.
  { subst c run. rewrite generateEmbeddings_spec. cbn zeta. fold live.
    rewrite <- Hloop. reflexivity. }
  pose proof (afterFiles_counts live (set_result zeroResult w)) as H. cbn zeta in H.
  rewrite <- Hloop in H. destruct H as (e' & H1 & H2 & H3 & H4 & H5).
  cbn [embeddingResult set_result zeroResult successCount errorCount updatedCount
       deleteCount] in H1, H2, H3, H4, H5.
  assert (List.map doc_path (dangling live (document (store loop))) =
          List.map doc_path gone) as Hpaths.
  { subst gone. rewrite Hloop, afterFiles_dangling by auto. reflexivity. }
  assert (length (dangling live (document (store loop))) = length gone) as Hgone.
  { rewrite <- (length_map doc_path), Hpaths, length_map. reflexivity. }
  assert (failures flags <= length gone) as Hle.
  { pose proof (failures_le flags) as Hf. subst flags.
    rewrite length_outcomes in Hf. exact Hf. }
  assert (c = embeddingResult (snd (reconcile live loop))) as Hc
    by (subst c; rewrite Hrun; reflexivity).
  rewrite Hrun. cbn [fst snd]. split; [reflexivity|].
  rewrite Hc, reconcile_spec. fold listing.
  destruct (faults loop listing) eqn:E; cbn [snd].
  - cbn [embeddingResult set_result count_error failed log successCount errorCount
         updatedCount deleteCount].
    fold e. split; [lia|]. split; [lia|]. split; [|discriminate].
    intros _. split; [reflexivity|]. split; lia.
  - unfold reconciled.
    cbn [embeddingResult set_result successCount errorCount updatedCount deleteCount
         served store log faults apply_request].
    rewrite length_app. cbn [length]. rewrite Nat.add_1_r. fold listing.
    rewrite Hgone. fold flags. fold e.
    split; [lia|]. split; [lia|]. split; [discriminate|].
    intros _. split; [|split; [reflexivity|split; [exact Hle | lia]]].
    rewrite <- app_assoc. cbn [app]. unfold deletions.
    rewrite <- (List.map_map doc_path DeleteDocument), Hpaths, List.map_map.
    reflexivity.
Qed.

(** ** A pass in which nothing fails *)

Lemma afterFile_clean file w :
  (forall n, length (log w) <= n -> faults w n = false) ->
  let w' := afterFile cfg vault publicDirs file w in
  errorCount (embeddingResult w') = errorCount (embeddingResult w) /\
  faults w' = faults w /\ length (log w) <= length (log w').
Proof.
  intros Hnone. cbn zeta. rewrite afterFile_errors.
  unfold servedOf. rewrite served_count_none by exact Hnone. rewrite Nat.eqb_refl.
  split; [lia|]. split; [reflexivity|].
  unfold afterFile. cbn [log set_result ran]. rewrite length_app. lia.
Qed.

Lemma afterFiles_clean files w :
  (forall n, length (log w) <= n -> faults w n = false) ->
  let w' := afterFiles cfg vault publicDirs files w in
  errorCount (embeddingResult w') = errorCount (embeddingResult w) /\
  faults w' = faults w /\ length (log w) <= length (log w').
Proof.
  revert w. induction files as [|f files IH]; intros w Hnone; cbn zeta.
  - cbn. auto.
  - rewrite afterFiles_cons.
    pose proof (afterFile_clean f w Hnone) as H. cbn zeta in H.
    destruct H as (He & Hf & Hl).
    specialize (IH (afterFile cfg vault publicDirs f w)). cbn zeta in IH.
    destruct IH as (He' & Hf' & Hl').
    { intros n Hn. rewrite Hf. apply Hnone. lia. }
    split; [lia|]. split; [congruence | lia].
Qed.

Lemma pass_without_faults w :
  let live := liveFiles vault excludeDirs in
  let wa := afterFiles cfg vault publicDirs live (set_result zeroResult w) in
  (forall n, length (log w) <= n -> faults w n = false) ->
  errorCount (embeddingResult wa) = 0 /\
  faults wa (length (log wa)) = false /\
  forall n, failures (outcomes (faults wa) (S (length (log wa))) n) = 0.
Proof.
  intros live wa Hnone.
  pose proof (afterFiles_clean live (set_result zeroResult w) Hnone) as H.
  cbn zeta in H. fold wa in H. destruct H as (He & Hf & Hl).
  cbn [embeddingResult set_result zeroResult errorCount log faults] in He, Hf, Hl.
  split; [exact He|]. split; [rewrite Hf; apply Hnone; exact Hl|].
  intros n. apply failures_none. intros j Hj. rewrite Hf. apply Hnone. lia.
Qed.

(** X2. When no request fails, the pass reports no error, counts every live
    file as a success, and counts one deletion for each stored document
    whose path no live file has. *)
Theorem clean_pass w :
  let live := liveFiles vault excludeDirs in
  let run := generateEmbeddings cfg vault excludeDirs publicDirs w in
  let gone := dangling live (document (store w)) in
  (forall n, length (log w) <= n -> faults w n = false) ->
  exists c,
    fst run = Ok c /\ errorCount c = 0 /\
    successCount c = length live /\ deleteCount c = length gone.
Proof.
  intros live run gone Hnone. subst run.
  pose proof (pass_summary w) as H. cbn zeta in H. fold live gone in H.
  destruct H as (Hrun & Hs & _ & _ & Hr).
  pose proof (pass_without_faults w Hnone) as H. cbn zeta in H. fold live in H.
  destruct H as (He & Hf & Hz).
  eexists. split; [rewrite Hrun; reflexivity|].
  destruct Hr as [(E & _)|(_ & Hc & Hd)].
  - rewrite Hf in E. discriminate.
  - rewrite Hz in Hc. repeat split; lia.
Qed.

(** ** A pass that reports no error *)

Lemma failures_zero f start n :
  failures (outcomes f start n) = 0 -> forall j, j < n -> f (start + j) = false.
Proof.
  revert start. induction n as [|n IH]; intros start H j Hj; [lia|].
  rewrite outcomes_S in H. unfold failures in H. cbn [List.filter] in H.
  destruct (f start) eqn:E; cbn [negb] in H; [discriminate|].
  destruct j as [|j]; [rewrite Nat.add_0_r; exact E|].
  replace (start + S j) with (S start + j) by lia. apply IH; [exact H | lia].
Qed.

Lemma reconcile_clears files w :
  faults w (length (log w)) = false ->
  failures (outcomes (faults w) (S (length (log w)))
                     (length (dangling files (document (store w))))) = 0 ->
  forall d, In d (document (store (snd (reconcile files w)))) -> isLive files d = true.
Proof.
  intros E Hzero d Hd. rewrite reconcile_spec, E in Hd. cbn [snd] in Hd.
  unfold reconciled in Hd. cbn [store served apply_request log faults] in Hd.
  rewrite length_app in Hd. cbn [length] in Hd. rewrite Nat.add_1_r in Hd.
  apply documents_after_deletions in Hd as [Hin Hpaths].
  destruct (isLive files d) eqn:El; [reflexivity|]. exfalso.
  assert (In d (dangling files (document (store w)))) as Hg.
  { unfold dangling. apply filter_In. split; [exact Hin|]. rewrite El. reflexivity. }
  apply list_elem_of_In, list_elem_of_lookup in Hg as [j Hj].
  apply (Hpaths d); [|reflexivity].
  eapply in_combine_lookup; [exact Hj|].
  pose proof (lookup_lt_Some _ _ _ Hj) as Hlt.
  rewrite outcomes_lookup by exact Hlt.
  rewrite (failures_zero _ _ _ Hzero j Hlt). reflexivity.
Qed.

(** X3. From a store whose row ids are a key: when a pass reports no error,
    the stored documents are those of the live files, path for path, and
    the row of every live file holds the digest of the file's text and
    the visibility of its path. *)
Theorem error_free_pass_is_in_sync w c w1 :
  store_wf (store w) ->
  generateEmbeddings cfg vault excludeDirs publicDirs w = (Ok c, w1) ->
  errorCount c = 0 ->
  (forall p, In p (List.map doc_path (document (store w1))) <->
             In p (List.map path (liveFiles vault excludeDirs))) /\
  (forall f, In f (liveFiles vault excludeDirs) ->
             exists d,
               select_by_path (path f) (store w1) = Some d /\
               doc_checksum d = Some (sha256_base64 (fileText vault f)) /\
               doc_public d = isFileInDirectories (path f) publicDirs).
Proof.
  intros Hwf Hgen Herr.
  pose proof (pass_summary w) as H. cbn zeta in H.
  remember (liveFiles vault excludeDirs) as live eqn:Elive.
  remember (afterFiles cfg vault publicDirs live (set_result zeroResult w)) as wa eqn:Ewa.
  destruct H as (Hrun & _ & _ & Hgone & Hr).
  rewrite Hgen in Hrun, Hr. cbn [snd] in Hrun, Hr. injection Hrun as Hc Hw1.
  assert (errorCount (embeddingResult wa) = 0 /\
          faults wa (length (log wa)) = false /\
          failures (outcomes (faults wa) (S (length (log wa)))
                             (length (dangling live (document (store wa))))) = 0)
    as (He & E & Hzero).
  { rewrite Hgone. rewrite <- Hc in Hr.
    destruct Hr as [(_ & Hr & _)|(E & Hr & _)]; [lia|].
    repeat split; [lia | exact E | lia]. }
  destruct (afterFiles_up_to_date live (set_result zeroResult w)) as [Hall _].
  { exact Hwf. }
  { rewrite <- Ewa. rewrite He. reflexivity. }
  rewrite <- Ewa in Hall.
  assert (forall f, In f live -> upToDate vault publicDirs f (store w1)) as Hup.
  { intros f Hf. rewrite Hw1. apply reconcile_frame; [exact Hf | exact (Hall f Hf)]. }
  split.
  - intros p. rewrite !in_map_iff. split.
    + intros (d & <- & Hd). rewrite Hw1 in Hd.
      pose proof (reconcile_clears live wa E Hzero d Hd) as Hlive.
      unfold isLive in Hlive.
      destruct (List.find _ live) as [f|] eqn:Ef; [|discriminate].
      apply find_some in Ef as [Hf Hp]. apply String.eqb_eq in Hp. eauto.
    + intros (f & <- & Hf). destruct (Hup f Hf) as (d & Hsel & _).
      apply select_some in Hsel as [Hp Hd]. eauto.
  - intros f Hf. exact (Hup f Hf).
Qed.

(** ** What a pass keeps *)

Lemma NoDup_map_filter {A B} (f : A -> B) (sel : A -> bool) (l : list A) :
  NoDup (List.map f l) -> NoDup (List.map f (List.filter sel l)).
Proof.
  induction l as [|a l IH]; intros Hnd; [constructor|].
  cbn [List.map] in Hnd. apply NoDup_cons in Hnd as [Ha Hnd]. specialize (IH Hnd).
  cbn [List.filter]. destruct (sel a); [|exact IH].
  cbn [List.map]. apply NoDup_cons. split; [|exact IH].
  intros Hin. apply Ha. apply list_elem_of_In in Hin. apply list_elem_of_In.
  apply in_map_iff in Hin as (b & Hb & Hin). apply filter_In in Hin as [Hin _].
  apply in_map_iff. eauto.
Qed.

Lemma consistent_update (sel : Document -> bool) (f : Document -> Document) s :
  (forall d, doc_id (f d) = doc_id d) -> (forall d, doc_path (f d) = doc_path d) ->
  consistent s -> consistent (update_documents sel f s).
Proof.
  intros Hid Hpath (Hwf & Hnd & Hown). split; [apply wf_update; assumption|]. split.
  - unfold update_documents. cbn [document]. rewrite List.map_map.
    erewrite List.map_ext; [exact Hnd|].
    intros d. cbn. destruct (sel d); [apply Hpath | reflexivity].
  - unfold sections_owned, update_documents in *. cbn [document document_section].
    eapply Forall_impl; [exact Hown|]. cbn. intros x (d & Hd & Hx).
    exists (if sel d then f d else d). split.
    + apply in_map_iff. eauto.
    + destruct (sel d); [rewrite Hid|]; exact Hx.
Qed.

Lemma consistent_delete_sections (sel : nat -> bool) s :
  consistent s -> consistent (delete_sections sel s).
Proof.
  intros (Hwf & Hnd & Hown). split; [exact Hwf|]. split; [exact Hnd|].
  unfold sections_owned, delete_sections in *. cbn [document document_section].
  apply List.Forall_forall. intros x Hx. apply filter_In in Hx as [Hx _].
  rewrite List.Forall_forall in Hown. exact (Hown x Hx).
Qed.

Lemma consistent_upsert sum p m b s :
  consistent s -> consistent (upsert_document sum p m b s).
Proof.
  intros Hc. pose proof Hc as (Hwf & Hnd & Hown).
  split; [exact (wf_apply_request (UpsertDocument sum p m b) s Hwf)|].
  unfold upsert_document. destruct (select_by_path p s) eqn:Es.
  - apply (consistent_update _ _ s); auto.
  - split.
    + cbn [document]. rewrite List.map_app. cbn [List.map doc_path].
      apply NoDup_app. split; [exact Hnd|]. split; [|apply NoDup_singleton].
      intros q Hq Hin. apply list_elem_of_In in Hq, Hin.
      destruct Hin as [<-|[]]. apply in_map_iff in Hq as (a & Ha & Hq).
      eapply find_none in Es; [|exact Hq]. cbn in Es.
      rewrite Ha, String.eqb_refl in Es. discriminate.
    + unfold sections_owned in *. cbn [document document_section].
      eapply Forall_impl; [exact Hown|]. cbn. intros x (d & Hd & Hx).
      exists d. split; [apply in_or_app; left; exact Hd | exact Hx].
Qed.

Lemma consistent_delete_document p s :
  consistent s -> consistent (delete_document p s).
Proof.
  intros (Hwf & Hnd & Hown).
  split; [exact (wf_apply_request (DeleteDocument p) s Hwf)|]. split.
  - unfold delete_document. cbn [document]. apply NoDup_map_filter. exact Hnd.
  - unfold sections_owned, delete_document in *. cbn [document document_section].
    apply List.Forall_forall. intros x Hx. apply filter_In in Hx as [Hx Hkeep].
    rewrite List.Forall_forall in Hown. destruct (Hown x Hx) as (d & Hd & Hid).
    exists d. split; [|exact Hid]. apply filter_In. split; [exact Hd|].
    destruct (String.eqb (doc_path d) p) eqn:Ep; [|reflexivity]. exfalso.
    apply negb_true_iff in Hkeep.
    assert (existsb (fun a => Nat.eqb (doc_id a) (document_id x))
                    (List.filter (fun a => String.eqb (doc_path a) p) (document s)) = true)
      as Hex; [|congruence].
    apply existsb_exists. exists d. split; [apply filter_In; auto|].
    apply Nat.eqb_eq. exact Hid.
Qed.

Lemma consistent_with_sections rows s :
  consistent s ->
  Forall (fun x => exists d, In d (document s) /\ doc_id d = document_id x) rows ->
  consistent (with_sections rows s).
Proof.
  intros (Hwf & Hnd & Hown) Hrows. split; [exact Hwf|]. split; [exact Hnd|].
  unfold sections_owned, with_sections in *. cbn [document document_section].
  apply Forall_app. auto.
Qed.

Lemma consistent_indexed file i m s :
  consistent s -> i = rowId (select_by_path (path file) s) s ->
  consistent (indexed cfg vault publicDirs file i m s).
Proof.
  intros Hc Hi. unfold indexed. destruct (m =? 0); [exact Hc|].
  assert (consistent
            (with_sections
               (List.map (sectionRow cfg vault i file)
                         (seq 0 (min (length (chunksOf cfg vault file)) ((m - 1) / 2))))
               (upsert_document None (path file) (metaOf vault file)
                                (isFileInDirectories (path file) publicDirs) s)))
    as Hrows.
  { apply consistent_with_sections; [apply consistent_upsert; exact Hc|].
    destruct (upsert_answer None (path file) (metaOf vault file)
                (isFileInDirectories (path file) publicDirs) s)
      as (d & Hsel & Hid & _).
    apply select_some in Hsel as [_ Hd].
    apply List.Forall_forall. intros x Hx. apply in_map_iff in Hx as (k & <- & _).
    exists d. split; [exact Hd|]. cbn [sectionRow document_id]. congruence. }
  destruct (_ <=? m); [|exact Hrows].
  apply consistent_update; auto.
Qed.

Lemma branchOf_reindex file s existing :
  branchOf vault publicDirs file s = Reindex existing ->
  existing = select_by_path (path file) s /\
  checksum_matches (select_by_path (path file) s) (checksumOf vault file) = false.
Proof.
  unfold branchOf. destruct (checksum_matches _ _).
  - destruct (select_by_path (path file) s) as [d|];
      [destruct (Bool.eqb (doc_public d) _)|]; discriminate.
  - intros [= <-]. auto.
Qed.

Lemma consistent_plan file s k :
  consistent s ->
  consistent (apply_requests (take k (planOf cfg vault publicDirs file s)) s).
Proof.
  intros Hc. destruct (branchOf vault publicDirs file s) as [|d|existing] eqn:Eb.
  - unfold planOf. rewrite Eb. destruct k as [|[|[|k]]]; exact Hc.
  - unfold planOf. rewrite Eb. destruct k as [|[|[|k]]]; try exact Hc.
    cbn [app take]. rewrite take_nil.
    change (apply_requests (?a :: ?b :: ?c :: nil) s) with (apply_request c s).
    cbn [apply_request]. apply consistent_update; auto.
  - apply branchOf_reindex in Eb as [-> Hsum].
    rewrite planOf_reindex by exact Hsum. rewrite reindex_store.
    destruct (k <=? 2); [exact Hc|].
    destruct (select_by_path (path file) s) as [d|] eqn:Es.
    + apply consistent_indexed; [apply consistent_delete_sections; exact Hc|].
      change (select_by_path (path file) (delete_sections ?sel s))
        with (select_by_path (path file) s).
      rewrite Es. reflexivity.
    + apply consistent_indexed; [exact Hc|]. rewrite Es. reflexivity.
Qed.

Lemma afterFiles_consistent files w :
  consistent (store w) -> consistent (store (afterFiles cfg vault publicDirs files w)).
Proof.
  revert w. induction files as [|f files IH]; intros w Hc; [exact Hc|].
  rewrite afterFiles_cons. apply IH. rewrite afterFile_store.
  apply consistent_plan. exact Hc.
Qed.

Lemma consistent_deletions (gone : list Document) flags s :
  consistent s -> consistent (apply_requests (servedRequests (deletions gone flags)) s).
Proof.
  intros Hc.
  assert (forall rs, (forall r, In r rs -> exists q, r = DeleteDocument q) ->
                     forall s0, consistent s0 -> consistent (apply_requests rs s0)) as H.
  { induction rs as [|r rs IH]; intros Hrs s0 H0; [exact H0|].
    change (apply_requests (r :: rs) s0) with (apply_requests rs (apply_request r s0)).
    apply IH; [intros r' Hr'; apply Hrs; right; exact Hr'|].
    destruct (Hrs r (or_introl eq_refl)) as [q ->].
    cbn [apply_request]. apply consistent_delete_document. exact H0. }
  apply H; [|exact Hc].
  intros r Hr. apply in_served_deletions in Hr as (g & _ & ->). eauto.
Qed.

(** X4. Whatever fails, a pass keeps the store consistent: row ids stay a
    key below [next_id], no two documents share a path, and every section
    belongs to a stored document. *)
Theorem pass_keeps_the_store_consistent w :
  consistent (store w) ->
  consistent (store (snd (generateEmbeddings cfg vault excludeDirs publicDirs w))).
Proof.
  intros Hc. rewrite generateEmbeddings_spec. cbn zeta. cbn [snd].
  rewrite reconcile_spec.
  pose proof (afterFiles_consistent (liveFiles vault excludeDirs)
                (set_result zeroResult w) Hc) as Ha.
  destruct (faults _ _); cbn [snd]; [exact Ha|].
  unfold reconciled. cbn [store served apply_request].
  apply consistent_deletions. exact Ha.
Qed.

(** ** The requests one file costs *)

Lemma issued_requests rs (k : nat) :
  List.map fst
    (List.map (fun r => (r, true)) (take k rs) ++
     match rs !! k with
     | Some r => [(r, false)]
     | None => []
     end) = take (S k) rs.
Proof.
  rewrite List.map_app, List.map_map. cbn [fst]. rewrite List.map_id.
  destruct (rs !! k) as [r|] eqn:E.
  - cbn [List.map fst]. symmetry. apply take_S_r. exact E.
  - cbn [List.map]. rewrite app_nil_r. apply lookup_ge_None in E.
    rewrite !take_ge by lia. reflexivity.
Qed.

Lemma filter_fst {A B} (sel : A -> bool) (l : list (A * B)) :
  length (List.filter (fun e => sel (fst e)) l) = length (List.filter sel (List.map fst l)).
Proof.
  induction l as [|e l IH]; [reflexivity|]. cbn [List.map List.filter].
  destruct (sel (fst e)); cbn [length]; rewrite IH; reflexivity.
Qed.

Lemma filter_all {A} (sel : A -> bool) (l : list A) :
  (forall x, sel x = true) -> List.filter sel l = l.
Proof.
  intros H. induction l as [|x l IH]; [reflexivity|].
  cbn [List.filter]. rewrite H, IH. reflexivity.
Qed.

Lemma filter_take_le {A} (sel : A -> bool) (l : list A) k :
  length (List.filter sel (take k l)) <= length (List.filter sel l).
Proof.
  rewrite <- (take_drop k l) at 2. rewrite List.filter_app, length_app. lia.
Qed.

Lemma embeddings_of_sections file i (l : list nat) :
  length (List.filter isEmbedding (flat_map (sectionRequests cfg vault i file) l)) =
  length l.
Proof.
  induction l as [|k l IH]; [reflexivity|].
  cbn [flat_map sectionRequests app List.filter isEmbedding length]. rewrite IH.
  reflexivity.
Qed.

Lemma embeddings_of_plan file s :
  length (List.filter isEmbedding (planOf cfg vault publicDirs file s)) <=
  length (chunksOf cfg vault file).
Proof.
  unfold planOf. cbn [app List.filter isEmbedding].
  destruct (branchOf vault publicDirs file s) as [|d|existing]; [cbn; lia | cbn; lia |].
  unfold reindexRequests, indexRequests. rewrite !List.filter_app, !length_app.
  rewrite embeddings_of_sections, length_seq.
  destruct existing; cbn; lia.
Qed.

Lemma length_plan file s :
  length (planOf cfg vault publicDirs file s) <= 2 * length (chunksOf cfg vault file) + 5.
Proof.
  unfold planOf. rewrite length_app. cbn [length].
  destruct (branchOf vault publicDirs file s) as [|d|existing]; cbn [length]; try lia.
  unfold reindexRequests, indexRequests.
  rewrite !length_app, length_section_requests, length_seq.
  destruct existing; cbn [deleteRequests length]; lia.
Qed.

(** X5. Whatever fails, the turn of a file issues at most two requests for
    each of its chunks and five more, of which at most one embedding call
    for each chunk; when the stored checksum is the digest of the text,
    it issues at most three requests, none of them but the lookup, the
    read and the update of the visibility. *)
Theorem request_budget file w :
  let chunks := chunksOf cfg vault file in
  let w' := snd (syncFile cfg vault publicDirs file w) in
  exists added,
    log w' = log w ++ added /\
    length added <= 2 * length chunks + 5 /\
    embeddingCalls added <= length chunks /\
    (stored_checksum (path file) (store w) = Some (sha256_base64 (fileText vault file)) ->
     length added <= 3 /\
     forallb (fun e => isLookup (fst e)) added = true).
Proof.
  intros chunks w'. subst w'. rewrite syncFile_spec. cbn [snd].
  unfold afterFile. cbn [log set_result ran].
  remember (planOf cfg vault publicDirs file (store w)) as rs eqn:Ers.
  remember (servedOf cfg vault publicDirs file w) as k eqn:Ek.
  eexists. split; [reflexivity|].
  assert (forall sel : Request -> bool,
            length (List.filter (fun e => sel (fst e))
                      (List.map (fun r => (r, true)) (take k rs) ++
                       match rs !! k with
                       | Some r => [(r, false)]
                       | None => []
                       end)) <= length (List.filter sel rs)) as Hsel.
  { intros sel. rewrite filter_fst, issued_requests. apply filter_take_le. }
  split; [|split].
  - pose proof (Hsel (fun _ => true)) as H.
    rewrite !filter_all in H by reflexivity.
    pose proof (length_plan file (store w)) as Hlen. rewrite <- Ers in Hlen.
    fold chunks in Hlen. lia.
  - unfold embeddingCalls. etransitivity; [apply Hsel|].
    rewrite Ers. apply embeddings_of_plan.
  - intros Hsum.
    assert (length rs <= 3 /\ forallb isLookup rs = true) as [Hlen Hall].
    { destruct (branchOf_cases file (store w)) as [[[Hb|[d Hb]] _]|[_ Hne]].
      - rewrite Ers. unfold planOf. rewrite Hb. cbn. split; [lia | reflexivity].
      - rewrite Ers. unfold planOf. rewrite Hb. cbn. split; [lia | reflexivity].
      - contradiction. }
    split.
    + pose proof (Hsel (fun _ => true)) as H.
      rewrite !filter_all in H by reflexivity.
      lia.
    + apply forallb_forall. intros e He.
      rewrite forallb_forall in Hall. apply Hall.
      apply (in_take _ (S k)). rewrite <- issued_requests.
      apply in_map. exact He.
Qed.

(** ** The sections a reindexed document has *)

Lemma filter_all_in {A} (sel : A -> bool) (l : list A) :
  (forall x, In x l -> sel x = true) -> List.filter sel l = l.
Proof.
  induction l as [|x l IH]; intros H; [reflexivity|].
  cbn [List.filter]. rewrite H by (left; reflexivity).
  rewrite IH by (intros y Hy; apply H; right; exact Hy). reflexivity.
Qed.

Lemma filter_none_in {A} (sel : A -> bool) (l : list A) :
  (forall x, In x l -> sel x = false) -> List.filter sel l = [].
Proof.
  induction l as [|x l IH]; intros H; [reflexivity|].
  cbn [List.filter]. rewrite H by (left; reflexivity).
  apply IH. intros y Hy. apply H. right. exact Hy.
Qed.

Lemma other_sections_kept (i : nat) (l : list (@DocumentSection Vector)) :
  List.filter (fun x => negb (Nat.eqb (document_id x) i))
              (List.filter (fun x => negb (Nat.eqb i (document_id x))) l) =
  List.filter (fun x => negb (Nat.eqb (document_id x) i)) l.
Proof.
  induction l as [|x l IH]; [reflexivity|]. cbn [List.filter].
  rewrite (Nat.eqb_sym i). destruct (Nat.eqb (document_id x) i) eqn:E; cbn [negb].
  - exact IH.
  - cbn [List.filter]. rewrite E. cbn [negb]. rewrite IH. reflexivity.
Qed.

Lemma indexed_row file m s :
  let i := rowId (select_by_path (path file) s) s in
  0 < m ->
  exists d, select_by_path (path file) (indexed cfg vault publicDirs file i m s) = Some d /\
            doc_id d = i.
Proof.
  intros i Hm. unfold indexed.
  replace (m =? 0) with false by (symmetry; apply Nat.eqb_neq; lia).
  destruct (upsert_answer None (path file) (metaOf vault file)
              (isFileInDirectories (path file) publicDirs) s)
    as (d & Hsel & Hid & _).
  fold i in Hid.
  destruct (_ <=? m).
  - rewrite select_update by reflexivity.
    change (select_by_path (path file) (with_sections ?rows ?s0))
      with (select_by_path (path file) s0).
    rewrite Hsel. cbn [option_map]. rewrite Hid, Nat.eqb_refl. eauto.
  - change (select_by_path (path file) (with_sections ?rows ?s0))
      with (select_by_path (path file) s0).
    eauto.
Qed.

(** X6. From a consistent store: when the stored checksum is not the digest
    of the text and every request of the file is served, the row of the
    file has, in chunk order, one section for each chunk and no other,
    and the sections of the other documents are as they were. *)
Theorem reindex_leaves_one_section_per_chunk file w :
  let p := path file in
  let i := rowId (select_by_path p (store w)) (store w) in
  let chunks := chunksOf cfg vault file in
  let w' := snd (syncFile cfg vault publicDirs file w) in
  consistent (store w) ->
  stored_checksum p (store w) <> Some (sha256_base64 (fileText vault file)) ->
  (forall n, n < length (planOf cfg vault publicDirs file (store w)) ->
             faults w (length (log w) + n) = false) ->
  (exists d, select_by_path p (store w') = Some d /\ doc_id d = i) /\
  List.filter (fun x => Nat.eqb (document_id x) i) (document_section (store w')) =
    List.map (sectionRow cfg vault i file) (seq 0 (length chunks)) /\
  List.filter (fun x => negb (Nat.eqb (document_id x) i)) (document_section (store w')) =
    List.filter (fun x => negb (Nat.eqb (document_id x) i)) (document_section (store w)).
Proof.
  intros p i chunks w' ((Hnd & Hlt) & _ & Hown) Hsum Hall.
  apply checksum_matches_stored in Hsum.
  subst w'. rewrite syncFile_all_served by exact Hall. cbn [store].
  rewrite planOf_reindex by exact Hsum. fold p i.
  pose proof (reindex_store file (select_by_path p (store w)) i
                (length ([SelectDocument p; CachedRead p] ++
                         deleteRequests (select_by_path p (store w)) ++
                         indexRequests cfg vault publicDirs file i)) (store w)) as H.
  fold p in H. rewrite take_ge in H by lia. rewrite H. clear H.
  subst p. rewrite length_reindex. fold chunks.
  replace (_ <=? 2) with false by (symmetry; apply Nat.leb_gt; lia).
  assert (forall m, m = 2 * length chunks + 2 ->
                    min (length chunks) ((m - 1) / 2) = length chunks) as Hmin.
  { intros m ->. apply Nat.min_l. apply Nat.div_le_lower_bound; lia. }
  assert (forall l : list nat,
            List.filter (fun x => Nat.eqb (document_id x) i)
                        (List.map (sectionRow cfg vault i file) l) =
            List.map (sectionRow cfg vault i file) l /\
            List.filter (fun x => negb (Nat.eqb (document_id x) i))
                        (List.map (sectionRow cfg vault i file) l) = []) as Hrows.
  { intros l. split.
    - apply filter_all_in. intros x Hx. apply in_map_iff in Hx as (k & <- & _).
      cbn [sectionRow document_id]. apply Nat.eqb_refl.
    - apply filter_none_in. intros x Hx. apply in_map_iff in Hx as (k & <- & _).
      cbn [sectionRow document_id]. rewrite Nat.eqb_refl. reflexivity. }
  destruct (select_by_path (path file) (store w)) as [d|] eqn:Es;
    cbn [deleteRequests length].
  - assert (i = doc_id d) as Hi by reflexivity.
    split.
    + pose proof (indexed_row file (2 * length chunks + 4 + 1 - 3)
                    (delete_sections (Nat.eqb (doc_id d)) (store w))) as H.
      cbn zeta in H.
      change (select_by_path (path file) (delete_sections ?sel (store w)))
        with (select_by_path (path file) (store w)) in H.
      rewrite Es in H. apply H. lia.
    + rewrite indexed_sections. fold chunks.
      replace (_ =? 0) with false by (symmetry; apply Nat.eqb_neq; lia).
      rewrite Hmin by lia. rewrite !List.filter_app.
      destruct (Hrows (seq 0 (length chunks))) as [-> ->].
      cbn [delete_sections document_section]. rewrite <- Hi. split.
      * rewrite filter_none_in; [reflexivity|].
        intros x Hx. apply filter_In in Hx as [_ Hx].
        rewrite Nat.eqb_sym. apply negb_true_iff. exact Hx.
      * rewrite app_nil_r. apply other_sections_kept.
  - assert (i = next_id (store w)) as Hi by reflexivity.
    split.
    + pose proof (indexed_row file (2 * length chunks + 4 + 0 - 2) (store w)) as H.
      cbn zeta in H. rewrite Es in H. apply H. lia.
    + rewrite indexed_sections. fold chunks.
      replace (_ =? 0) with false by (symmetry; apply Nat.eqb_neq; lia).
      rewrite Hmin by lia. rewrite !List.filter_app.
      destruct (Hrows (seq 0 (length chunks))) as [-> ->].
      assert (forall x, In x (document_section (store w)) ->
                        Nat.eqb (document_id x) i = false) as Hold.
      { intros x Hx. unfold sections_owned in Hown.
        rewrite List.Forall_forall in Hown. destruct (Hown x Hx) as (d & Hd & Hid).
        rewrite List.Forall_forall in Hlt. specialize (Hlt d Hd).
        apply Nat.eqb_neq. lia. }
      split.
      * rewrite filter_none_in by exact Hold. reflexivity.
      * rewrite app_nil_r. reflexivity.
Qed.

(** ** Failures stay with their file *)

Lemma afterFiles_app (a b : list TFile) w :
  afterFiles cfg vault publicDirs (a ++ b) w =
  afterFiles cfg vault publicDirs b (afterFiles cfg vault publicDirs a w).
Proof. unfold afterFiles. apply fold_left_app. Qed.

Lemma afterFiles_wf files w :
  store_wf (store w) -> store_wf (store (afterFiles cfg vault publicDirs files w)).
Proof.
  revert w. induction files as [|f files IH]; intros w H; [exact H|].
  rewrite afterFiles_cons. apply IH. apply afterFile_wf. exact H.
Qed.

(** X7. From a store whose row ids are a key: a live file whose own
    requests are all served ends the pass with a row that holds the
    digest of its text and the visibility of its path, whatever failed
    for the files before it, for the files after it and in the
    reconciliation. *)
Theorem failures_stay_with_their_file before file after w :
  let w0 := snd (for_each before (syncFile cfg vault publicDirs)
                          (set_result zeroResult w)) in
  let w' := snd (generateEmbeddings cfg vault excludeDirs publicDirs w) in
  liveFiles vault excludeDirs = before ++ file :: after ->
  store_wf (store w) ->
  (forall n, n < length (planOf cfg vault publicDirs file (store w0)) ->
             faults w0 (length (log w0) + n) = false) ->
  exists d,
    select_by_path (path file) (store w') = Some d /\
    doc_checksum d = Some (sha256_base64 (fileText vault file)) /\
    doc_public d = isFileInDirectories (path file) publicDirs.
Proof.
  intros w0 w' Hlive Hwf Hall. subst w' w0.
  rewrite for_each_syncFile in Hall. cbn [snd] in Hall.
  rewrite generateEmbeddings_spec. cbn zeta. cbn [snd].
  remember (liveFiles vault excludeDirs) as live eqn:El.
  remember (afterFiles cfg vault publicDirs before (set_result zeroResult w)) as w0 eqn:E0.
  replace (afterFiles cfg vault publicDirs live (set_result zeroResult w))
    with (afterFiles cfg vault publicDirs after (afterFile cfg vault publicDirs file w0))
    by (rewrite Hlive, afterFiles_app, afterFiles_cons, E0; reflexivity).
  assert (store_wf (store w0)) as Hwf0 by (subst w0; apply afterFiles_wf; exact Hwf).
  assert (upToDate vault publicDirs file
                   (store (afterFile cfg vault publicDirs file w0))) as Hup.
  { rewrite afterFile_store. unfold servedOf.
    rewrite (proj2 (served_count_all _ _ _) Hall), take_ge by lia.
    apply synced_up_to_date. }
  apply reconcile_frame.
  - rewrite Hlive. apply in_or_app. right. left. reflexivity.
  - apply afterFiles_frame; [apply afterFile_wf; exact Hwf0 | exact Hup].
Qed.

(** ** The overlap *)

Lemma substring_to_the_end (t : string) (k : nat) :
  k <= String.length t ->
  exists before,
    t = (before ++ substring k (String.length t - k) t)%string /\
    String.length before = k /\
    String.length (substring k (String.length t - k) t) = String.length t - k.
Proof.
  revert k. induction t as [|c t IH]; intros k Hk.
  - cbn in Hk. assert (k = 0) as -> by lia. exists EmptyString. cbn. auto.
  - destruct k as [|k].
    + exists EmptyString. cbn [String.length Nat.sub String.append].
      change (substring 0 (S (String.length t)) (String c t))
        with (String c (substring 0 (String.length t) t)).
      destruct (IH 0 (Nat.le_0_l _)) as (before & Ht & Hb & Hl).
      destruct before; [|discriminate Hb].
      change (t = substring 0 (String.length t - 0) t) in Ht.
      rewrite Nat.sub_0_r in Ht, Hl. rewrite <- Ht. cbn [String.length]. auto.
    + cbn [String.length] in Hk.
      destruct (IH k) as (before & Ht & Hb & Hl); [lia|].
      exists (String c before).
      change (String c before ++ ?x)%string with (String c (before ++ x)%string).
      cbn [String.length Nat.sub substring].
      rewrite <- Ht, Hb, Hl. auto.
Qed.

(** X8. The context taken from the previous section is empty for the
    first section, and when no overlap or an overlap of zero is
    configured.  Otherwise it is either empty or the end of the previous
    section, exactly as many characters as the overlap and fewer than
    that section has. *)
Theorem overlap_is_a_proper_suffix sections i :
  let tail := previousSectionChopped cfg sections i in
  let previous := nth (i - 1) sections "" in
  (i = 0 \/ charsFromPreviousParagraph cfg = None \/
   charsFromPreviousParagraph cfg = Some 0 -> tail = "") /\
  (tail = "" \/
   exists n before,
     charsFromPreviousParagraph cfg = Some n /\ 0 < i /\ 0 < n /\
     String.length tail = n /\ n < String.length previous /\
     previous = (before ++ tail)%string).
Proof.
  intros tail previous. subst tail. unfold previousSectionChopped. fold previous.
  destruct (charsFromPreviousParagraph cfg) as [n|].
  - destruct (Nat.ltb_spec 0 i) as [Hi|Hi], (Nat.ltb_spec 0 n) as [Hn|Hn];
      cbn [andb]; try (split; [reflexivity | left; reflexivity]).
    destruct (Nat.ltb_spec n (String.length previous)) as [Hlen|Hlen].
    + split.
      * intros [->|[H|[= ->]]]; [lia | discriminate H | lia].
      * right. exists n. unfold slice.
        destruct (substring_to_the_end previous (String.length previous - n))
          as (before & Hp & _ & Hl); [lia|].
        exists before. split; [reflexivity|]. split; [exact Hi|]. split; [exact Hn|].
        split; [rewrite Hl; lia|]. split; [exact Hlen | exact Hp].
    + split; [reflexivity | left; reflexivity].
  - split; [reflexivity | left; reflexivity].
Qed.

End SyncProofs.

(** ** C5 *)

Section SearchProofs.

Import Search.

Variable trim : string -> string.
Variable moderation : string -> option bool.
Variable semanticSearch :
  string -> SearchSettings -> list ProviderCall ->
  (string + list SearchResult) * list ProviderCall.

(** C5. When the search runs and the moderation endpoint flags the
    trimmed query, [getSuggestionsInternal] throws the error "Flagged
    content" with the result list emptied and the suggestions refreshed,
    and the only provider call it has added is that moderation call,
    whatever [semanticSearch] would do: neither the embedding, nor the
    similarity query, nor the chat provider is reached.  That error is
    thrown in no other case. *)
Theorem flagged_query_stops query forceDespiteLength m :
  let run :=
    getSuggestionsInternal trim moderation semanticSearch query forceDespiteLength m in
  negb (String.eqb (trim query) (trim (searchQuery m))) &&
    ((Search.minLengthBeforeAutoSearch m <? String.length query) || forceDespiteLength)
    = true ->
  moderation (trim query) = Some true ->
  run =
    (Throw (JsError "Flagged content"),
     {| results := [];
        searchQuery := query;
        Search.minLengthBeforeAutoSearch := Search.minLengthBeforeAutoSearch m;
        semanticSearchSettings := semanticSearchSettings m;
        calls := calls m ++ [CreateModeration (trim query)];
        notices := notices m;
        refreshes := S (refreshes m) |}) /\
  (forall c, In c (calls (snd run)) ->
             In c (calls m) \/ c = CreateModeration (trim query)) /\
  (forall query' force' m',
     fst (getSuggestionsInternal trim moderation semanticSearch query' force' m') =
       Throw (JsError "Flagged content") ->
     moderation (trim query') = Some true).
Proof.
  intros run Hguard Hflag.
  assert (run =
          (Throw (JsError "Flagged content"),
           {| results := [];
              searchQuery := query;
              Search.minLengthBeforeAutoSearch := Search.minLengthBeforeAutoSearch m;
              semanticSearchSettings := semanticSearchSettings m;
              calls := calls m ++ [CreateModeration (trim query)];
              notices := notices m;
              refreshes := S (refreshes m) |})) as Hrun.
  { subst run. unfold getSuggestionsInternal. rewrite Hguard.
    unfold bind, set_searchQuery, createModeration. cbn [calls set_calls].
    rewrite Hflag. reflexivity. }
  split; [exact Hrun|]. split.
  - rewrite Hrun. cbn [snd calls]. intros c Hc. apply in_app_iff in Hc as [Hc|[Hc|[]]]; auto.
  - clear. intros query' force' m'. unfold getSuggestionsInternal.
    destruct (negb _ && _); [|cbn; intros H; discriminate H].
    unfold bind, set_searchQuery, createModeration, try_catch, callSemanticSearch.
    cbn [calls set_calls semanticSearchSettings].
    destruct (moderation (trim query')) as [[|]|];
      [reflexivity | | cbn; intros H; discriminate H].
    destruct (semanticSearch _ _ _) as [[message|found] calls'];
      cbn; intros H; discriminate H.
Qed.

(** ** Searches that are not flagged *)

Lemma search_query_is_remembered query forceDespiteLength m :
  negb (String.eqb (trim query) (trim (searchQuery m))) &&
    ((Search.minLengthBeforeAutoSearch m <? String.length query) || forceDespiteLength)
    = true ->
  let m' :=
    snd (getSuggestionsInternal trim moderation semanticSearch query
                                forceDespiteLength m) in
  searchQuery m' = query /\
  Search.minLengthBeforeAutoSearch m' = Search.minLengthBeforeAutoSearch m /\
  semanticSearchSettings m' = semanticSearchSettings m.
Proof.
  intros Hguard. cbn zeta. unfold getSuggestionsInternal. rewrite Hguard.
  unfold bind, set_searchQuery, createModeration, try_catch, callSemanticSearch.
  cbn [calls set_calls semanticSearchSettings].
  destruct (moderation (trim query)) as [[|]|]; [cbn; auto | | cbn; auto].
  destruct (semanticSearch _ _ _) as [[message|found] calls']; cbn; auto.
Qed.

(** X9. Asking again for the query that was just looked at does nothing:
    with the same arguments always, and with any [forceDespiteLength]
    once the first call went past its guard, whether that call found
    results, failed, or was flagged.  No provider is called, nothing is
    refreshed, no notice is shown. *)
Theorem repeated_query_is_ignored query forceDespiteLength m :
  let first :=
    getSuggestionsInternal trim moderation semanticSearch query forceDespiteLength m in
  getSuggestionsInternal trim moderation semanticSearch query forceDespiteLength
                         (snd first) = (Ok tt, snd first) /\
  (negb (String.eqb (trim query) (trim (searchQuery m))) &&
     ((Search.minLengthBeforeAutoSearch m <? String.length query) || forceDespiteLength)
     = true ->
   forall force',
     getSuggestionsInternal trim moderation semanticSearch query force' (snd first) =
     (Ok tt, snd first)).
Proof.
  intros first.
  assert (negb (String.eqb (trim query) (trim (searchQuery m))) &&
            ((Search.minLengthBeforeAutoSearch m <? String.length query)
             || forceDespiteLength) = true ->
          forall force',
            getSuggestionsInternal trim moderation semanticSearch query force'
                                   (snd first) = (Ok tt, snd first)) as Hpast.
  { intros Hguard force'.
    pose proof (search_query_is_remembered query forceDespiteLength m Hguard) as H.
    cbn zeta in H. fold first in H. destruct H as (Hq & _).
    unfold getSuggestionsInternal at 1. rewrite Hq, String.eqb_refl. reflexivity. }
  split; [|exact Hpast].
  destruct (negb (String.eqb (trim query) (trim (searchQuery m))) &&
              ((Search.minLengthBeforeAutoSearch m <? String.length query)
               || forceDespiteLength)) eqn:Hguard.
  - apply Hpast. reflexivity.
  - assert (first = (Ok tt, m)) as ->.
    { subst first. unfold getSuggestionsInternal. rewrite Hguard. reflexivity. }
    cbn [snd]. unfold getSuggestionsInternal. rewrite Hguard. reflexivity.
Qed.

(** X10. When the search runs and the query is not flagged, the call does not
    throw.  The moderation endpoint gets the trimmed query and
    [semanticSearch] the query as typed, with the settings of the modal.
    Its results become the suggestions; when it throws, the suggestions
    are emptied and a notice shows the message.  Either way the
    suggestions are refreshed once. *)
Theorem unflagged_query_is_searched query forceDespiteLength m :
  let searched :=
    semanticSearch query (semanticSearchSettings m)
                   (calls m ++ [CreateModeration (trim query)]) in
  negb (String.eqb (trim query) (trim (searchQuery m))) &&
    ((Search.minLengthBeforeAutoSearch m <? String.length query) || forceDespiteLength)
    = true ->
  moderation (trim query) = Some false ->
  getSuggestionsInternal trim moderation semanticSearch query forceDespiteLength m =
  (Ok tt,
   {| results := match fst searched with
                 | inr found => found
                 | inl _ => []
                 end;
      searchQuery := query;
      Search.minLengthBeforeAutoSearch := Search.minLengthBeforeAutoSearch m;
      semanticSearchSettings := semanticSearchSettings m;
      calls := snd searched;
      notices := notices m ++
                 match fst searched with
                 | inr _ => []
                 | inl message => [("Error: " ++ message)%string]
                 end;
      refreshes := S (refreshes m) |}).
Proof.
  intros searched Hguard Hflag. subst searched.
  unfold getSuggestionsInternal. rewrite Hguard.
  unfold bind, set_searchQuery, createModeration, try_catch, callSemanticSearch.
  cbn [calls set_calls semanticSearchSettings]. rewrite Hflag.
  destruct (semanticSearch _ _ _) as [[message|found] calls']; cbn.
  - reflexivity.
  - rewrite app_nil_r. reflexivity.
Qed.

(** X11. When the moderation request or its answer fails, the call throws
    after that one provider call: the suggestions of the earlier query
    stay and are not refreshed, and since the query is already
    remembered, asking again for it does nothing. *)
Theorem moderation_outage_keeps_the_old_results query forceDespiteLength m :
  let run :=
    getSuggestionsInternal trim moderation semanticSearch query forceDespiteLength m in
  negb (String.eqb (trim query) (trim (searchQuery m))) &&
    ((Search.minLengthBeforeAutoSearch m <? String.length query) || forceDespiteLength)
    = true ->
  moderation (trim query) = None ->
  fst run = Throw ModerationUnavailable /\
  results (snd run) = results m /\
  refreshes (snd run) = refreshes m /\
  notices (snd run) = notices m /\
  calls (snd run) = calls m ++ [CreateModeration (trim query)] /\
  forall force',
    getSuggestionsInternal trim moderation semanticSearch query force' (snd run) =
    (Ok tt, snd run).
Proof.
  intros run Hguard Hnone.
  assert (run =
          (Throw ModerationUnavailable,
           {| results := results m;
              searchQuery := query;
              Search.minLengthBeforeAutoSearch := Search.minLengthBeforeAutoSearch m;
              semanticSearchSettings := semanticSearchSettings m;
              calls := calls m ++ [CreateModeration (trim query)];
              notices := notices m;
              refreshes := refreshes m |})) as Hrun.
  { subst run. unfold getSuggestionsInternal. rewrite Hguard.
    unfold bind, set_searchQuery, createModeration. cbn [calls set_calls].
    rewrite Hnone. reflexivity. }
  rewrite Hrun. cbn [fst snd results refreshes notices calls].
  repeat split. intros force'.
  unfold getSuggestionsInternal. cbn [searchQuery].
  rewrite String.eqb_refl. reflexivity.
Qed.

Lemma flagged_search query forceDespiteLength m :
  negb (String.eqb (trim query) (trim (searchQuery m))) &&
    ((Search.minLengthBeforeAutoSearch m <? String.length query) || forceDespiteLength)
    = true ->
  moderation (trim query) = Some true ->
  let m' :=
    snd (getSuggestionsInternal trim moderation semanticSearch query
                                forceDespiteLength m) in
  results m' = [] /\ notices m' = notices m /\
  calls m' = calls m ++ [CreateModeration (trim query)].
Proof.
  intros Hguard Hflag. cbn zeta. unfold getSuggestionsInternal. rewrite Hguard.
  unfold bind, set_searchQuery, createModeration. cbn [calls set_calls].
  rewrite Hflag. cbn. auto.
Qed.

End SearchProofs.

(** ** The views of the search modal *)

Section ChatProofs.

Import Chat.

Variable trim : string -> string.
Variable moderation : string -> option bool.
Variable semanticSearch :
  string -> Search.SearchSettings -> list Search.ProviderCall ->
  (string + list Search.SearchResult) * list Search.ProviderCall.
Variable generativeSearch :
  string -> list ChatCompletionRequestMessage -> Search.SearchSettings ->
  list Search.ProviderCall ->
  (string + string) * list ChatCompletionRequestMessage * list Search.ProviderCall.

Lemma search_keeps_the_page query forceDespiteLength m :
  dom (snd (getSuggestionsInternal trim moderation semanticSearch query
                                   forceDespiteLength m)) = dom m.
Proof.
  unfold getSuggestionsInternal. destruct (Search.getSuggestionsInternal _ _ _ _ _ _).
  reflexivity.
Qed.

Lemma chat_keeps_the_page event m :
  dom (snd (chatSendListener trim generativeSearch event m)) = dom m.
Proof.
  unfold chatSendListener. destruct (shiftKey event && isEnter event); [|reflexivity].
  destruct (negb _); [|reflexivity].
  destruct (generativeSearch _ _ _ _) as [[[message|res] history] calls]; reflexivity.
Qed.

Lemma back_to_search m :
  searchView (dom m) \/ chatView (dom m) -> searchView (dom (backButtonListener m)).
Proof.
  unfold searchView, chatView, backButtonListener. cbn.
  intros [(-> & _)|(-> & _)]; cbn; repeat split; discriminate.
Qed.

Lemma keydown_in_search event m :
  searchView (dom m) ->
  let m' := onKeydown trim moderation semanticSearch generativeSearch event m in
  if shiftKey event && isEnter event
  then chatView (dom m') /\ chatInput m' = inputEl m /\ chatMessages m' = chatMessages m
  else dom m' = dom m.
Proof.
  intros Hview. pose proof Hview as (Hk & Hc & H1 & H2 & H3). cbn zeta.
  unfold onKeydown. rewrite Hk. cbn [dispatch]. rewrite Hk. cbn [existsb Listener_eqb orb].
  cbn [listen]. unfold triggerChatListener. cbn [snd].
  assert (forall m1, dom m1 = dom m -> inputEl m1 = inputEl m ->
                     chatMessages m1 = chatMessages m ->
                     if shiftKey event && isEnter event
                     then chatView (dom (enterChat m1)) /\
                          chatInput (enterChat m1) = inputEl m /\
                          chatMessages (enterChat m1) = chatMessages m
                     else dom m1 = dom m) as Hstep.
  { intros m1 Hd Hi Hm. destruct (shiftKey event && isEnter event); [|exact Hd].
    unfold enterChat, chatView. cbn. rewrite Hd, Hk. cbn. repeat split; auto. }
  destruct (shiftKey event && isEnter event) eqn:Es.
  - destruct (altKey event && isEnter event).
    + specialize (Hstep (snd (getSuggestionsInternal trim moderation semanticSearch
                                                     (inputEl m) true m))).
      apply Hstep; [apply search_keeps_the_page | |];
        unfold getSuggestionsInternal;
        destruct (Search.getSuggestionsInternal _ _ _ _ _ _); reflexivity.
    + apply (Hstep m); reflexivity.
  - destruct (altKey event && isEnter event); [|reflexivity].
    apply search_keeps_the_page.
Qed.

Lemma keydown_in_chat event m :
  chatView (dom m) ->
  onKeydown trim moderation semanticSearch generativeSearch event m =
  snd (chatSendListener trim generativeSearch event m).
Proof.
  intros (Hk & _). unfold onKeydown. rewrite Hk. cbn [dispatch]. rewrite Hk.
  reflexivity.
Qed.

Lemma acts_keep_the_view (l : list Action) m :
  searchView (dom m) \/ chatView (dom m) ->
  searchView (dom (acts trim moderation semanticSearch generativeSearch l m)) \/
  chatView (dom (acts trim moderation semanticSearch generativeSearch l m)).
Proof.
  revert m. induction l as [|a l IH]; intros m H; [exact H|].
  unfold acts. cbn [fold_left]. apply IH. clear IH.
  destruct a as [text|text|event|]; cbn [act].
  - unfold getSuggestions. cbn [snd]. destruct (searchAsYouType _); exact H.
  - exact H.
  - destruct H as [H|H].
    + pose proof (keydown_in_search event m H) as Hk. cbn zeta in Hk.
      destruct (shiftKey event && isEnter event).
      * right. apply Hk.
      * left. rewrite Hk. exact H.
    + right. rewrite (keydown_in_chat event m H), chat_keeps_the_page. exact H.
  - left. apply back_to_search. exact H.
Qed.

(** X12. An open modal is always in one of its two views, whatever is typed,
    whatever keys are pressed and however often the back button is used,
    and whatever the searches and the chat do or throw.  In the search
    view [shift + Enter] leads to the chat view, with the query copied to
    the chat input and no message sent; any other key leaves the view,
    and the back button leads to the search view.  Once closed, the modal
    has no listener left on the document. *)
Theorem modal_is_in_one_view prompt semanticSettings generativeSettings asYouType
    minLength (l : list Action) :
  let opened :=
    onOpen (constructor prompt semanticSettings generativeSettings asYouType
                        minLength) in
  let m := acts trim moderation semanticSearch generativeSearch l opened in
  searchView (dom opened) /\
  (searchView (dom m) \/ chatView (dom m)) /\
  (forall event,
     searchView (dom m) ->
     let m' := onKeydown trim moderation semanticSearch generativeSearch event m in
     if shiftKey event && isEnter event
     then chatView (dom m') /\ chatInput m' = inputEl m /\
          chatMessages m' = chatMessages m
     else dom m' = dom m) /\
  searchView (dom (backButtonListener m)) /\
  keydown (dom (onClose m)) = [].
Proof.
  intros opened m.
  assert (searchView (dom opened)) as Hopen.
  { subst opened. unfold searchView. cbn. repeat split; discriminate. }
  assert (searchView (dom m) \/ chatView (dom m)) as Hview.
  { subst m. apply acts_keep_the_view. left. exact Hopen. }
  split; [exact Hopen|]. split; [exact Hview|].
  split; [intros event Hs; apply keydown_in_search; exact Hs|].
  split; [apply back_to_search; exact Hview|].
  unfold onClose. cbn.
  destruct Hview as [(-> & _)|(-> & _)]; reflexivity.
Qed.

(** ** Messages of the chat *)

(** X13. In the chat view, a key other than [shift + Enter], or a chat input
    that trims to nothing, changes nothing.  Otherwise the trimmed input
    is shown as the message of "you" and the input is emptied;
    [generativeSearch] gets the message, the history and the settings of
    the generative search; its answer is shown as the message of
    "assistant" and appended to the history it left.  When it throws, the
    message of "you" stays the last one. *)
Theorem chat_sends_what_is_typed event m :
  let message := trim (chatInput m) in
  let m' := onKeydown trim moderation semanticSearch generativeSearch event m in
  let asked :=
    generativeSearch message (messageHistory m) (generativeSearchSettings m)
                     (Search.calls (suggest m)) in
  chatView (dom m) ->
  (shiftKey event && isEnter event = false \/ message = "" -> m' = m) /\
  (shiftKey event && isEnter event = true -> message <> "" ->
   chatInput m' = "" /\ dom m' = dom m /\
   Search.calls (suggest m') = snd asked /\
   match fst (fst asked) with
   | inr res =>
       chatMessages m' =
         chatMessages m ++
         [{| className := "message you"; messageSender := "you:";
             messageText := message |};
          {| className := "message assistant"; messageSender := "assistant:";
             messageText := res |}] /\
       messageHistory m' =
         snd (fst asked) ++ [{| role := "assistant"; content := res |}]
   | inl _ =>
       chatMessages m' =
         chatMessages m ++
         [{| className := "message you"; messageSender := "you:";
             messageText := message |}] /\
       messageHistory m' = snd (fst asked)
   end).
Proof.
  intros message m' asked Hview. subst m'. rewrite (keydown_in_chat event m Hview).
  unfold chatSendListener. fold message. split.
  - intros [->|Hm]; [reflexivity|].
    destruct (shiftKey event && isEnter event); [|reflexivity].
    rewrite Hm. reflexivity.
  - intros -> Hm.
    replace (negb (String.eqb message "")) with true
      by (symmetry; apply negb_true_iff; apply String.eqb_neq; exact Hm).
    cbn [messageHistory generativeSearchSettings suggest set_chatInput addMessage
         set_chatMessages Search.calls].
    fold asked. destruct asked as [[[failure|res] history] calls]; cbn.
    + repeat split.
    + repeat split. rewrite <- app_assoc. reflexivity.
Qed.

(** X19. In the search view, [alt + Enter] searches the text of the input
    whatever its length, unless it trims to the query looked at last.
    When the moderation flags it, the suggestions are emptied and no
    provider but the moderation is called; the error is thrown into a
    promise that nobody awaits, so the key leaves the modal in its view
    and the chat untouched. *)
Theorem alt_enter_searches_any_length event m :
  let input := inputEl m in
  let m' := onKeydown trim moderation semanticSearch generativeSearch event m in
  searchView (dom m) ->
  altKey event && isEnter event = true ->
  trim input <> trim (Search.searchQuery (suggest m)) ->
  Search.searchQuery (suggest m') = input /\
  (moderation (trim input) = Some true ->
   Search.results (suggest m') = [] /\
   Search.notices (suggest m') = Search.notices (suggest m) /\
   Search.calls (suggest m') =
     Search.calls (suggest m) ++ [Search.CreateModeration (trim input)]) /\
  (shiftKey event = false -> dom m' = dom m) /\
  chatMessages m' = chatMessages m /\ messageHistory m' = messageHistory m.
Proof.
  intros input m' Hview Halt Hnew. subst m'.
  pose proof Hview as (Hk & _).
  assert (negb (String.eqb (trim input) (trim (Search.searchQuery (suggest m)))) &&
            ((Search.minLengthBeforeAutoSearch (suggest m) <? String.length input)
             || true) = true) as Hguard.
  { rewrite orb_true_r, andb_true_r. apply negb_true_iff, String.eqb_neq. exact Hnew. }
  pose proof (search_query_is_remembered trim moderation semanticSearch input true
                (suggest m) Hguard) as Hq.
  pose proof (flagged_search trim moderation semanticSearch input true (suggest m) Hguard)
    as Hflagged.
  cbn zeta in Hq, Hflagged. destruct Hq as (Hq & _).
  unfold onKeydown. rewrite Hk. cbn [dispatch]. rewrite Hk.
  cbn [existsb Listener_eqb orb listen]. unfold triggerChatListener. rewrite Halt.
  cbn [snd]. unfold getSuggestionsInternal. fold input.
  destruct (Search.getSuggestionsInternal trim moderation semanticSearch input true
                                          (suggest m)) as [outcome s0].
  cbn [snd] in *.
  destruct (shiftKey event && isEnter event) eqn:Es.
  - unfold enterChat. cbn. split; [exact Hq|]. split; [exact Hflagged|].
    split; [|auto]. intros Hshift. rewrite Hshift in Es. discriminate Es.
  - cbn. split; [exact Hq|]. split; [exact Hflagged|]. auto.
Qed.

End ChatProofs.

(** ** The pieces of a comma-separated text *)

Lemma split_string_cons sep (t : string) :
  exists piece pieces, split_string sep t = piece :: pieces.
Proof.
  destruct t as [|c t]; cbn [split_string]; [eauto|].
  destruct (Ascii.eqb c sep); [eauto|].
  destruct (split_string sep t); eauto.
Qed.

Lemma length_split_string sep (t : string) :
  length (split_string sep t) = S (occurrences sep t).
Proof.
  induction t as [|c t IH]; [reflexivity|]. cbn [split_string occurrences].
  destruct (Ascii.eqb c sep); [cbn [length]; rewrite IH; reflexivity|].
  destruct (split_string sep t) as [|piece pieces]; [discriminate IH|].
  cbn [length] in *. lia.
Qed.

Lemma join_split_string sep (t : string) :
  join_strings sep (split_string sep t) = t.
Proof.
  induction t as [|c t IH]; [reflexivity|]. cbn [split_string].
  destruct (Ascii.eqb c sep) eqn:E.
  - apply Ascii.eqb_eq in E. subst c.
    destruct (split_string_cons sep t) as (piece & pieces & Hs). rewrite Hs in *.
    change (join_strings sep (EmptyString :: piece :: pieces))
      with (String sep (join_strings sep (piece :: pieces))).
    rewrite IH. reflexivity.
  - destruct (split_string_cons sep t) as (piece & pieces & Hs). rewrite Hs in *.
    destruct pieces as [|piece' pieces].
    + cbn [join_strings] in *. rewrite IH. reflexivity.
    + change (join_strings sep (String c piece :: piece' :: pieces))
        with (String c (piece ++ String sep (join_strings sep (piece' :: pieces)))).
      change (join_strings sep (piece :: piece' :: pieces))
        with (piece ++ String sep (join_strings sep (piece' :: pieces)))%string in IH.
      rewrite IH. reflexivity.
Qed.

Lemma pieces_have_no_separator sep (t piece : string) :
  In piece (split_string sep t) -> occurrences sep piece = 0.
Proof.
  revert piece. induction t as [|c t IH]; intros piece Hin.
  - destruct Hin as [<-|[]]. reflexivity.
  - cbn [split_string] in Hin. destruct (Ascii.eqb c sep) eqn:E.
    + destruct Hin as [<-|Hin]; [reflexivity | exact (IH piece Hin)].
    + destruct (split_string sep t) as [|first rest].
      * destruct Hin as [<-|[]]. cbn [occurrences]. rewrite E. reflexivity.
      * destruct Hin as [<-|Hin].
        -- cbn [occurrences]. rewrite E. apply IH. left. reflexivity.
        -- apply IH. right. exact Hin.
Qed.

(** ** The plugin *)

Section PluginProofs.

Import Plugin.

Context {Vector : Type} `{C : Collaborators Vector}.

Variable vault : Vault.
Variable trim : string -> string.
Variable oneLine : string -> string.
Variable parseInt : string -> option nat.
Variable parseFloat : string -> QArith_base.Q.
Variable numberToString : QArith_base.Q -> string.
Variable createClient : string -> string -> Outcome string SupabaseClient.

Implicit Types (p : @Plugin Vector) (s : ObsidianAISettings).

Lemma setupSupabase_fields p :
  let run := setupSupabase createClient p in
  let p' := snd run in
  settings p' = settings p /\ openai p' = openai p /\ dataFile p' = dataFile p /\
  commands p' = commands p /\ whenLayoutReady p' = whenLayoutReady p /\
  supabaseClient p' = clientOf createClient (settings p) /\
  (rejected createClient (settings p) = false ->
   fst run = Ok tt /\
   statusBarItemEl p' =
     (if hasClients p' then "✨ [AI] Ready" else "❓[AI] Missing API variables")) /\
  (rejected createClient (settings p) = true ->
   statusBarItemEl p' = statusBarItemEl p /\
   exists e,
     fst run = Throw e /\
     createClient (supabaseUrl (settings p)) (supabaseKey (settings p)) = Throw e).
Proof.
  cbn zeta. unfold setupSupabase, clientOf, rejected, reportClients.
  cbn [settings set_supabaseClient].
  destruct (String.eqb (supabaseUrl (settings p)) "" ||
            String.eqb (supabaseKey (settings p)) ""); cbn [negb andb].
  - unfold hasClients. cbn. repeat split; discriminate.
  - destruct (createClient (supabaseUrl (settings p)) (supabaseKey (settings p)))
      as [client|e]; cbn [fst snd negb].
    + unfold hasClients. cbn. destruct (openai p) eqn:Eo; cbn; rewrite ?Eo;
        repeat split; discriminate.
    + cbn. repeat split; try discriminate. exists e. split; reflexivity.
Qed.

Lemma setupOpenai_fields p :
  let p' := setupOpenai p in
  settings p' = settings p /\ supabaseClient p' = supabaseClient p /\
  dataFile p' = dataFile p /\ commands p' = commands p /\
  whenLayoutReady p' = whenLayoutReady p /\ keyed p' /\
  statusBarItemEl p' =
    (if hasClients p' then "✨ [AI] Ready" else "❓[AI] Missing API variables").
Proof.
  cbn zeta. unfold setupOpenai, reportClients, keyed. cbn [settings set_openai].
  destruct (String.eqb (openaiKey (settings p)) "") eqn:Ek;
    cbn [negb]; unfold hasClients; cbn; destruct (supabaseClient p) eqn:Es; cbn;
    rewrite ?Es, ?Ek; repeat split.
Qed.

Lemma same_secrets s s' :
  supabaseUrl s' = supabaseUrl s -> supabaseKey s' = supabaseKey s ->
  clientOf createClient s' = clientOf createClient s /\
  rejected createClient s' = rejected createClient s.
Proof. intros Hu Hk. unfold clientOf, rejected. rewrite Hu, Hk. auto. Qed.

Lemma configured_saved overlap registered waiting p s :
  configured createClient overlap registered waiting p ->
  supabaseUrl s = supabaseUrl (settings p) ->
  supabaseKey s = supabaseKey (settings p) ->
  charsFromPreviousParagraph s = charsFromPreviousParagraph (settings p) ->
  configured createClient overlap registered waiting (saveSettings (set_settings s p)).
Proof.
  intros (H1 & H2 & H3 & H4 & H5) Hu Hk Hc. unfold configured.
  destruct (same_secrets (settings p) s Hu Hk) as [Hclient Hrej].
  cbn [saveSettings set_settings set_dataFile settings supabaseClient openai
       statusBarItemEl commands whenLayoutReady hasClients].
  rewrite Hclient, Hrej, Hc. auto.
Qed.

Lemma configured_setupSupabase overlap registered waiting p s :
  configured createClient overlap registered waiting p ->
  charsFromPreviousParagraph s = charsFromPreviousParagraph (settings p) ->
  configured createClient overlap registered waiting
    (snd (setupSupabase createClient (saveSettings (set_settings s p)))).
Proof.
  intros (H1 & H2 & H3 & H4 & H5) Hc. unfold configured.
  pose proof (setupSupabase_fields (saveSettings (set_settings s p))) as H.
  cbn zeta in H. destruct H as (S1 & S2 & S3 & S4 & S5 & S6 & S7 & S8).
  cbn [saveSettings set_settings set_dataFile settings openai dataFile commands
       whenLayoutReady] in S1, S2, S3, S4, S5, S6, S7, S8.
  rewrite S1, S4, S5, S6, Hc.
  split; [reflexivity|]. split; [|auto]. intros Hrej. apply S7. exact Hrej.
Qed.

Lemma configured_setupOpenai overlap registered waiting p s :
  configured createClient overlap registered waiting p ->
  supabaseUrl s = supabaseUrl (settings p) ->
  supabaseKey s = supabaseKey (settings p) ->
  charsFromPreviousParagraph s = charsFromPreviousParagraph (settings p) ->
  configured createClient overlap registered waiting
    (setupOpenai (saveSettings (set_settings s p))).
Proof.
  intros (H1 & H2 & H3 & H4 & H5) Hu Hk Hc. unfold configured.
  destruct (same_secrets (settings p) s Hu Hk) as [Hclient Hrej].
  pose proof (setupOpenai_fields (saveSettings (set_settings s p))) as H.
  cbn zeta in H. destruct H as (S1 & S2 & S3 & S4 & S5 & S6 & S7).
  cbn [saveSettings set_settings set_dataFile settings supabaseClient dataFile commands
       whenLayoutReady] in S1, S2, S3, S4, S5.
  rewrite S1, S2, S4, S5, Hclient, Hc. auto.
Qed.

Lemma configured_edit overlap registered waiting e p :
  configured createClient overlap registered waiting p ->
  configured createClient overlap registered waiting
    (edit trim oneLine parseInt parseFloat createClient e p).
Proof.
  intros H.
  destruct e; cbn [edit];
    try (apply configured_saved; [exact H | reflexivity..]);
    try (apply configured_setupSupabase; [exact H | reflexivity..]);
    try (apply configured_setupOpenai; [exact H | reflexivity..]);
    unfold onSemanticMatchThreshold, onSemanticMatchCount,
      onSemanticMinContentLength, onGenerativeMatchThreshold,
      onGenerativeMatchCount, onGenerativeMinContentLength;
    (destruct (parseInt value);
     [apply configured_saved; [exact H | reflexivity..] | exact H]).
Qed.

Lemma configured_edits overlap registered waiting (l : list Edit) p :
  configured createClient overlap registered waiting p ->
  configured createClient overlap registered waiting
    (edits trim oneLine parseInt parseFloat createClient l p).
Proof.
  revert p. induction l as [|e l IH]; intros p H; [exact H|].
  unfold edits. cbn [fold_left]. apply IH. apply configured_edit. exact H.
Qed.

(** Every change but one of the OpenAI key leaves the OpenAI client as it
    is, and the client follows the key once it does. *)
Lemma openai_edit e p :
  let p' := edit trim oneLine parseInt parseFloat createClient e p in
  (keyed p -> keyed p') /\
  match e with
  | EditOpenaiKey _ => keyed p'
  | _ => openai p' = openai p
  end.
Proof.
  cbn zeta.
  pose proof (fun q => proj1 (proj2 (setupSupabase_fields q))) as Hs. cbn zeta in Hs.
  pose proof (fun q => proj1 (setupSupabase_fields q)) as Hs'. cbn zeta in Hs'.
  pose proof (fun q => proj1 (proj2 (proj2 (proj2 (proj2 (proj2 (setupOpenai_fields q)))))))
    as Ho. cbn zeta in Ho.
  unfold keyed in *.
  destruct e; cbn [edit];
    unfold onExcludedDirs, onPublicDirs, onPrompt, onIndexOnOpen, onSearchAsYouType,
      onSupabaseUrl, onSupabaseKey, onOpenaiKey,
      onSemanticMatchThreshold, onSemanticMatchCount,
      onSemanticMinContentLength, onGenerativeMatchThreshold,
      onGenerativeMatchCount, onGenerativeMinContentLength;
    try destruct (parseInt value);
    rewrite ?Hs, ?Hs'; try (split; [intros _|]; apply Ho);
    cbn [saveSettings set_settings set_dataFile settings openai openaiKey
         with_excludedDirs with_publicDirs with_prompt with_indexOnOpen
         with_searchAsYouType with_supabaseUrl with_supabaseKey
         with_semanticSearch with_generativeSearch]; auto.
Qed.

Lemma keyed_edits (l : list Edit) p :
  keyed p -> keyed (edits trim oneLine parseInt parseFloat createClient l p).
Proof.
  revert p. induction l as [|e l IH]; intros p H; [exact H|].
  unfold edits. cbn [fold_left]. apply IH. apply openai_edit. exact H.
Qed.

Lemma unkeyed_edits (l : list Edit) p :
  (forall value, ~ In (EditOpenaiKey value) l) ->
  openai (edits trim oneLine parseInt parseFloat createClient l p) = openai p.
Proof.
  revert p. induction l as [|e l IH]; intros p H; [reflexivity|].
  change (openai (edits trim oneLine parseInt parseFloat createClient l
                    (edit trim oneLine parseInt parseFloat createClient e p)) =
          openai p).
  rewrite (IH (edit trim oneLine parseInt parseFloat createClient e p))
    by (intros value Hin; apply (H value); right; exact Hin).
  pose proof (openai_edit e p) as He. cbn zeta in He. destruct He as [_ He].
  destruct e; try exact He. exfalso. apply (H value). left. reflexivity.
Qed.

(** The settings [onload] loads. *)
Lemma onload_settings saved (w : @State Vector) :
  settings (snd (onload oneLine createClient saved w)) =
  match saved with
  | Some d => assign (DEFAULT_SETTINGS oneLine) d
  | None => DEFAULT_SETTINGS oneLine
  end.
Proof.
  unfold onload.
  match goal with
  | |- context [setupSupabase createClient ?q] =>
      pose proof (setupSupabase_fields q) as Hs; cbn zeta in Hs;
      destruct Hs as (S1 & _);
      destruct (setupSupabase createClient q) as [[[]|e] p1]
  end; cbn [snd settings] in *.
  - pose proof (setupOpenai_fields p1) as Ho. cbn zeta in Ho. destruct Ho as (O1 & _).
    rewrite O1, S1. unfold loadSettings. cbn. reflexivity.
  - rewrite S1. unfold loadSettings. cbn. reflexivity.
Qed.

Lemma onload_overlap saved (w : @State Vector) :
  charsFromPreviousParagraph (settings (snd (onload oneLine createClient saved w))) =
  match saved with
  | Some d => Data.charsFromPreviousParagraph d
  | None => None
  end.
Proof.
  rewrite onload_settings. destruct saved as [d|]; [|reflexivity].
  cbn. destruct (Data.charsFromPreviousParagraph d); reflexivity.
Qed.

(** [onload] returns unless [createClient] throws on the secrets loaded.
    When it returns, both clients are set up and both commands added;
    when it throws, no command is added, nothing waits for the layout,
    the OpenAI client is not set up and the status bar is empty. *)
Lemma onload_spec saved (w : @State Vector) :
  let loaded := onload oneLine createClient saved w in
  let p := snd loaded in
  let s := settings p in
  if rejected createClient s then
    (exists e,
       fst loaded = Throw e /\
       createClient (supabaseUrl s) (supabaseKey s) = Throw e) /\
    configured createClient (charsFromPreviousParagraph s) [] false p /\
    openai p = None /\ statusBarItemEl p = ""
  else
    fst loaded = Ok tt /\
    configured createClient (charsFromPreviousParagraph s)
      [{| command_id := "ali-ai-search"; command_name := "Ali AI Search" |};
       {| command_id := "refresh-embedding"; command_name := "Refresh Index" |}]
      (indexOnOpen s && hasClients p) p /\
    keyed p.
Proof.
  cbn zeta. unfold onload.
  match goal with
  | |- context [setupSupabase createClient ?q0] => set (q := q0)
  end.
  assert (openai q = None /\ statusBarItemEl q = "" /\ commands q = [] /\
          whenLayoutReady q = false) as (Q1 & Q2 & Q3 & Q4) by (repeat split).
  clearbody q.
  pose proof (setupSupabase_fields q) as Hs. cbn zeta in Hs.
  destruct Hs as (S1 & S2 & S3 & S4 & S5 & S6 & S7 & S8).
  destruct (setupSupabase createClient q) as [[[]|e] p1] eqn:Erun; cbn [fst snd] in *.
  - pose proof (setupOpenai_fields p1) as Ho. cbn zeta in Ho.
    destruct Ho as (O1 & O2 & O3 & O4 & O5 & O6 & O7).
    unfold keyed in O6. rewrite O1, S1 in O6.
    unfold hasClients in O7. rewrite O2, S6 in O7.
    unfold configured, keyed, hasClients.
    cbn [settings supabaseClient statusBarItemEl commands whenLayoutReady openai].
    rewrite O1, O2, S1, S6.
    destruct (rejected createClient (settings q)) eqn:Erej.
    + destruct (S8 eq_refl) as (_ & e & He & _). discriminate He.
    + split; [reflexivity|]. split; [|exact O6].
      split; [reflexivity|]. split; [intros _; exact O7|]. auto.
  - unfold configured. cbn [settings]. rewrite S1, S2, S4, S5, S6.
    destruct (rejected createClient (settings q)) eqn:Erej.
    + destruct (S8 eq_refl) as (Hstatus & e' & He & Hthrow).
      split; [exists e'; split; [exact He | exact Hthrow]|].
      rewrite Hstatus. repeat split; try assumption. discriminate.
    + destruct (S7 eq_refl) as (He & _). discriminate He.
Qed.

(** X14. After [onload], and after any changes made in the settings tab:
    the Supabase client is the one [createClient] makes of the current
    URL and key, and there is none when one of them is empty or when
    [createClient] throws on them; unless it throws on them, the status
    bar says "Ready" when both clients exist and "Missing API variables"
    otherwise, and it says "Ready" whenever both exist.  [onload] throws
    exactly when [createClient] throws on the secrets loaded, with its
    error.  When [onload] returned, both commands are added, the OpenAI
    client exists exactly when its key is not empty, each command answers
    a check with whether both clients exist, changing nothing, and
    without both no command and no layout callback does anything.  When
    it threw, the status bar was left empty, no command is added and
    nothing waits for the layout, whatever is changed later, and there is
    no OpenAI client until its key is changed. *)
Theorem clients_follow_the_secrets saved (w : @State Vector) (l : list Edit) :
  let loaded := onload oneLine createClient saved w in
  let p := edits trim oneLine parseInt parseFloat createClient l (snd loaded) in
  let s := settings p in
  supabaseClient p = clientOf createClient s /\
  (rejected createClient s = false ->
   statusBarItemEl p =
     (if hasClients p then "✨ [AI] Ready" else "❓[AI] Missing API variables")) /\
  (hasClients p = true -> statusBarItemEl p = "✨ [AI] Ready") /\
  match fst loaded with
  | Ok _ =>
      rejected createClient (settings (snd loaded)) = false /\
      commands p =
        [{| command_id := "ali-ai-search"; command_name := "Ali AI Search" |};
         {| command_id := "refresh-embedding"; command_name := "Refresh Index" |}] /\
      openai p =
        (if String.eqb (openaiKey s) "" then None else Some {| apiKey := openaiKey s |}) /\
      (hasClients p = true <->
       supabaseUrl s <> "" /\ supabaseKey s <> "" /\ openaiKey s <> "" /\
       rejected createClient s = false) /\
      searchCommand true p = (hasClients p, p) /\
      refreshCommand vault true p = (hasClients p, p) /\
      (hasClients p = false ->
       forall checking,
         searchCommand checking p = (false, p) /\
         refreshCommand vault checking p = (false, p) /\
         onLayoutReady vault p = p)
  | Throw e =>
      createClient (supabaseUrl (settings (snd loaded)))
                   (supabaseKey (settings (snd loaded))) = Throw e /\
      rejected createClient (settings (snd loaded)) = true /\
      statusBarItemEl (snd loaded) = "" /\
      commands p = [] /\ whenLayoutReady p = false /\ onLayoutReady vault p = p /\
      ((forall value, ~ In (EditOpenaiKey value) l) ->
       openai p = None /\ hasClients p = false)
  end.
Proof.
  intros loaded p s.
  pose proof (onload_spec saved w) as Hload. cbn zeta in Hload. fold loaded in Hload.
  assert (forall overlap registered waiting,
            configured createClient overlap registered waiting (snd loaded) ->
            supabaseClient p = clientOf createClient s /\
            (rejected createClient s = false ->
             statusBarItemEl p =
               (if hasClients p then "✨ [AI] Ready" else "❓[AI] Missing API variables")) /\
            (hasClients p = true -> statusBarItemEl p = "✨ [AI] Ready") /\
            commands p = registered /\ whenLayoutReady p = waiting) as Hinv.
  { intros overlap registered waiting H.
    apply (configured_edits _ _ _ l) in H. fold p in H.
    destruct H as (H1 & H2 & H3 & H4 & _). fold s in H1, H2.
    split; [exact H1|]. split; [exact H2|]. split; [|auto].
    intros Hboth. rewrite H2, Hboth; [reflexivity|].
    unfold hasClients in Hboth. rewrite H1 in Hboth. unfold clientOf, rejected in *.
    destruct (String.eqb (supabaseUrl s) "" || String.eqb (supabaseKey s) "");
      [discriminate Hboth|].
    destruct (createClient (supabaseUrl s) (supabaseKey s));
      [reflexivity | discriminate Hboth]. }
  destruct (rejected createClient (settings (snd loaded))) eqn:Erej.
  - destruct Hload as ((e & He & Hthrow) & Hconf & Hopenai & Hstatus).
    destruct (Hinv _ _ _ Hconf) as (H1 & H2 & H3 & H4 & H5).
    split; [exact H1|]. split; [exact H2|]. split; [exact H3|].
    rewrite He. split; [exact Hthrow|]. split; [reflexivity|]. split; [exact Hstatus|].
    split; [exact H4|]. split; [exact H5|].
    split; [unfold onLayoutReady; rewrite H5; reflexivity|].
    intros Hnone.
    assert (openai p = None) as Hp
      by (subst p; rewrite unkeyed_edits by exact Hnone; exact Hopenai).
    split; [exact Hp|]. unfold hasClients. rewrite Hp.
    destruct (supabaseClient p); reflexivity.
  - destruct Hload as (He & Hconf & Hkeyed).
    destruct (Hinv _ _ _ Hconf) as (H1 & H2 & H3 & H4 & H5).
    split; [exact H1|]. split; [exact H2|]. split; [exact H3|].
    rewrite He. split; [reflexivity|]. split; [exact H4|].
    apply (keyed_edits l) in Hkeyed. fold p in Hkeyed. unfold keyed in Hkeyed.
    fold s in Hkeyed. split; [exact Hkeyed|]. split.
    + unfold hasClients. rewrite H1, Hkeyed. unfold clientOf, rejected.
      destruct (String.eqb_spec (supabaseUrl s) "") as [Eu|Eu];
        destruct (String.eqb_spec (supabaseKey s) "") as [Ek|Ek];
        destruct (String.eqb_spec (openaiKey s) "") as [Eo|Eo];
        destruct (createClient (supabaseUrl s) (supabaseKey s));
        cbn [orb negb andb]; split; try discriminate; try tauto;
        intros (_ & _ & _ & H); discriminate H.
    + unfold searchCommand, refreshCommand, onLayoutReady.
      destruct (hasClients p); cbn [negb].
      * split; [reflexivity|]. split; [reflexivity|]. discriminate.
      * split; [reflexivity|]. split; [reflexivity|]. intros _ checking.
        destruct (whenLayoutReady p); auto.
Qed.

Lemma index_spec p :
  let run :=
    generateEmbeddings config vault (excludedDirsList (settings p))
                       (publicDirsList (settings p)) (backend p) in
  index vault p =
  report (embeddingResult (snd run)) (set_backend (snd run) (setText "🔮 [AI] Indexing..." p)).
Proof.
  cbn zeta. unfold index. cbn [settings backend setText].
  rewrite generateEmbeddings_spec. reflexivity.
Qed.

(** X16. The command "Refresh Index" answers whether both clients exist.
    When they do and it is not merely checking, it runs one pass with the
    [config] of config.ts and the directory lists of the settings, and
    then shows "Loaded" and a notice with the success, update and delete
    counts when the pass counted no error, and "Error" and a notice with
    the error count when it counted one; it shows "Loaded" whenever no
    request fails.  The callback waiting for the layout does the same. *)
Theorem refresh_reports_the_pass checking p :
  let run :=
    generateEmbeddings config vault (excludedDirsList (settings p))
                       (publicDirsList (settings p)) (backend p) in
  let c := embeddingResult (snd run) in
  let p' := snd (refreshCommand vault checking p) in
  fst (refreshCommand vault checking p) = hasClients p /\
  (checking = true \/ hasClients p = false -> p' = p) /\
  (checking = false -> hasClients p = true ->
   fst run = Ok c /\ backend p' = snd run /\ settings p' = settings p /\
   statusBarItemEl p' =
     (if errorCount c =? 0 then "✨ [AI] Loaded" else "😔 [AI] Error") /\
   notices p' =
     notices p ++
     [if errorCount c =? 0
      then ("Successfully indexed " ++ pretty (successCount c) ++ " documents with "
            ++ pretty (updatedCount c) ++ " updates! Removed "
            ++ pretty (deleteCount c) ++ " deleted documents.")%string
      else ("There were " ++ pretty (errorCount c)
            ++ " errors! View developer console for more information.")%string] /\
   ((forall n, length (log (backend p)) <= n -> faults (backend p) n = false) ->
    statusBarItemEl p' = "✨ [AI] Loaded") /\
   (whenLayoutReady p = true -> onLayoutReady vault p = p')).
Proof.
  intros run c p'. subst p'. unfold refreshCommand, onLayoutReady.
  destruct (hasClients p) eqn:Eh; cbn [fst snd].
  - split; [reflexivity|]. split.
    + intros [->|H]; [reflexivity | discriminate H].
    + intros -> _. cbn [negb]. rewrite index_spec. fold run c.
      pose proof (pass_summary config vault (excludedDirsList (settings p))
                    (publicDirsList (settings p)) (backend p)) as H.
      cbn zeta in H. destruct H as (Hrun & _ & _ & _ & Hfaults). fold run c in Hrun.
      split; [rewrite Hrun; reflexivity|].
      unfold report. destruct (errorCount c =? 0) eqn:Ec.
      * repeat split. intros ->. reflexivity.
      * repeat split.
        -- intros Hnone. exfalso. apply Nat.eqb_neq in Ec. apply Ec. subst c run.
           pose proof (pass_without_faults config vault (excludedDirsList (settings p))
                         (publicDirsList (settings p)) (backend p) Hnone) as Hclean.
           cbn zeta in Hclean. destruct Hclean as (He & Hf & Hz).
           destruct Hfaults as [(E & _)|(_ & Hc & _)].
           ++ rewrite Hf in E. discriminate.
           ++ rewrite Hc, He, Hz. reflexivity.
        -- intros ->. reflexivity.
  - split; [reflexivity|]. split; [reflexivity | discriminate].
Qed.

Lemma excluded_by_pieces filePath (directories : list string) :
  isFileInDirectories filePath directories = false <->
  forall directory,
    In directory directories ->
    String.prefix (normalize directory) (normalize filePath) = false.
Proof.
  unfold isFileInDirectories. cbn zeta. split.
  - intros H directory Hin.
    destruct (String.prefix (normalize directory) (normalize filePath)) eqn:E;
      [|reflexivity].
    assert (existsb (fun d => String.prefix d (normalize filePath))
                    (List.map normalize directories) = true) as Hex; [|congruence].
    apply existsb_exists. exists (normalize directory).
    split; [apply in_map; exact Hin | exact E].
  - intros H.
    destruct (existsb _ (List.map normalize directories)) eqn:E; [|reflexivity].
    apply existsb_exists in E as (d & Hd & Hp).
    apply in_map_iff in Hd as (directory & <- & Hin).
    rewrite (H directory Hin) in Hp. discriminate.
Qed.

(** X17. Changing the text of the excluded, or of the public, directories
    stores the text and, as the list, its pieces between the commas, each
    trimmed: one more piece than the text has commas, so never an empty
    list, the pieces joined by commas being the text and none holding a
    comma.  The settings are saved, and the next pass goes over the files
    of the vault whose normalized path starts with none of the
    normalized, trimmed pieces. *)
Theorem directories_are_the_trimmed_pieces value p :
  let p' := onExcludedDirs trim value p in
  let pieces := split_string "," value in
  excludedDirs (settings p') = value /\
  excludedDirsList (settings p') = List.map trim pieces /\
  publicDirs (settings (onPublicDirs trim value p)) = value /\
  publicDirsList (settings (onPublicDirs trim value p)) = List.map trim pieces /\
  length pieces = S (occurrences "," value) /\
  join_strings "," pieces = value /\
  (forall piece, In piece pieces -> occurrences "," piece = 0) /\
  dataFile p' = Some (toData (settings p')) /\
  (forall file,
     In file (liveFiles vault (excludedDirsList (settings p'))) <->
     In file (getMarkdownFiles vault) /\
     forall piece,
       In piece pieces ->
       String.prefix (normalize (trim piece)) (normalize (path file)) = false).
Proof.
  intros p' pieces. subst p'.
  cbn [onExcludedDirs onPublicDirs saveSettings set_settings set_dataFile settings
       dataFile with_excludedDirs with_publicDirs excludedDirs excludedDirsList
       publicDirs publicDirsList].
  fold pieces.
  split; [reflexivity|]. split; [reflexivity|]. split; [reflexivity|].
  split; [reflexivity|]. split; [apply length_split_string|].
  split; [apply join_split_string|].
  split; [intros piece; apply pieces_have_no_separator|].
  split; [reflexivity|].
  intros file. unfold liveFiles. rewrite filter_In, negb_true_iff, excluded_by_pieces.
  split; intros [Hin H]; (split; [exact Hin|]).
  - intros piece Hp. apply H. apply in_map. exact Hp.
  - intros directory Hd. apply in_map_iff in Hd as (piece & <- & Hp). exact (H piece Hp).
Qed.

Lemma edits_keep_the_overlap (l : list Edit) saved (w : @State Vector) :
  charsFromPreviousParagraph
    (settings (edits trim oneLine parseInt parseFloat createClient l
                 (snd (onload oneLine createClient saved w)))) =
  match saved with
  | Some d => Data.charsFromPreviousParagraph d
  | None => None
  end.
Proof.
  rewrite <- (onload_overlap saved w).
  pose proof (onload_spec saved w) as H. cbn zeta in H.
  destruct (rejected createClient _);
    [destruct H as (_ & H & _) | destruct H as (_ & H & _)];
    apply (configured_edits _ _ _ l) in H; destruct H as (_ & _ & _ & _ & H); exact H.
Qed.

(** X18. The settings tab shows its settings in the order of the code.  With
    an overlap in the settings it shows them all.  With none, [display]
    throws a TypeError once "Overlap from previous paragraph" has its
    empty text field, and shows nothing after it.  That is the case of a
    plugin loaded from a data.json without that key, or from none,
    whatever was changed in the settings tab since. *)
Theorem display_needs_the_overlap p (containerEl : list (@Element Vector)) :
  let run :=
    display trim oneLine parseInt parseFloat numberToString createClient p containerEl in
  let first :=
    ["Excluded Directories"; "Public Directories"; "Prompt"; "Index on start";
     "Secrets"; "Supabase URL"; "Supabase Service Role Key"; "OpenAI API Key";
     "Embedding Model"; "Chat Model"; "Overlap from previous paragraph"] in
  match charsFromPreviousParagraph (settings p) with
  | Some n =>
      fst run = Ok tt /\
      List.map label (snd run) =
        first ++
        ["Min Chunk Size"; "Max Chunk Size"; "Search As You Type";
         "Semantic Search Settings"; "Match Threshold"; "Match Count";
         "Min Content Length";
         "Generative Search Settings"; "Match Threshold"; "Match Count";
         "Min Content Length"]
  | None =>
      fst run = Throw TypeError /\
      List.map label (snd run) = first /\
      List.last (snd run) (Heading "") =
        Setting
          {| name := "Overlap from previous paragraph";
             desc := "Number of characters to overlap from previous paragraph (read-only)";
             component := Some blankText |}
  end /\
  forall saved (w : @State Vector) (l : list Edit) c,
    match saved with
    | Some d => Data.charsFromPreviousParagraph d = None
    | None => True
    end ->
    fst (display trim oneLine parseInt parseFloat numberToString createClient
           (edits trim oneLine parseInt parseFloat createClient l
              (snd (onload oneLine createClient saved w))) c) =
    Throw TypeError.
Proof.
  intros run first.
  assert (forall (q : @Plugin Vector) (c : list (@Element Vector)),
            charsFromPreviousParagraph (settings q) = None ->
            fst (display trim oneLine parseInt parseFloat numberToString createClient
                   q c) = Throw TypeError) as Hthrows.
  { intros q c Hq. unfold display. cbn zeta. rewrite Hq. reflexivity. }
  split.
  - subst run. unfold display. cbn zeta.
    destruct (charsFromPreviousParagraph (settings p)); cbn; repeat split.
  - intros saved w l c Hsaved. apply Hthrows. rewrite edits_keep_the_overlap.
    destruct saved as [d|]; [exact Hsaved | reflexivity].
Qed.

End PluginProofs.

(** * The theorems at work on the small vault *)

Import Demo.

Lemma reindex_order_witness :
  checksum_matches (select_by_path (path note) (store fresh)) (checksumOf vault note)
    = false /\
  exists k j,
    k <= 8 /\ j <= 2 /\
    (stored_checksum "Public/note.md"
       (store (snd (syncFile config vault publicDirs note fresh))) = Some "a|abc;def"
     <-> k = 8).
Proof.
  assert (checksum_matches (select_by_path (path note) (store fresh))
                           (checksumOf vault note) = false) as Hm by reflexivity.
  split; [exact Hm|].
  destruct (reindex_order config vault publicDirs note fresh Hm)
    as (k & j & Hk & Hj & _ & _ & _ & _ & Hsum).
  exists k, j. split; [exact Hk|]. split; [exact Hj | exact Hsum].
Defined.

Lemma unchanged_document_witness :
  select_by_path (path note) (oneRow hiddenNote) = Some hiddenNote /\
  doc_checksum hiddenNote = Some (checksumOf vault note) /\
  never 0 = false /\ never 1 = false /\
  embeddingResult
    (snd (syncFile config vault publicDirs note (start (oneRow hiddenNote) never))) =
  {| successCount := 1; updatedCount := 1; errorCount := 0; deleteCount := 0 |}.
Proof.
  assert (select_by_path (path note) (oneRow hiddenNote) = Some hiddenNote) as Hsel
    by reflexivity.
  assert (doc_checksum hiddenNote = Some (checksumOf vault note)) as Hsum
    by reflexivity.
  split; [exact Hsel|]. split; [exact Hsum|].
  split; [reflexivity|]. split; [reflexivity|].
  destruct (unchanged_document config vault publicDirs note
              (start (oneRow hiddenNote) never) hiddenNote
              Hsel Hsum eq_refl eq_refl) as [_ H].
  assert (doc_public hiddenNote <> isFileInDirectories (path note) publicDirs) as Hne.
  { vm_compute. discriminate. }
  destruct (H Hne eq_refl) as (_ & _ & _ & _ & _ & Hc). exact Hc.
Defined.

Lemma failure_counts_once_witness :
  3 < length (planOf config vault publicDirs note (store (start emptyStore (failAt 3)))) /\
  failAt 3 (0 + 3) = true /\
  errorCount
    (embeddingResult
       (snd (syncFile config vault publicDirs note (start emptyStore (failAt 3))))) = 1.
Proof.
  assert (3 < length (planOf config vault publicDirs note
                             (store (start emptyStore (failAt 3))))) as Hlt.
  { vm_compute. lia. }
  split; [exact Hlt|]. split; [reflexivity|].
  assert (failAt 3 (0 + 3) = true) as Hf by reflexivity.
  destruct (failure_counts_once config vault publicDirs note
              (start emptyStore (failAt 3)) 3 Hlt Hf) as (_ & Hc & _).
  rewrite Hc. reflexivity.
Defined.

Lemma flagged_query_stops_witness :
  negb (String.eqb "how to cook rice" (Search.searchQuery modal)) &&
    ((Search.minLengthBeforeAutoSearch modal <? String.length "how to cook rice")
     || false) = true /\
  flagging "how to cook rice" = Some true /\
  Search.calls
    (snd (Search.getSuggestionsInternal (fun q => q) flagging searching
            "how to cook rice" false modal)) =
  [Search.CreateModeration "how to cook rice"].
Proof.
  assert (negb (String.eqb "how to cook rice" (Search.searchQuery modal)) &&
            ((Search.minLengthBeforeAutoSearch modal <? String.length "how to cook rice")
             || false) = true) as Hguard by reflexivity.
  split; [exact Hguard|]. split; [reflexivity|].
  destruct (flagged_query_stops (fun q => q) flagging searching
              "how to cook rice" false modal Hguard eq_refl) as [Hrun _].
  rewrite Hrun. reflexivity.
Defined.

Lemma front_matter_change_reindexes_witness :
  select_by_path (path note) (oneRow olderNote) = Some olderNote /\
  doc_checksum olderNote = Some (sha256_base64 "b|abc;def") /\
  fst (parseMarkdown "b|abc;def") = fst (parseMarkdown (fileText vault note)) /\
  snd (parseMarkdown "b|abc;def") <> snd (parseMarkdown (fileText vault note)) /\
  sha256_base64 "b|abc;def" <> sha256_base64 (fileText vault note) /\
  checksum_matches (Some olderNote) (checksumOf vault note) = false.
Proof.
  assert (snd (parseMarkdown "b|abc;def") <> snd (parseMarkdown (fileText vault note)))
    as Hfm.
  { intros H. apply (f_equal (fun m => m !! "tags")) in H. vm_compute in H.
    discriminate H. }
  assert (sha256_base64 "b|abc;def" <> sha256_base64 (fileText vault note)) as Hsha.
  { vm_compute. discriminate. }
  assert (select_by_path (path note) (oneRow olderNote) = Some olderNote) as Hsel
    by reflexivity.
  assert (doc_checksum olderNote = Some (sha256_base64 "b|abc;def")) as Hsum
    by reflexivity.
  assert (fst (parseMarkdown "b|abc;def") = fst (parseMarkdown (fileText vault note)))
    as Hbody by reflexivity.
  split; [exact Hsel|]. split; [exact Hsum|]. split; [exact Hbody|].
  split; [exact Hfm|]. split; [exact Hsha|].
  destruct (front_matter_change_reindexes config vault publicDirs note
              (start (oneRow olderNote) never) olderNote "b|abc;def"
              Hsel Hsum Hbody Hfm Hsha) as (_ & _ & Hm & _).
  exact Hm.
Defined.

Lemma failed_deletion_is_counted_witness :
  isLive [note] goneNote = false /\
  deleteCount
    (embeddingResult
       (snd (reconcileDocument [note] goneNote (start (oneRow goneNote) (failAt 0))))) = 1 /\
  errorCount
    (embeddingResult
       (snd (reconcileDocument [note] goneNote (start (oneRow goneNote) (failAt 0))))) = 1.
Proof.
  assert (isLive [note] goneNote = false) as Hdead by reflexivity.
  split; [exact Hdead|].
  destruct (failed_deletion_is_counted [note] goneNote
              (start (oneRow goneNote) (failAt 0)) Hdead)
    as (_ & _ & Hd & He & _).
  split; [exact Hd | exact He].
Defined.

Lemma second_pass_is_idle_witness :
  let first := generateEmbeddings config vault excludeDirs publicDirs fresh in
  let second := generateEmbeddings config vault excludeDirs publicDirs (snd first) in
  store_wf (store fresh) /\
  fst first =
    Ok {| successCount := 2; updatedCount := 2; errorCount := 0; deleteCount := 0 |} /\
  fst second =
    Ok {| successCount := 2; updatedCount := 0; errorCount := 0; deleteCount := 0 |} /\
  (forall f, In f (liveFiles vault excludeDirs) ->
             branchOf vault publicDirs f (store (snd first)) = Skip).
Proof.
  intros first second.
  assert (store_wf (store fresh)) as Hwf.
  { split; [apply NoDup_nil; reflexivity | apply List.Forall_nil]. }
  assert (first =
          (Ok {| successCount := 2; updatedCount := 2; errorCount := 0; deleteCount := 0 |},
           snd first)) as H1 by (vm_compute; reflexivity).
  assert (second =
          (Ok {| successCount := 2; updatedCount := 0; errorCount := 0; deleteCount := 0 |},
           snd second)) as H2 by (vm_compute; reflexivity).
  split; [exact Hwf|]. split; [rewrite H1; reflexivity|].
  split; [rewrite H2; reflexivity|].
  destruct (second_pass_is_idle config vault excludeDirs publicDirs fresh _ _ _ _
              Hwf H1 eq_refl H2) as [Hskip _].
  exact Hskip.
Defined.

(** ** C9 *)



(** ** More of the engine, the search, the chat and the plugin at work *)

Import DemoChat.

Lemma clean_pass_witness :
  (forall n, length (log fresh) <= n -> faults fresh n = false) /\
  exists c,
    fst (generateEmbeddings config vault excludeDirs publicDirs fresh) = Ok c /\
    errorCount c = 0 /\ successCount c = 2 /\ deleteCount c = 0.
Proof.
  assert (forall n, length (log fresh) <= n -> faults fresh n = false) as Hnone
    by (intros n _; reflexivity).
  split; [exact Hnone|].
  exact (clean_pass config vault excludeDirs publicDirs fresh Hnone).
Defined.

Lemma error_free_pass_is_in_sync_witness :
  let run := generateEmbeddings config vault excludeDirs publicDirs fresh in
  store_wf (store fresh) /\
  errorCount (embeddingResult (snd run)) = 0 /\
  (forall p, In p (List.map doc_path (document (store (snd run)))) <->
             In p ["Public/note.md"; "Private/diary.md"]).
Proof.
  intros run.
  assert (store_wf (store fresh)) as Hwf.
  { split; [apply NoDup_nil; reflexivity | apply List.Forall_nil]. }
  assert (run = (Ok (embeddingResult (snd run)), snd run)) as Hrun
    by (vm_compute; reflexivity).
  assert (errorCount (embeddingResult (snd run)) = 0) as Herr
    by (vm_compute; reflexivity).
  split; [exact Hwf|]. split; [exact Herr|].
  destruct (error_free_pass_is_in_sync config vault excludeDirs publicDirs fresh _ _
              Hwf Hrun Herr) as [Hpaths _].
  exact Hpaths.
Defined.

Lemma pass_keeps_the_store_consistent_witness :
  let w := start staleStore (failAt 5) in
  consistent (store w) /\
  errorCount (embeddingResult
                (snd (generateEmbeddings config vault excludeDirs publicDirs w))) = 1 /\
  consistent (store (snd (generateEmbeddings config vault excludeDirs publicDirs w))).
Proof.
  intros w.
  assert (consistent (store w)) as Hc.
  { split; [split|split].
    - apply NoDup_singleton.
    - repeat constructor.
    - apply NoDup_singleton.
    - repeat constructor. exists olderNote. split; [left|]; reflexivity. }
  split; [exact Hc|]. split; [vm_compute; reflexivity|].
  exact (pass_keeps_the_store_consistent config vault excludeDirs publicDirs w Hc).
Defined.

Lemma reindex_leaves_one_section_per_chunk_witness :
  let w := start staleStore never in
  consistent (store w) /\
  stored_checksum (path note) (store w) <> Some (sha256_base64 (fileText vault note)) /\
  (forall n, n < length (planOf config vault publicDirs note (store w)) ->
             faults w (length (log w) + n) = false) /\
  List.filter (fun x => Nat.eqb (document_id x) 1)
              (document_section (store (snd (syncFile config vault publicDirs note w)))) =
  [{| document_id := 1; content := "abc"; token_count := 24; embedding := 24 |};
   {| document_id := 1; content := "def"; token_count := 24; embedding := 24 |}].
Proof.
  intros w.
  assert (consistent (store w)) as Hc.
  { split; [split|split].
    - apply NoDup_singleton.
    - repeat constructor.
    - apply NoDup_singleton.
    - repeat constructor. exists olderNote. split; [left|]; reflexivity. }
  assert (stored_checksum (path note) (store w) <>
          Some (sha256_base64 (fileText vault note))) as Hsum
    by (vm_compute; discriminate).
  assert (forall n, n < length (planOf config vault publicDirs note (store w)) ->
                    faults w (length (log w) + n) = false) as Hall
    by (intros n _; reflexivity).
  split; [exact Hc|]. split; [exact Hsum|]. split; [exact Hall|].
  destruct (reindex_leaves_one_section_per_chunk config vault publicDirs note w
              Hc Hsum Hall) as (_ & Hrows & _).
  exact Hrows.
Defined.

Lemma unflagged_query_is_searched_witness :
  negb (String.eqb "how to cook rice" (Search.searchQuery modal)) &&
    ((Search.minLengthBeforeAutoSearch modal <? String.length "how to cook rice")
     || false) = true /\
  passing "how to cook rice" = Some false /\
  fst (Search.getSuggestionsInternal (fun q => q) passing failing
         "how to cook rice" false modal) = Ok tt /\
  Search.notices
    (snd (Search.getSuggestionsInternal (fun q => q) passing failing
            "how to cook rice" false modal)) = ["Error: network down"].
Proof.
  assert (negb (String.eqb "how to cook rice" (Search.searchQuery modal)) &&
            ((Search.minLengthBeforeAutoSearch modal <? String.length "how to cook rice")
             || false) = true) as Hguard by reflexivity.
  split; [exact Hguard|]. split; [reflexivity|].
  rewrite (unflagged_query_is_searched (fun q => q) passing failing
             "how to cook rice" false modal Hguard eq_refl).
  split; reflexivity.
Defined.

Lemma moderation_outage_keeps_the_old_results_witness :
  negb (String.eqb "how to cook rice" (Search.searchQuery modal)) &&
    ((Search.minLengthBeforeAutoSearch modal <? String.length "how to cook rice")
     || false) = true /\
  outage "how to cook rice" = None /\
  fst (Search.getSuggestionsInternal (fun q => q) outage searching
         "how to cook rice" false modal) = Throw Search.ModerationUnavailable /\
  Search.refreshes
    (snd (Search.getSuggestionsInternal (fun q => q) outage searching
            "how to cook rice" false modal)) = 0.
Proof.
  assert (negb (String.eqb "how to cook rice" (Search.searchQuery modal)) &&
            ((Search.minLengthBeforeAutoSearch modal <? String.length "how to cook rice")
             || false) = true) as Hguard by reflexivity.
  split; [exact Hguard|]. split; [reflexivity|].
  destruct (moderation_outage_keeps_the_old_results (fun q => q) outage searching
              "how to cook rice" false modal Hguard eq_refl)
    as (Hthrow & _ & Hrefresh & _).
  split; [exact Hthrow | exact Hrefresh].
Defined.

Lemma chat_sends_what_is_typed_witness :
  Chat.chatView (Chat.dom chatting) /\
  Chat.chatMessages
    (Chat.onKeydown (fun q => q) passing searching answering shiftEnter chatting) =
  [{| Chat.className := "message you"; Chat.messageSender := "you:";
      Chat.messageText := "hello" |};
   {| Chat.className := "message assistant"; Chat.messageSender := "assistant:";
      Chat.messageText := "You said hello" |}].
Proof.
  assert (Chat.chatView (Chat.dom chatting)) as Hview
    by (unfold Chat.chatView; cbn; repeat split).
  split; [exact Hview|].
  destruct (chat_sends_what_is_typed (fun q => q) passing searching answering
              shiftEnter chatting Hview) as [_ Hsent].
  destruct Hsent as (_ & _ & _ & Hmessages); [reflexivity | discriminate |].
  exact (proj1 Hmessages).
Defined.

Lemma failures_stay_with_their_file_witness :
  let w := start emptyStore (failAt 3) in
  let w0 := snd (for_each [note] (syncFile config vault publicDirs)
                          (set_result zeroResult w)) in
  liveFiles vault excludeDirs = [note] ++ diary :: [] /\
  store_wf (store w) /\
  (forall n, n < length (planOf config vault publicDirs diary (store w0)) ->
             faults w0 (length (log w0) + n) = false) /\
  errorCount
    (embeddingResult (snd (generateEmbeddings config vault excludeDirs publicDirs w)))
    = 1 /\
  stored_checksum (path diary)
    (store (snd (generateEmbeddings config vault excludeDirs publicDirs w))) =
  Some "dear diary".
Proof.
  intros w w0.
  assert (liveFiles vault excludeDirs = [note] ++ diary :: []) as Hlive by reflexivity.
  assert (store_wf (store w)) as Hwf.
  { split; [apply NoDup_nil; reflexivity | apply List.Forall_nil]. }
  assert (forall n, n < length (planOf config vault publicDirs diary (store w0)) ->
                    faults w0 (length (log w0) + n) = false) as Hall.
  { intros n Hn. change (length (log w0)) with 4.
    change (faults w0) with (failAt 3). unfold failAt.
    apply Nat.eqb_neq. lia. }
  split; [exact Hlive|]. split; [exact Hwf|]. split; [exact Hall|].
  split; [vm_compute; reflexivity|].
  destruct (failures_stay_with_their_file config vault excludeDirs publicDirs
              [note] diary [] w Hlive Hwf Hall) as (d & Hsel & Hsum & _).
  unfold stored_checksum. rewrite Hsel. exact Hsum.
Defined.

Lemma alt_enter_searches_any_length_witness :
  let altEnter := {| Chat.altKey := true; Chat.shiftKey := false; Chat.key := "Enter" |} in
  let typed :=
    Chat.set_inputEl "rice"
      (Chat.onOpen
         (Chat.constructor "Be brief." (Search.semanticSearchSettings modal)
            (Search.semanticSearchSettings modal) false 10)) in
  Chat.searchView (Chat.dom typed) /\
  String.length (Chat.inputEl typed) <
    Search.minLengthBeforeAutoSearch (Chat.suggest typed) /\
  Search.calls
    (Chat.suggest (Chat.onKeydown (fun q => q) flagging searching answering altEnter typed))
  = [Search.CreateModeration "rice"].
Proof.
  intros altEnter typed.
  assert (Chat.searchView (Chat.dom typed)) as Hview
    by (unfold Chat.searchView; cbn; repeat split; discriminate).
  split; [exact Hview|]. split; [cbn; lia|].
  destruct (alt_enter_searches_any_length (fun q => q) flagging searching answering
              altEnter typed Hview eq_refl) as (_ & Hflagged & _).
  { cbn. discriminate. }
  destruct (Hflagged eq_refl) as (_ & _ & Hcalls). exact Hcalls.
Defined.

(** The listing of the stored documents is the fifteenth request of the
    pass over the small vault; when it fails, the pass counts one error
    and no deletion, though a document dangles. *)
Lemma pass_counts_witness :
  let w := start (oneRow goneNote) (failAt 14) in
  let run := generateEmbeddings config vault excludeDirs publicDirs w in
  dangling (liveFiles vault excludeDirs) (document (store w)) = [goneNote] /\
  List.last (log (snd run)) (SelectAllDocuments, true) = (SelectAllDocuments, false) /\
  errorCount (embeddingResult (snd run)) = 1 /\
  deleteCount (embeddingResult (snd run)) = 0.
Proof.
  intros w run. split; [reflexivity|].
  destruct (pass_counts config vault excludeDirs publicDirs w)
    as (_ & _ & _ & Hfails & _).
  destruct (Hfails eq_refl) as (Hlog & He & Hd).
  fold run in Hlog, He, Hd.
  split; [rewrite Hlog, last_last; reflexivity|]. split; [exact He | exact Hd].
Defined.

(** A plugin loaded with a url that is none, whose url is then set
    right: [onload] threw, so there is a Supabase client but no command
    and no OpenAI client, though its key is saved, and the status bar
    says that variables are missing. *)
Lemma clients_follow_the_secrets_witness :
  let loaded := Plugin.onload (fun text => text) DemoPlugin.createClient
                              (Some DemoPlugin.malformed) fresh in
  let p :=
    Plugin.edits (fun text => text) (fun text => text) DemoPlugin.parseInt
                 DemoPlugin.parseFloat DemoPlugin.createClient
                 [Plugin.EditSupabaseUrl "https://x.supabase.co"] (snd loaded) in
  fst loaded = Throw "Invalid supabaseUrl" /\
  Plugin.openaiKey (Plugin.settings p) = "sk" /\
  Plugin.supabaseClient p =
    Some {| Plugin.clientUrl := "https://x.supabase.co"; Plugin.clientKey := "k" |} /\
  Plugin.statusBarItemEl p = "❓[AI] Missing API variables" /\
  Plugin.commands p = [] /\
  Plugin.openai p = None.
Proof.
  intros loaded p.
  assert (fst loaded = Throw "Invalid supabaseUrl") as Hthrow by reflexivity.
  pose proof (clients_follow_the_secrets vault (fun text => text) (fun text => text)
                DemoPlugin.parseInt DemoPlugin.parseFloat DemoPlugin.createClient
                (Some DemoPlugin.malformed) fresh
                [Plugin.EditSupabaseUrl "https://x.supabase.co"]) as H.
  cbn zeta in H. fold loaded in H. fold p in H. rewrite Hthrow in H.
  destruct H as (Hclient & Hstatus & _ & _ & _ & _ & Hcommands & _ & _ & Hopenai).
  assert (Plugin.openai p = None /\ Plugin.hasClients p = false) as [Ho Hh].
  { apply Hopenai. intros value [H|[]]. discriminate H. }
  split; [exact Hthrow|]. split; [reflexivity|]. split; [rewrite Hclient; reflexivity|].
  split; [rewrite Hstatus, Hh; reflexivity|]. split; [exact Hcommands | exact Ho].
Defined.
